(** * coggml: AtomSpace, truth-value algebra and forward chaining

    A shallow embedding of [src/ggml-opencog.cpp] (with the declarations of
    [include/ggml-opencog.h]).

    - C [float] is IEEE-754 binary32, modelled by the Standard Library's
      [spec_float] at precision 24 and maximal exponent 128, every
      operation rounded to nearest-even on its own (no fused
      multiply-add, no excess precision).
    - C [int] is a [Z] between [INT_MIN] and [INT_MAX].  The only counter
      that grows without a guard is [inferences_made]: its increment wraps
      around as 32-bit two's-complement arithmetic does ([int_succ]); ISO
      C++ leaves signed overflow undefined, so the theorems about the
      count say under which bound no overflow occurs.  Every other [int]
      expression stays below an [int] of the input: the loop counters
      below [max_iterations] and [n_atoms], and [n_atoms] below
      [capacity].
    - Pointers to atoms are addresses in an explicit heap; [malloc] and
      [strdup] succeed and return the next free address.
    - Reading through a null or dangling pointer, or outside an array, has
      no defined result in C++: the embedding returns [None] there.
    - The loops of the rule engine whose bound is re-read from memory take
      fuel; the theorems say how much is enough.
    - The tensor context, the backend buffer and the embedding views are
      never read by the functions modelled here and are left out. *)

From Stdlib Require Import ZArith QArith Qabs Floats.SpecFloat String Bool Lia.
From stdpp Require Import base option list numbers.

Local Open Scope Z_scope.

(** ** binary32 arithmetic *)

Module F32.

Definition prec : Z := 24.
Definition emax : Z := 128.

Definition float : Type := spec_float.

Definition mul : float -> float -> float := SFmul prec emax.
Definition add : float -> float -> float := SFadd prec emax.
Definition sub : float -> float -> float := SFsub prec emax.
Definition div : float -> float -> float := SFdiv prec emax.

(** A value of the C type is a [spec_float] in canonical form. *)
Definition valid (x : float) : bool := valid_binary prec emax x.

Definition is_nan (x : float) : bool :=
  match x with S754_nan => true | _ => false end.

(** The C comparisons [x == y], [x < y], [x <= y] and [x >= y]; each is
    false as soon as an operand is a NaN. *)
Definition eqb (x y : float) : bool := SFeqb x y.
Definition ltb (x y : float) : bool := SFltb x y.
Definition leb (x y : float) : bool := SFleb x y.
Definition geb (x y : float) : bool := SFleb y x.

(** [fmaxf] and [fminf] of <cmath> (ISO C, F.10.9): the larger (smaller)
    argument, and the other argument when exactly one is a NaN.  On equal
    arguments (in particular zeros of either sign) the first is returned,
    as glibc does. *)
Definition fmaxf (x y : float) : float :=
  match SFcompare x y with
  | Some Lt => y
  | Some _ => x
  | None => if is_nan y then x else y
  end.

Definition fminf (x y : float) : float :=
  match SFcompare x y with
  | Some Gt => y
  | Some _ => x
  | None => if is_nan y then x else y
  end.

(** The integer [z] as a float, and the decimal literal [n/d] rounded to
    the nearest binary32 value (what the compiler does with [0.8f]). *)
Definition of_Z (z : Z) : float := binary_normalize prec emax z 0 false.
Definition lit (n d : Z) : float := div (of_Z n) (of_Z d).

Definition zero : float := S754_zero false.
Definition one : float := S754_finite false 8388608 (-23).

(** The rational a finite float stands for. *)
Definition to_Q (x : float) : option Q :=
  match x with
  | S754_zero _ => Some 0%Q
  | S754_finite s m e =>
      Some ((if s then Qopp else fun q => q) (inject_Z (Zpos m) * Qpower 2 e)%Q)
  | _ => None
  end.

(** [within x q eps]: [x] is finite and [|x - q| <= eps]. *)
Definition within (x : float) (q eps : Q) : bool :=
  match to_Q x with
  | Some v => Qle_bool (Qabs (v - q)) eps
  | None => false
  end.

(** The declared ranges of a truth value's fields. *)
Definition in_unit (x : float) : bool := leb zero x && leb x one.
Definition nonneg (x : float) : bool := leb zero x.

End F32.

Abbreviation float := F32.float.

(** ** Truth values *)

Record ggml_opencog_truth_value : Type := mk_tv {
  strength : float;
  confidence : float;
  count : float
}.

Definition ggml_opencog_tv_create (s c n : float) : ggml_opencog_truth_value :=
  {| strength := F32.fmaxf F32.zero (F32.fminf F32.one s);
     confidence := F32.fmaxf F32.zero (F32.fminf F32.one c);
     count := F32.fmaxf F32.zero n |}.

Definition ggml_opencog_tv_and (tv1 tv2 : ggml_opencog_truth_value)
  : ggml_opencog_truth_value :=
  let s1 := strength tv1 in
  let s2 := strength tv2 in
  let c1 := confidence tv1 in
  let c2 := confidence tv2 in
  ggml_opencog_tv_create (F32.mul s1 s2) (F32.mul c1 c2)
                         (F32.add (count tv1) (count tv2)).

Definition ggml_opencog_tv_or (tv1 tv2 : ggml_opencog_truth_value)
  : ggml_opencog_truth_value :=
  let s1 := strength tv1 in
  let s2 := strength tv2 in
  let c1 := confidence tv1 in
  let c2 := confidence tv2 in
  ggml_opencog_tv_create (F32.sub (F32.add s1 s2) (F32.mul s1 s2))
                         (F32.fminf c1 c2)
                         (F32.fmaxf (count tv1) (count tv2)).

Definition ggml_opencog_tv_not (tv : ggml_opencog_truth_value)
  : ggml_opencog_truth_value :=
  ggml_opencog_tv_create (F32.sub F32.one (strength tv)) (confidence tv) (count tv).

(** A truth value whose fields are C floats inside the declared ranges. *)
Definition tv_in_range (tv : ggml_opencog_truth_value) : bool :=
  F32.valid (strength tv) && F32.valid (confidence tv) && F32.valid (count tv)
  && F32.in_unit (strength tv) && F32.in_unit (confidence tv)
  && F32.nonneg (count tv).

(** Field-wise [==] of C. *)
Definition tv_eqb (a b : ggml_opencog_truth_value) : bool :=
  F32.eqb (strength a) (strength b) && F32.eqb (confidence a) (confidence b)
  && F32.eqb (count a) (count b).

(** ** Atoms and the heap *)

Inductive ggml_opencog_atom_type : Type :=
  | OPENCOG_ATOM_CONCEPT_NODE
  | OPENCOG_ATOM_PREDICATE_NODE
  | OPENCOG_ATOM_LINK_NODE
  | OPENCOG_ATOM_INHERITANCE_LINK
  | OPENCOG_ATOM_SIMILARITY_LINK
  | OPENCOG_ATOM_IMPLICATION_LINK
  | OPENCOG_ATOM_EVALUATION_LINK
  | OPENCOG_ATOM_TYPE_COUNT.

#[global] Instance atom_type_eq_dec : EqDecision ggml_opencog_atom_type.
Proof. solve_decision. Defined.

(** [struct ggml_opencog_atom *]: null, or the address of a heap cell. *)
Inductive atom_ptr : Type :=
  | NULL
  | Ptr (a : nat).

#[global] Instance atom_ptr_eq_dec : EqDecision atom_ptr.
Proof. solve_decision. Defined.

(** [struct ggml_opencog_atom].  The embedding view and the [data] payload
    belong to the tensor backend and are never read by the functions
    below; they are left out. *)
Record ggml_opencog_atom : Type := mk_atom {
  type : ggml_opencog_atom_type;
  name : option string;
  tv : ggml_opencog_truth_value;
  outgoing : list atom_ptr;
  n_outgoing : Z
}.

Definition set_tv (a : ggml_opencog_atom) (t : ggml_opencog_truth_value)
  : ggml_opencog_atom :=
  {| type := type a; name := name a; tv := t;
     outgoing := outgoing a; n_outgoing := n_outgoing a |}.

(** [struct ggml_opencog_atomspace]: [atoms] is the calloc'ed array of
    [capacity] slots, of which the first [n_atoms] are filled. *)
Record ggml_opencog_atomspace : Type := mk_atomspace {
  atoms : list atom_ptr;
  n_atoms : Z;
  capacity : Z;
  embedding_dim : Z
}.

(** The malloc'ed atoms (address = position) and the AtomSpace that the
    functions receive as [as]. *)
Record memory : Type := mk_memory {
  heap : list ggml_opencog_atom;
  space : ggml_opencog_atomspace
}.

(** [arr[i]] as an rvalue and as an lvalue; [None] outside the array. *)
Definition read {A : Type} (arr : list A) (i : Z) : option A :=
  if i <? 0 then None else arr !! Z.to_nat i.

Definition write {A : Type} (arr : list A) (i : Z) (x : A) : option (list A) :=
  if (0 <=? i) && (i <? Z.of_nat (length arr))
  then Some (<[Z.to_nat i := x]> arr) else None.

(** [*p] and [*p = a]. *)
Definition deref (h : list ggml_opencog_atom) (p : atom_ptr)
  : option ggml_opencog_atom :=
  match p with
  | NULL => None
  | Ptr a => h !! a
  end.

Definition store (h : list ggml_opencog_atom) (p : atom_ptr) (x : ggml_opencog_atom)
  : option (list ggml_opencog_atom) :=
  match p with
  | NULL => None
  | Ptr a => if bool_decide (a < length h)%nat then Some (<[a := x]> h) else None
  end.

(** ** AtomSpace *)

(** [calloc] of [capacity] slots (none when the capacity is not
    positive), all null. *)
Definition ggml_opencog_atomspace_init (cap dim : Z) : ggml_opencog_atomspace :=
  {| atoms := replicate (Z.to_nat cap) NULL;
     n_atoms := 0;
     capacity := cap;
     embedding_dim := dim |}.

(** [as->atoms[as->n_atoms] = p; as->n_atoms++;] *)
Definition append_atom (s : ggml_opencog_atomspace) (p : atom_ptr)
  : option ggml_opencog_atomspace :=
  arr ← write (atoms s) (n_atoms s) p;
  Some {| atoms := arr; n_atoms := n_atoms s + 1;
          capacity := capacity s; embedding_dim := embedding_dim s |}.

Definition ggml_opencog_atom_create (m : memory)
    (ty : ggml_opencog_atom_type) (nm : string) (t : ggml_opencog_truth_value)
  : option (atom_ptr * memory) :=
  let s := space m in
  if n_atoms s >=? capacity s then Some (NULL, m)
  else
    let atom := {| type := ty; name := Some nm; tv := t;
                   outgoing := []; n_outgoing := 0 |} in
    let p := Ptr (length (heap m)) in
    s' ← append_atom s p;
    Some (p, {| heap := heap m ++ [atom]; space := s' |}).

(** The copy loop [for (i = 0; i < n_outgoing; i++) link->outgoing[i] =
    outgoing[i]]. *)
Definition copy_outgoing (src : list atom_ptr) (n : Z) : option (list atom_ptr) :=
  if n <=? 0 then Some []
  else if n <=? Z.of_nat (length src) then Some (take (Z.to_nat n) src)
  else None.

Definition ggml_opencog_link_create (m : memory)
    (ty : ggml_opencog_atom_type) (out : list atom_ptr) (n_out : Z)
    (t : ggml_opencog_truth_value)
  : option (atom_ptr * memory) :=
  let s := space m in
  if n_atoms s >=? capacity s then Some (NULL, m)
  else
    copied ← copy_outgoing out n_out;
    let link := {| type := ty; name := None; tv := t;
                   outgoing := copied; n_outgoing := n_out |} in
    let p := Ptr (length (heap m)) in
    s' ← append_atom s p;
    Some (p, {| heap := heap m ++ [link]; space := s' |}).

Definition ggml_opencog_atom_add_link (m : memory) (from to : atom_ptr)
    (link_type : ggml_opencog_atom_type) (t : ggml_opencog_truth_value)
  : option (bool * memory) :=
  '(link, m') ← ggml_opencog_link_create m link_type [from; to] 2 t;
  Some (negb (bool_decide (link = NULL)), m').

(** ** PLN inference rules *)

Definition ggml_opencog_rule_modus_ponens_precondition
    (m : memory) (premises : list atom_ptr) (n_premises : Z) : option bool :=
  if negb (n_premises =? 2) then Some false
  else
    p ← read premises 0;
    implication ← read premises 1;
    imp ← deref (heap m) implication;
    if negb (bool_decide (type imp = OPENCOG_ATOM_IMPLICATION_LINK)) then Some false
    else if negb (n_outgoing imp =? 2) then Some false
    else
      o ← read (outgoing imp) 0;
      Some (bool_decide (o = p)).

(** The truth value modus ponens derives from [P] and [P->Q]. *)
Definition modus_ponens_tv (tv_p tv_imp : ggml_opencog_truth_value)
  : ggml_opencog_truth_value :=
  let strength := F32.mul (strength tv_p) (strength tv_imp) in
  let confidence := F32.mul (confidence tv_p) (confidence tv_imp) in
  let count := F32.fminf (count tv_p) (count tv_imp) in
  ggml_opencog_tv_create strength confidence count.

Definition ggml_opencog_rule_modus_ponens_conclusion
    (m : memory) (premises : list atom_ptr) (n_premises : Z)
  : option (atom_ptr * memory) :=
  ok ← ggml_opencog_rule_modus_ponens_precondition m premises n_premises;
  if negb ok then Some (NULL, m)
  else
    p ← read premises 0;
    implication ← read premises 1;
    imp ← deref (heap m) implication;
    q ← read (outgoing imp) 1;
    pa ← deref (heap m) p;
    let new_tv := modus_ponens_tv (tv pa) (tv imp) in
    qa ← deref (heap m) q;
    h' ← store (heap m) q (set_tv qa (ggml_opencog_tv_or (tv qa) new_tv));
    Some (q, {| heap := h'; space := space m |}).

Definition ggml_opencog_rule_inheritance_precondition
    (m : memory) (premises : list atom_ptr) (n_premises : Z) : option bool :=
  if negb (n_premises =? 2) then Some false
  else
    inh1 ← read premises 0;
    inh2 ← read premises 1;
    l1 ← deref (heap m) inh1;
    if negb (bool_decide (type l1 = OPENCOG_ATOM_INHERITANCE_LINK)) then Some false
    else
      l2 ← deref (heap m) inh2;
      if negb (bool_decide (type l2 = OPENCOG_ATOM_INHERITANCE_LINK)) then Some false
      else if negb (n_outgoing l1 =? 2) || negb (n_outgoing l2 =? 2) then Some false
      else
        b ← read (outgoing l1) 1;
        b' ← read (outgoing l2) 0;
        Some (bool_decide (b = b')).

(** The literal [0.9f]. *)
Definition decay : float := F32.lit 9 10.

(** The truth value of the link derived from [A->B] and [B->C]. *)
Definition inheritance_tv (tv1 tv2 : ggml_opencog_truth_value)
  : ggml_opencog_truth_value :=
  let strength := F32.mul (strength tv1) (strength tv2) in
  let confidence := F32.mul (F32.mul (confidence tv1) (confidence tv2)) decay in
  let count := F32.fminf (count tv1) (count tv2) in
  ggml_opencog_tv_create strength confidence count.

Definition ggml_opencog_rule_inheritance_conclusion
    (m : memory) (premises : list atom_ptr) (n_premises : Z)
  : option (atom_ptr * memory) :=
  ok ← ggml_opencog_rule_inheritance_precondition m premises n_premises;
  if negb ok then Some (NULL, m)
  else
    inh1 ← read premises 0;
    inh2 ← read premises 1;
    l1 ← deref (heap m) inh1;
    l2 ← deref (heap m) inh2;
    a ← read (outgoing l1) 0;
    c ← read (outgoing l2) 1;
    let new_tv := inheritance_tv (tv l1) (tv l2) in
    ggml_opencog_link_create m OPENCOG_ATOM_INHERITANCE_LINK [a; c] 2 new_tv.

(** ** Unified Rule Engine *)

(** [struct ggml_opencog_inference_rule]: the two function pointers take
    the AtomSpace (here: the memory it lives in), the premise array and its
    length.  A conclusion may write to memory; a precondition is a test
    that only reads it, as the two of the source do. *)
Record ggml_opencog_inference_rule : Type := mk_rule {
  rule_name : string;
  precondition : memory -> list atom_ptr -> Z -> option bool;
  conclusion : memory -> list atom_ptr -> Z -> option (atom_ptr * memory);
  confidence_boost : float
}.

(** [struct ggml_opencog_ure]; [n_rules] is the length of [rules], and the
    AtomSpace it points to is the one of the memory passed along. *)
Record ggml_opencog_ure : Type := mk_ure {
  rules : list ggml_opencog_inference_rule;
  max_iterations : Z;
  min_confidence : float
}.

Definition ggml_opencog_ure_init (max_iter : Z) (min_conf : float)
  : ggml_opencog_ure :=
  {| rules := []; max_iterations := max_iter; min_confidence := min_conf |}.

Definition ggml_opencog_ure_add_rule (ure : ggml_opencog_ure)
    (rule : ggml_opencog_inference_rule) : ggml_opencog_ure :=
  {| rules := rules ure ++ [rule]; max_iterations := max_iterations ure;
     min_confidence := min_confidence ure |}.

(** The outcome of a piece of the chaining loop: it falls through with a
    value ([Next]), executes [return n] ([Stop], with the memory at that
    point), hits undefined behaviour ([Crash]), or the evaluator runs out
    of fuel ([Starve]). *)
Inductive flow (A : Type) : Type :=
  | Next (a : A)
  | Stop (n : Z) (m : memory)
  | Crash
  | Starve.

Arguments Next {A} a.
Arguments Stop {A} n m.
Arguments Crash {A}.
Arguments Starve {A}.

#[global] Instance flow_ret : MRet flow := fun A a => Next a.

#[global] Instance flow_bind : MBind flow := fun A B k x =>
  match x with
  | Next a => k a
  | Stop n m => Stop n m
  | Crash => Crash
  | Starve => Starve
  end.

Definition lift {A : Type} (o : option A) : flow A :=
  match o with
  | Some a => Next a
  | None => Crash
  end.

(** The range of a C [int] (32 bits). *)
Definition INT_MIN : Z := -2147483648.
Definition INT_MAX : Z := 2147483647.

(** The [int] that holds the mathematical result [z]: [z] itself when it
    is in range, and its 32-bit two's-complement residue otherwise. *)
Definition int_wrap (z : Z) : Z := (z - INT_MIN) mod 4294967296 + INT_MIN.

(** [n++] on an [int]. *)
Definition int_succ (n : Z) : Z := int_wrap (n + 1).

(** The variables of [ggml_opencog_ure_forward_chain] that are live in the
    loop nest, with the memory; [inferences_made] is an [int]. *)
Record chain_state : Type := mk_chain {
  mem : memory;
  made_inference : bool;
  inferences_made : Z
}.

(** The body of the innermost loop, for the pair [(i, j)]. *)
Definition ure_try_pair (ure : ggml_opencog_ure)
    (rule : ggml_opencog_inference_rule) (target : atom_ptr)
    (i j : Z) (st : chain_state) : flow chain_state :=
  let m := mem st in
  pi ← lift (read (atoms (space m)) i);
  pj ← lift (read (atoms (space m)) j);
  let premises := [pi; pj] in
  ok ← lift (precondition rule m premises 2);
  if negb ok then Next st
  else
    '(concl, m') ← lift (conclusion rule m premises 2);
    if bool_decide (concl = NULL)
    then Next {| mem := m'; made_inference := made_inference st;
                 inferences_made := inferences_made st |}
    else
      ca ← lift (deref (heap m') concl);
      if negb (F32.geb (confidence (tv ca)) (min_confidence ure))
      then Next {| mem := m'; made_inference := made_inference st;
                   inferences_made := inferences_made st |}
      else
        let n := int_succ (inferences_made st) in
        if bool_decide (concl = target) then Stop n m'
        else Next {| mem := m'; made_inference := true; inferences_made := n |}.

(** [for (j = ...; j < n_atoms; j++)], entered at [j]. *)
Fixpoint ure_pair_loop (fuel : nat) (ure : ggml_opencog_ure)
    (rule : ggml_opencog_inference_rule) (target : atom_ptr)
    (i j : Z) (st : chain_state) : flow chain_state :=
  match fuel with
  | O => Starve
  | S fuel' =>
      if j <? n_atoms (space (mem st)) then
        st' ← ure_try_pair ure rule target i j st;
        ure_pair_loop fuel' ure rule target i (j + 1) st'
      else Next st
  end.

(** [for (i = ...; i < n_atoms; i++)], entered at [i]; every inner loop
    gets [scan] units of fuel. *)
Fixpoint ure_atom_loop (scan fuel : nat) (ure : ggml_opencog_ure)
    (rule : ggml_opencog_inference_rule) (target : atom_ptr)
    (i : Z) (st : chain_state) : flow chain_state :=
  match fuel with
  | O => Starve
  | S fuel' =>
      if i <? n_atoms (space (mem st)) then
        st' ← ure_pair_loop scan ure rule target i (i + 1) st;
        ure_atom_loop scan fuel' ure rule target (i + 1) st'
      else Next st
  end.

(** [for (rule_idx = ...; rule_idx < n_rules; rule_idx++)], over the rules
    that are left. *)
Fixpoint ure_rule_loop (scan : nat) (ure : ggml_opencog_ure) (target : atom_ptr)
    (todo : list ggml_opencog_inference_rule) (st : chain_state)
  : flow chain_state :=
  match todo with
  | [] => Next st
  | rule :: todo' =>
      st' ← ure_atom_loop scan scan ure rule target 0 st;
      ure_rule_loop scan ure target todo' st'
  end.

(** [for (iter = ...; iter < max_iterations; iter++)], entered at [iter];
    one unit of [passes] per test of the loop condition. *)
Fixpoint ure_iter_loop (passes scan : nat) (ure : ggml_opencog_ure)
    (target : atom_ptr) (iter : Z) (m : memory) (made : Z)
  : flow (Z * memory) :=
  match passes with
  | O => Starve
  | S passes' =>
      if iter <? max_iterations ure then
        st ← ure_rule_loop scan ure target (rules ure)
               {| mem := m; made_inference := false; inferences_made := made |};
        if negb (made_inference st) then Next (inferences_made st, mem st)
        else ure_iter_loop passes' scan ure target (iter + 1) (mem st)
                           (inferences_made st)
      else Next (made, m)
  end.

(** What the caller sees of the function body: the value of whichever
    [return] was executed, with the memory as it is at that point. *)
Definition returned (r : flow (Z * memory)) : flow (Z * memory) :=
  match r with
  | Stop n m => Next (n, m)
  | _ => r
  end.

Definition ggml_opencog_ure_forward_chain (passes scan : nat)
    (ure : ggml_opencog_ure) (target : atom_ptr) (m : memory)
  : flow (Z * memory) :=
  returned (ure_iter_loop passes scan ure target 0 m 0).

Definition ggml_opencog_ure_backward_chain (passes scan : nat)
    (ure : ggml_opencog_ure) (query : atom_ptr) (m : memory)
  : flow (Z * memory) :=
  ggml_opencog_ure_forward_chain passes scan ure query m.

Definition ggml_opencog_inference_step (passes scan : nat)
    (ure : ggml_opencog_ure) (m : memory) : flow (Z * memory) :=
  ggml_opencog_ure_forward_chain passes scan ure NULL m.

(** The two rules of the source as rule records. *)
Definition modus_ponens_rule : ggml_opencog_inference_rule :=
  {| rule_name := "Modus Ponens";
     precondition := ggml_opencog_rule_modus_ponens_precondition;
     conclusion := ggml_opencog_rule_modus_ponens_conclusion;
     confidence_boost := F32.lit 1 10 |}.

Definition inheritance_rule : ggml_opencog_inference_rule :=
  {| rule_name := "Inheritance Transitivity";
     precondition := ggml_opencog_rule_inheritance_precondition;
     conclusion := ggml_opencog_rule_inheritance_conclusion;
     confidence_boost := F32.lit 1 10 |}.

(** ** Name lookup and pattern query *)

(** [a->name && strcmp(a->name, nm) == 0] *)
Definition name_is (nm : string) (a : ggml_opencog_atom) : bool :=
  match name a with
  | Some s => String.eqb s nm
  | None => false
  end.

(** The scan of [ggml_opencog_atom_get], entered at index [i] with [todo]
    iterations left ([n_atoms] is not written in the loop). *)
Fixpoint atom_get_from (m : memory) (nm : string) (i : Z) (todo : nat)
  : option atom_ptr :=
  match todo with
  | O => Some NULL
  | S todo' =>
      p ← read (atoms (space m)) i;
      a ← deref (heap m) p;
      if name_is nm a then Some p
      else atom_get_from m nm (i + 1) todo'
  end.

Definition ggml_opencog_atom_get (m : memory) (nm : string) : option atom_ptr :=
  atom_get_from m nm 0 (Z.to_nat (n_atoms (space m))).

(** [0.5f], the fixed confidence threshold of [ggml_opencog_query]. *)
Definition query_threshold : float := F32.lit 1 2.

(** [atom->type == pattern->type && atom->tv.confidence >= 0.5f] *)
Definition query_match (pattern a : ggml_opencog_atom) : bool :=
  bool_decide (type a = type pattern)
  && F32.geb (confidence (tv a)) query_threshold.

(** The scan of [ggml_opencog_query], entered at index [i] with [todo]
    iterations left and the vector [results] collected so far.  The
    callers pass the address of a local struct, so [pattern] is the
    struct that the pointer refers to, and [None] for a null pointer; it
    is dereferenced in the loop body only. *)
Fixpoint query_from (m : memory) (pattern : option ggml_opencog_atom) (i : Z)
    (todo : nat) (results : list atom_ptr) : option (list atom_ptr) :=
  match todo with
  | O => Some results
  | S todo' =>
      p ← read (atoms (space m)) i;
      a ← deref (heap m) p;
      pat ← pattern;
      query_from m pattern (i + 1) todo'
        (if query_match pat a then results ++ [p] else results)
  end.

(** An array from a vector of results: [nullptr] for the empty one. *)
Definition result_array (results : list atom_ptr) : option (list atom_ptr) :=
  if bool_decide (results = []) then None else Some results.

(** The vector [results] when the loop of [ggml_opencog_query] is left. *)
Definition query_results (m : memory) (pattern : option ggml_opencog_atom)
  : option (list atom_ptr) :=
  query_from m pattern 0 (Z.to_nat (n_atoms (space m))) [].

(** [ggml_opencog_query]: the returned array ([None] for [nullptr]) and
    the value stored in [*n_results]. *)
Definition ggml_opencog_query (m : memory) (pattern : option ggml_opencog_atom)
  : option (option (list atom_ptr) * Z) :=
  results ← query_results m pattern;
  Some (result_array results, Z.of_nat (length results)).

(** The atom behind [p] matches the pattern. *)
Definition matches (m : memory) (pattern : ggml_opencog_atom) (p : atom_ptr)
  : bool :=
  from_option (query_match pattern) false (deref (heap m) p).

(** The filled slots of the atom array. *)
Definition filled (m : memory) : list atom_ptr :=
  take (Z.to_nat (n_atoms (space m))) (atoms (space m)).


(** The link that the transitivity rule builds from [A->B] and [B->C]. *)
Definition derived_link (l1 l2 : ggml_opencog_atom) (a c : atom_ptr)
  : ggml_opencog_atom :=
  {| type := OPENCOG_ATOM_INHERITANCE_LINK; name := None;
     tv := inheritance_tv (tv l1) (tv l2); outgoing := [a; c]; n_outgoing := 2 |}.

(** ** Creation requests *)

Inductive creation : Type :=
  | Create_atom (ty : ggml_opencog_atom_type) (nm : string)
                (t : ggml_opencog_truth_value)
  | Create_link (ty : ggml_opencog_atom_type) (out : list atom_ptr) (n_out : Z)
                (t : ggml_opencog_truth_value).

Definition create (m : memory) (c : creation) : option (atom_ptr * memory) :=
  match c with
  | Create_atom ty nm t => ggml_opencog_atom_create m ty nm t
  | Create_link ty out n_out t => ggml_opencog_link_create m ty out n_out t
  end.

(** The outgoing array of a link request holds the [n_out] pointers that
    the copy loop reads. *)
Definition creation_ok (c : creation) : bool :=
  match c with
  | Create_atom _ _ _ => true
  | Create_link _ out n_out _ => n_out <=? Z.of_nat (length out)
  end.

Fixpoint create_all (m : memory) (cs : list creation) : option memory :=
  match cs with
  | [] => Some m
  | c :: cs' => '(_, m') ← create m c; create_all m' cs'
  end.

(** A fresh space of the given capacity, next to a heap of atoms that
    exist already. *)
Definition fresh_memory (h : list ggml_opencog_atom) (cap dim : Z) : memory :=
  {| heap := h; space := ggml_opencog_atomspace_init cap dim |}.

(** The array has [capacity] slots and the count is inside it. *)
Definition space_ok (s : ggml_opencog_atomspace) : Prop :=
  0 <= n_atoms s <= capacity s /\ Z.of_nat (length (atoms s)) = capacity s.

(** ** Well-formed memories *)

(** [p] points to an atom of the heap. *)
Definition ptr_ok (h : list ggml_opencog_atom) (p : atom_ptr) : Prop :=
  is_Some (deref h p).

(** The outgoing array of [x] has the [n_outgoing] entries it announces,
    all pointing into the heap. *)
Definition atom_ok (h : list ggml_opencog_atom) (x : ggml_opencog_atom) : Prop :=
  n_outgoing x <= Z.of_nat (length (outgoing x)) /\ Forall (ptr_ok h) (outgoing x).

(** The count is inside the atom array, the array has a slot for every
    atom that the capacity admits, the filled slots and all outgoing
    references point to atoms that exist. *)
Definition mem_wf (m : memory) : Prop :=
  0 <= n_atoms (space m) <= Z.of_nat (length (atoms (space m)))
  /\ capacity (space m) <= Z.of_nat (length (atoms (space m)))
  /\ Forall (ptr_ok (heap m)) (take (Z.to_nat (n_atoms (space m))) (atoms (space m)))
  /\ Forall (atom_ok (heap m)) (heap m).

#[global] Instance ptr_ok_dec h p : Decision (ptr_ok h p).
Proof. unfold ptr_ok. apply _. Defined.

#[global] Instance atom_ok_dec h x : Decision (atom_ok h x).
Proof. unfold atom_ok. apply _. Defined.

#[global] Instance mem_wf_dec m : Decision (mem_wf m).
Proof. unfold mem_wf. apply _. Defined.

(** The largest count a run can return: each pass tries fewer than
    [bound * bound] pairs for each rule. *)
Definition most_inferences (ure : ggml_opencog_ure) (bound : nat) : Z :=
  Z.max 0 (max_iterations ure)
  * (Z.of_nat (length (rules ure)) * (Z.of_nat bound * Z.of_nat bound)).


(** Well formed, with an atom array of [bound] slots. *)
Definition well_formed_within (bound : nat) (m : memory) : Prop :=
  mem_wf m /\ length (atoms (space m)) = bound.

(** How far a binary32 result may be from the decimal the specification
    prints for it. *)
Definition tolerance : Q := 1 # 10000000.

(** ** Sample truth values and knowledge bases *)

Definition tv_a : ggml_opencog_truth_value :=
  mk_tv (F32.lit 8 10) (F32.lit 9 10) (F32.of_Z 5).
Definition tv_b : ggml_opencog_truth_value :=
  mk_tv (F32.lit 6 10) (F32.lit 7 10) (F32.of_Z 3).
Definition tv_half : ggml_opencog_truth_value :=
  mk_tv (F32.lit 1 2) (F32.lit 1 2) (F32.of_Z 1).

Definition tv_high : ggml_opencog_truth_value :=
  ggml_opencog_tv_create (F32.lit 9 10) (F32.lit 8 10) (F32.of_Z 10).
Definition tv_weak : ggml_opencog_truth_value :=
  ggml_opencog_tv_create (F32.lit 9 10) (F32.lit 1 10) (F32.of_Z 1).

(** Concepts P, Q, R, S with the implications P->Q and R->S, in a space of
    8 slots; [tp] is the truth value of P. *)
Definition implication_requests (tp : ggml_opencog_truth_value) : list creation :=
  [ Create_atom OPENCOG_ATOM_CONCEPT_NODE "P" tp;
    Create_atom OPENCOG_ATOM_CONCEPT_NODE "Q" tv_high;
    Create_link OPENCOG_ATOM_IMPLICATION_LINK [Ptr 0; Ptr 1] 2 tv_high;
    Create_atom OPENCOG_ATOM_CONCEPT_NODE "R" tv_high;
    Create_atom OPENCOG_ATOM_CONCEPT_NODE "S" tv_high;
    Create_link OPENCOG_ATOM_IMPLICATION_LINK [Ptr 3; Ptr 4] 2 tv_high ].

Definition built (cap : Z) (cs : list creation) : memory :=
  default (fresh_memory [] cap 32) (create_all (fresh_memory [] cap 32) cs).

Definition implication_memory (tp : ggml_opencog_truth_value) : memory :=
  built 8 (implication_requests tp).

(** Concepts A, B, C with the links A->B and B->C of truth value [t], in a
    space of [cap] slots. *)
Definition inheritance_requests (t : ggml_opencog_truth_value) : list creation :=
  [ Create_atom OPENCOG_ATOM_CONCEPT_NODE "A" tv_high;
    Create_atom OPENCOG_ATOM_CONCEPT_NODE "B" tv_high;
    Create_atom OPENCOG_ATOM_CONCEPT_NODE "C" tv_high;
    Create_link OPENCOG_ATOM_INHERITANCE_LINK [Ptr 0; Ptr 1] 2 t;
    Create_link OPENCOG_ATOM_INHERITANCE_LINK [Ptr 1; Ptr 2] 2 t ].

Definition inheritance_memory (cap : Z) (t : ggml_opencog_truth_value) : memory :=
  built cap (inheritance_requests t).

Definition threshold : float := F32.lit 1 2.

Definition modus_ponens_engine : ggml_opencog_ure :=
  ggml_opencog_ure_add_rule (ggml_opencog_ure_init 3 threshold) modus_ponens_rule.

Definition both_rules_engine : ggml_opencog_ure :=
  ggml_opencog_ure_add_rule
    (ggml_opencog_ure_add_rule (ggml_opencog_ure_init 5 threshold) modus_ponens_rule)
    inheritance_rule.

(** The memory and the atom that a conclusion call leaves behind. *)
Definition memory_after (rule : ggml_opencog_inference_rule) (m : memory)
    (premises : list atom_ptr) : memory :=
  from_option snd m (conclusion rule m premises 2).

Definition concluded (rule : ggml_opencog_inference_rule) (m : memory)
    (premises : list atom_ptr) : atom_ptr :=
  from_option fst NULL (conclusion rule m premises 2).

Definition atom_at (m : memory) (p : atom_ptr) : ggml_opencog_atom :=
  default (mk_atom OPENCOG_ATOM_CONCEPT_NODE None tv_high [] 0) (deref (heap m) p).

(** The truth value (1, 1, 1), and P, Q with two links P->Q, all of that
    truth value, in a space of 4 slots: every pass of modus ponens accepts
    two inferences and leaves the memory as it is. *)
Definition tv_sure : ggml_opencog_truth_value := mk_tv F32.one F32.one F32.one.




(** A truth value of strength 2, which [ggml_opencog_atom_create] stores
    as it is given, and P, Q of that value with P->Q of (1, 1, 1). *)
Definition tv_raw : ggml_opencog_truth_value :=
  mk_tv (F32.of_Z 2) F32.one F32.one.

Definition unclamped_requests : list creation :=
  [ Create_atom OPENCOG_ATOM_CONCEPT_NODE "P" tv_raw;
    Create_atom OPENCOG_ATOM_CONCEPT_NODE "Q" tv_raw;
    Create_link OPENCOG_ATOM_IMPLICATION_LINK [Ptr 0; Ptr 1] 2 tv_sure ].

Definition unclamped_memory : memory := built 4 unclamped_requests.

(** ** Predicates on the rounding machinery *)

(** After [n] right shifts of [M] the record holds the quotient, and both
    the round and the sticky bit are clear when nothing was shifted out. *)
Definition shr_inv (M n : Z) (r : shr_record) : Prop :=
  shr_m r = M / 2 ^ n /\ (M mod 2 ^ n = 0 -> shr_r r = false /\ shr_s r = false).

(** Zero, or a positive float that is at most 1 in value. *)
Definition small (x : float) : Prop :=
  match x with
  | S754_zero _ => True
  | S754_finite false m e => e <= -23 /\ Zpos m <= 2 ^ (- e)
  | _ => False
  end.

(** ** Auxiliary notions for creation, lookup and chaining *)

(** The atom in slot [i] of the space. *)
Definition slot (m : memory) (i : Z) : option ggml_opencog_atom :=
  p ← read (atoms (space m)) i; deref (heap m) p.

(** The first [n_out] outgoing pointers of a link request are live. *)
Definition request_ok (h : list ggml_opencog_atom) (c : creation) : Prop :=
  match c with
  | Create_atom _ _ _ => True
  | Create_link _ out n_out _ =>
      n_out <= Z.of_nat (length out)
      /\ Forall (ptr_ok h) (take (Z.to_nat n_out) out)
  end.

#[global] Instance request_ok_dec h c : Decision (request_ok h c).
Proof. destruct c; simpl; apply _. Defined.

(** The atom a request asks for. *)
Definition requested (c : creation) (x : ggml_opencog_atom) : Prop :=
  match c with
  | Create_atom ty nm t =>
      x = {| type := ty; name := Some nm; tv := t; outgoing := []; n_outgoing := 0 |}
  | Create_link ty out n_out t =>
      type x = ty /\ name x = None /\ tv x = t /\ n_outgoing x = n_out
      /\ copy_outgoing out n_out = Some (outgoing x)
  end.

(** The request creates a node of the given name. *)
Definition names (c : creation) (nm : string) : bool :=
  match c with
  | Create_atom _ s _ => String.eqb s nm
  | Create_link _ _ _ _ => false
  end.

(** The memory and the pointer that a creation call leaves behind. *)
Definition memory_created (m : memory) (c : creation) : memory :=
  from_option snd m (create m c).

Definition created (m : memory) (c : creation) : atom_ptr :=
  from_option fst NULL (create m c).

(** The count [n] is an [int], and it lies between [lo] and [hi] when
    [hi] is an [int] too, that is, when no increment on the way to [hi]
    can have overflowed. *)
Definition counted (lo hi n : Z) : Prop :=
  INT_MIN <= n <= INT_MAX /\ (hi <= INT_MAX -> lo <= n <= hi).

(** A piece of the chaining loop that came to an end, by falling through
    or by [return], on a memory that satisfies [good] and with a count
    that is [counted] between [lo] and [hi]. *)
Definition settled (good : memory -> Prop) (lo hi : Z) (r : flow chain_state)
  : Prop :=
  match r with
  | Next st => good (mem st) /\ counted lo hi (inferences_made st)
  | Stop n m => good m /\ counted lo hi n
  | Crash | Starve => False
  end.

Definition settled_run (good : memory -> Prop) (lo hi : Z)
    (r : flow (Z * memory)) : Prop :=
  match r with
  | Next (n, m) => good m /\ counted lo hi n
  | Stop n m => good m /\ counted lo hi n
  | Crash | Starve => False
  end.

(** ** The calls of the loop body in a run *)

(** [pair_visits ure rule target i fuel j st j' st']: the pair loop of
    row [i], entered at [j] in state [st] with [fuel], calls the loop body
    for the pair [(i, j')] in state [st']. *)
Inductive pair_visits (ure : ggml_opencog_ure) (rule : ggml_opencog_inference_rule)
    (target : atom_ptr) (i : Z)
  : nat -> Z -> chain_state -> Z -> chain_state -> Prop :=
  | pair_visits_here (fuel : nat) (j : Z) (st : chain_state) :
      j < n_atoms (space (mem st)) ->
      pair_visits ure rule target i (S fuel) j st j st
  | pair_visits_later (fuel : nat) (j : Z) (st st1 : chain_state)
        (j' : Z) (st' : chain_state) :
      j < n_atoms (space (mem st)) ->
      ure_try_pair ure rule target i j st = Next st1 ->
      pair_visits ure rule target i fuel (j + 1) st1 j' st' ->
      pair_visits ure rule target i (S fuel) j st j' st'.

(** The atom loop entered at [i] calls the body for [(i', j')] in [st']. *)
Inductive atom_visits (ure : ggml_opencog_ure) (rule : ggml_opencog_inference_rule)
    (target : atom_ptr) (scan : nat)
  : nat -> Z -> chain_state -> Z -> Z -> chain_state -> Prop :=
  | atom_visits_row (fuel : nat) (i : Z) (st : chain_state)
        (j' : Z) (st' : chain_state) :
      i < n_atoms (space (mem st)) ->
      pair_visits ure rule target i scan (i + 1) st j' st' ->
      atom_visits ure rule target scan (S fuel) i st i j' st'
  | atom_visits_later (fuel : nat) (i : Z) (st st1 : chain_state)
        (i' j' : Z) (st' : chain_state) :
      i < n_atoms (space (mem st)) ->
      ure_pair_loop scan ure rule target i (i + 1) st = Next st1 ->
      atom_visits ure rule target scan fuel (i + 1) st1 i' j' st' ->
      atom_visits ure rule target scan (S fuel) i st i' j' st'.

(** The rule loop over [todo] calls the body of [rule'] for [(i, j)]. *)
Inductive rule_visits (ure : ggml_opencog_ure) (target : atom_ptr) (scan : nat)
  : list ggml_opencog_inference_rule -> chain_state ->
    ggml_opencog_inference_rule -> Z -> Z -> chain_state -> Prop :=
  | rule_visits_first (rule : ggml_opencog_inference_rule)
        (todo : list ggml_opencog_inference_rule) (st : chain_state)
        (i j : Z) (st' : chain_state) :
      atom_visits ure rule target scan scan 0 st i j st' ->
      rule_visits ure target scan (rule :: todo) st rule i j st'
  | rule_visits_later (rule : ggml_opencog_inference_rule)
        (todo : list ggml_opencog_inference_rule) (st st1 : chain_state)
        (rule' : ggml_opencog_inference_rule) (i j : Z) (st' : chain_state) :
      ure_atom_loop scan scan ure rule target 0 st = Next st1 ->
      rule_visits ure target scan todo st1 rule' i j st' ->
      rule_visits ure target scan (rule :: todo) st rule' i j st'.

(** The outer loop, entered at [iter] with memory [m] and count [made],
    calls the body of [rule] for [(i, j)] in state [st']: in this pass, or
    in a later one after a pass that made an inference. *)
Inductive iter_visits (ure : ggml_opencog_ure) (target : atom_ptr) (scan : nat)
  : nat -> Z -> memory -> Z ->
    ggml_opencog_inference_rule -> Z -> Z -> chain_state -> Prop :=
  | iter_visits_pass (passes : nat) (iter : Z) (m : memory) (made : Z)
        (rule : ggml_opencog_inference_rule) (i j : Z) (st' : chain_state) :
      iter < max_iterations ure ->
      rule_visits ure target scan (rules ure)
        {| mem := m; made_inference := false; inferences_made := made |}
        rule i j st' ->
      iter_visits ure target scan (S passes) iter m made rule i j st'
  | iter_visits_later (passes : nat) (iter : Z) (m : memory) (made : Z)
        (st1 : chain_state)
        (rule : ggml_opencog_inference_rule) (i j : Z) (st' : chain_state) :
      iter < max_iterations ure ->
      ure_rule_loop scan ure target (rules ure)
        {| mem := m; made_inference := false; inferences_made := made |}
        = Next st1 ->
      made_inference st1 = true ->
      iter_visits ure target scan passes (iter + 1) (mem st1) (inferences_made st1)
        rule i j st' ->
      iter_visits ure target scan (S passes) iter m made rule i j st'.

(** A run of [ggml_opencog_ure_forward_chain] on [m] calls
    [rule->precondition] (and, if it holds, [rule->conclusion]) for the
    pair [(i, j)] in state [st]. *)
Definition chain_visits (passes scan : nat) (ure : ggml_opencog_ure)
    (target : atom_ptr) (m : memory)
    (rule : ggml_opencog_inference_rule) (i j : Z) (st : chain_state) : Prop :=
  iter_visits ure target scan passes 0 m 0 rule i j st.

(** [x'] is [x] up to its truth value. *)
Definition same_shape (x x' : ggml_opencog_atom) : Prop :=
  type x' = type x /\ name x' = name x
  /\ outgoing x' = outgoing x /\ n_outgoing x' = n_outgoing x.

(** [m'] extends [m]: the capacity is the same; the atoms of [m] are still
    there, in the same slots and at the same addresses, up to their truth
    values; and the slots filled since hold nameless inheritance links. *)
Definition extends (m m' : memory) : Prop :=
  capacity (space m') = capacity (space m)
  /\ n_atoms (space m) <= n_atoms (space m')
  /\ (forall i, 0 <= i < n_atoms (space m) ->
        read (atoms (space m')) i = read (atoms (space m)) i)
  /\ (forall p x, deref (heap m) p = Some x ->
        exists x', deref (heap m') p = Some x' /\ same_shape x x')
  /\ (forall i x, 0 <= i -> n_atoms (space m) <= i < n_atoms (space m') ->
        slot m' i = Some x ->
        type x = OPENCOG_ATOM_INHERITANCE_LINK /\ name x = None).

(** The memories that a run from [m0] goes through: well formed, with the
    atom array of [m0], and extending [m0]. *)
Definition reached (m0 m : memory) : Prop :=
  well_formed_within (length (atoms (space m0))) m /\ extends m0 m.

(** * Properties *)

(** ** Comparison and clamping facts *)

Lemma SFcompare_swap (x y : float) :
  SFcompare y x = CompOpp <$> SFcompare x y.
Proof.
  assert (P : forall m m', Pos.compare_cont Eq m' m = CompOpp (Pos.compare_cont Eq m m')).
  { intros m m'. rewrite (Pos.compare_cont_antisym m m' Eq). reflexivity. }
  destruct x as [[]|[]| |[] m e], y as [[]|[]| |[] m' e']; simpl; try reflexivity;
    rewrite (Z.compare_antisym e e'), (P m m');
    destruct (e ?= e'); simpl; try reflexivity;
    destruct (Pos.compare_cont Eq m m'); reflexivity.
Qed.

Lemma SFcompare_refl (x : float) :
  F32.is_nan x = false -> SFcompare x x = Some Eq.
Proof.
  destruct x as [[]|[]| |[] m e]; simpl; try reflexivity; try discriminate;
    intros _; rewrite Z.compare_refl;
    change (Pos.compare_cont Eq m m) with (Pos.compare m m);
    rewrite Pos.compare_refl; reflexivity.
Qed.

(** Floats that compare equal are the same, up to the sign of zero. *)
Lemma SFcompare_Eq (x y : float) :
  SFcompare x y = Some Eq ->
  x = y \/ exists s s', x = S754_zero s /\ y = S754_zero s'.
Proof.
  destruct x as [[]|[]| |[] m e], y as [[]|[]| |[] m' e']; simpl;
    try discriminate; try (left; reflexivity); try (right; eauto; fail);
    destruct (e ?= e') eqn:He; try discriminate;
    apply Z.compare_eq in He; subst e';
    destruct (Pos.compare_cont Eq m m') eqn:Hm; try discriminate;
    apply (Pos.compare_eq m m') in Hm; subst m'; auto.
Qed.

Lemma leb_swap_lt (x y : float) : F32.ltb x y = true -> F32.leb y x = false.
Proof.
  unfold F32.ltb, F32.leb, SFltb, SFleb. rewrite (SFcompare_swap x y).
  destruct (SFcompare x y) as [[]|]; simpl; congruence.
Qed.





(** On a value already in range the clamps change nothing that [==] sees. *)
Lemma clamp_unit_id (x : float) :
  F32.in_unit x = true ->
  F32.eqb (F32.fmaxf F32.zero (F32.fminf F32.one x)) x = true.
Proof.
  unfold F32.in_unit, F32.leb, F32.eqb, SFleb, SFeqb. intros H.
  apply andb_prop in H as [H0 H1].
  unfold F32.fminf. rewrite (SFcompare_swap x F32.one).
  destruct (SFcompare x F32.one) as [c|] eqn:Hc; [|discriminate]. simpl.
  destruct c; try discriminate; simpl.
  - apply SFcompare_Eq in Hc as [->|(s & s' & -> & Hone)]; [reflexivity|discriminate].
  - unfold F32.fmaxf.
    destruct (SFcompare F32.zero x) as [c|] eqn:Hz; [|discriminate].
    destruct c; try discriminate.
    + rewrite Hz. reflexivity.
    + rewrite SFcompare_refl; [reflexivity|]. destruct x; try discriminate; reflexivity.
Qed.

Lemma clamp_nonneg_id (x : float) :
  F32.nonneg x = true -> F32.eqb (F32.fmaxf F32.zero x) x = true.
Proof.
  unfold F32.nonneg, F32.leb, F32.eqb, SFleb, SFeqb, F32.fmaxf. intros H.
  destruct (SFcompare F32.zero x) as [c|] eqn:Hz; [|discriminate].
  destruct c; try discriminate.
  - rewrite Hz. reflexivity.
  - rewrite SFcompare_refl; [reflexivity|]. destruct x; try discriminate; reflexivity.
Qed.

Lemma fminf_diag (x : float) : F32.fminf x x = x.
Proof.
  unfold F32.fminf. destruct (SFcompare x x) as [[]|] eqn:H; try reflexivity.
  destruct (F32.is_nan x); reflexivity.
Qed.

Lemma fmaxf_diag (x : float) : F32.fmaxf x x = x.
Proof.
  unfold F32.fmaxf. destruct (SFcompare x x) as [[]|] eqn:H; try reflexivity.
  destruct (F32.is_nan x); reflexivity.
Qed.

(** ** Products of values in [0, 1] *)

#[local] Arguments Pos.compare_cont : simpl never.
#[local] Arguments Z.pow : simpl never.

Lemma digits2_pos_bounds (m : positive) :
  2 ^ (Zpos (digits2_pos m) - 1) <= Zpos m < 2 ^ Zpos (digits2_pos m).
Proof.
  induction m as [p IH|p IH|]; simpl digits2_pos; [| |simpl; lia];
    rewrite Pos2Z.inj_succ;
    replace (Z.succ (Z.pos (digits2_pos p)) - 1)
      with (Z.succ (Z.pos (digits2_pos p) - 1)) by lia;
    rewrite !Z.pow_succ_r by lia; lia.
Qed.

Lemma shr_1_inv (M n : Z) (r : shr_record) :
  0 <= M -> 0 <= n -> shr_inv M n r -> shr_inv M (n + 1) (shr_1 r).
Proof.
  intros HM Hn [Hq Hex].
  assert (H2n : 0 < 2 ^ n) by (apply Z.pow_pos_nonneg; lia).
  assert (Hdiv : M / 2 ^ (n + 1) = M / 2 ^ n / 2).
  { rewrite Z.pow_add_r, Z.pow_1_r by lia. rewrite Z.div_div by lia. reflexivity. }
  assert (Hmod : M mod 2 ^ (n + 1) = 0 -> M mod 2 ^ n = 0 /\ (M / 2 ^ n) mod 2 = 0).
  { intros H0. rewrite Z.pow_add_r, Z.pow_1_r in H0 by lia.
    rewrite Z.rem_mul_r in H0 by lia.
    assert (0 <= M mod 2 ^ n < 2 ^ n) by (apply Z.mod_pos_bound; lia).
    assert (0 <= (M / 2 ^ n) mod 2 < 2) by (apply Z.mod_pos_bound; lia).
    nia. }
  destruct r as [m r s]. simpl in Hq, Hex. split.
  - rewrite Hdiv, <- Hq.
    destruct m as [|[p|p|]|[p|p|]]; simpl; try reflexivity.
    + rewrite Pos2Z.inj_xI. apply Z.div_unique with (r := 1); lia.
    + rewrite Pos2Z.inj_xO. apply Z.div_unique with (r := 0); lia.
    + assert (0 <= M / 2 ^ n) by (apply Z.div_pos; lia). lia.
    + assert (0 <= M / 2 ^ n) by (apply Z.div_pos; lia). lia.
    + assert (0 <= M / 2 ^ n) by (apply Z.div_pos; lia). lia.
  - intros H0. apply Hmod in H0 as [H1 H2]. apply Hex in H1 as [-> ->].
    rewrite <- Hq in H2.
    assert (0 <= M / 2 ^ n) by (apply Z.div_pos; lia).
    destruct m as [|[p|p|]|[p|p|]]; simpl; auto; try lia.
    + rewrite Pos2Z.inj_xI in H2. rewrite Z.add_comm, Z.mul_comm, Z.mod_add in H2 by lia.
      discriminate H2.
    + discriminate H2.
Qed.

Lemma iter_shr_1_inv (M : Z) (p : positive) :
  0 <= M ->
  forall (n : Z) (r : shr_record),
    0 <= n -> shr_inv M n r -> shr_inv M (n + Zpos p) (SpecFloat.iter_pos shr_1 p r).
Proof.
  intros HM. induction p as [p IH|p IH|]; intros n r Hn Hr; simpl SpecFloat.iter_pos.
  - replace (n + Z.pos p~1) with (n + 1 + Z.pos p + Z.pos p) by lia.
    apply IH; [lia|]. apply IH; [lia|]. apply shr_1_inv; assumption.
  - replace (n + Z.pos p~0) with (n + Z.pos p + Z.pos p) by lia.
    apply IH; [lia|]. apply IH; assumption.
  - apply shr_1_inv; assumption.
Qed.

Lemma round_nearest_even_bounds (r : shr_record) :
  let v := round_nearest_even (shr_m r) (loc_of_shr_record r) in
  shr_m r <= v <= shr_m r + 1
  /\ (shr_r r = false -> shr_s r = false -> v = shr_m r).
Proof.
  destruct r as [m [] []]; simpl; try (split; [lia|intros; congruence]).
  destruct (Z.even m); split; try lia; intros; congruence.
Qed.

Lemma fexp_small (d e : Z) : d + e <= 1 -> fexp F32.prec F32.emax (d + e) <= -23.
Proof. unfold fexp, emin, F32.prec, F32.emax. lia. Qed.

Lemma digits_exp_small (m e : Z) :
  0 <= m <= 2 ^ (- e) -> e <= -23 -> Zdigits2 m + e <= 1.
Proof.
  intros [H0 H1] He. destruct m as [|p|p]; simpl; try lia.
  pose proof (digits2_pos_bounds p) as [Hlo _].
  assert (2 ^ (Z.pos (digits2_pos p) - 1) <= 2 ^ (- e)) by lia.
  apply Z.pow_le_mono_r_iff in H; lia.
Qed.

(** One rounding stage on a magnitude that is at most 1. *)
Lemma shr_fexp_small (m e : Z) (mrs : shr_record) (e1 : Z) :
  0 <= m <= 2 ^ (- e) -> e <= -23 ->
  shr_fexp F32.prec F32.emax m e loc_Exact = (mrs, e1) ->
  let v := round_nearest_even (shr_m mrs) (loc_of_shr_record mrs) in
  e1 <= -23 /\ 0 <= shr_m mrs <= v /\ v <= 2 ^ (- e1).
Proof.
  intros Hm He Hshr v.
  pose proof (digits_exp_small m e Hm He) as Hd.
  pose proof (fexp_small _ _ Hd) as Hf.
  unfold shr_fexp, shr in Hshr. simpl shr_record_of_loc in Hshr.
  destruct (fexp F32.prec F32.emax (Zdigits2 m + e) - e) as [|p|p] eqn:Hk.
  - injection Hshr as <- <-. subst v. simpl. lia.
  - injection Hshr as <- <-.
    assert (Hinv : shr_inv m (0 + Z.pos p)
                     (SpecFloat.iter_pos shr_1 p (Build_shr_record m false false))).
    { apply iter_shr_1_inv; [lia|lia|]. split; simpl.
      - rewrite Z.div_1_r. reflexivity.
      - auto. }
    rewrite Z.add_0_l in Hinv. destruct Hinv as [Hq Hex].
    set (r := SpecFloat.iter_pos shr_1 p (Build_shr_record m false false)) in *.
    pose proof (round_nearest_even_bounds r) as [Hv Hexact]. fold v in Hv, Hexact.
    assert (He1 : e + Z.pos p <= -23) by lia.
    assert (Hp : 0 < 2 ^ Z.pos p) by (apply Z.pow_pos_nonneg; lia).
    assert (Hsplit : 2 ^ (- e) = 2 ^ Z.pos p * 2 ^ (- (e + Z.pos p))).
    { rewrite <- Z.pow_add_r by lia. f_equal. lia. }
    assert (Hq0 : 0 <= m / 2 ^ Z.pos p) by (apply Z.div_pos; lia).
    assert (Hqle : m / 2 ^ Z.pos p <= 2 ^ (- (e + Z.pos p))).
    { apply Z.div_le_upper_bound; lia. }
    split; [exact He1|]. split; [lia|].
    destruct (Z.eq_dec (m / 2 ^ Z.pos p) (2 ^ (- (e + Z.pos p)))) as [Heq|Hne]; [|lia].
    assert (Hmeq : m = 2 ^ (- e)).
    { pose proof (Z.mul_div_le m (2 ^ Z.pos p) Hp). nia. }
    assert (Hmod : m mod 2 ^ Z.pos p = 0).
    { rewrite Hmeq, Hsplit, Z.mul_comm. apply Z.mod_mul. lia. }
    destruct (Hex Hmod) as [Hr Hs]. rewrite (Hexact Hr Hs). lia.
  - injection Hshr as <- <-. subst v. simpl. lia.
Qed.

Lemma binary_round_aux_small (M : positive) (E : Z) :
  Zpos M <= 2 ^ (- E) -> E <= -23 ->
  small (binary_round_aux F32.prec F32.emax false (Zpos M) E loc_Exact).
Proof.
  intros HM HE. unfold binary_round_aux.
  destruct (shr_fexp F32.prec F32.emax (Z.pos M) E loc_Exact) as [mrs' e'] eqn:H1.
  apply shr_fexp_small in H1 as (He' & Hm' & Hv'); [|lia|lia].
  destruct (shr_fexp F32.prec F32.emax
              (round_nearest_even (shr_m mrs') (loc_of_shr_record mrs')) e' loc_Exact)
    as [mrs'' e''] eqn:H2.
  apply shr_fexp_small in H2 as (He'' & Hm'' & Hv''); [|lia|lia].
  destruct (shr_m mrs'') as [|m|m] eqn:Hm; simpl; [exact I| |lia].
  replace (e'' <=? F32.emax - F32.prec) with true
    by (symmetry; apply Z.leb_le; unfold F32.emax, F32.prec; lia).
  simpl. lia.
Qed.

Lemma mul_small (x y : float) : small x -> small y -> small (F32.mul x y).
Proof.
  destruct x as [sx|sx| |[] mx ex], y as [sy|sy| |[] my ey]; simpl; try tauto.
  intros [Hex Hmx] [Hey Hmy].
  apply binary_round_aux_small; [|lia].
  replace (- (ex + ey)) with (- ex + - ey) by lia.
  rewrite Z.pow_add_r, Pos2Z.inj_mul by lia.
  apply Z.mul_le_mono_nonneg; lia.
Qed.

Lemma small_in_unit (x : float) : small x -> F32.in_unit x = true.
Proof.
  destruct x as [[]|[]| |[] m e]; simpl; try tauto; try reflexivity.
  intros [He Hm]. unfold F32.in_unit, F32.leb, SFleb. simpl.
  destruct (e ?= -23) eqn:Hc; try reflexivity.
  - apply Z.compare_eq in Hc. subst e. simpl in Hm.
    rewrite Pos.compare_cont_spec.
    destruct (Pos.compare_spec m 8388608) as [E|L|G]; try reflexivity.
    apply Pos2Z.pos_lt_pos in G. change (2 ^ (- (-23))) with (Z.pos 8388608) in Hm. lia.
  - change (e > -23) in Hc. lia.
Qed.

Lemma valid_unit_small (x : float) :
  F32.valid x = true -> F32.in_unit x = true -> small x.
Proof.
  destruct x as [[]|[]| |[] m e]; simpl; try tauto; try discriminate.
  unfold F32.valid, valid_binary, bounded, canonical_mantissa, F32.in_unit, F32.leb, SFleb.
  simpl. intros Hv Hu. apply andb_prop in Hv as [Hc _]. apply Z.eqb_eq in Hc.
  pose proof (digits2_pos_bounds m) as [_ Hhi].
  unfold fexp, emin, F32.prec, F32.emax in Hc.
  assert (Hd : Z.pos (digits2_pos m) <= 24) by lia.
  assert (Hm24 : Z.pos m < 2 ^ 24).
  { eapply Z.lt_le_trans; [exact Hhi|]. apply Z.pow_le_mono_r; lia. }
  destruct (e ?= -23) eqn:He; [| |discriminate Hu].
  - apply Z.compare_eq in He. subst e. split; [lia|].
    clear Hm24 Hhi Hd Hc. rewrite Pos.compare_cont_spec in Hu.
    change (2 ^ (- (-23))) with (Z.pos 8388608).
    destruct (Pos.compare_spec m 8388608) as [E|L|G]; simpl in Hu;
      [rewrite E; apply Z.le_refl
      |apply Pos2Z.pos_lt_pos in L; apply Z.lt_le_incl, L
      |discriminate Hu].
  - change (e < -23) in He. split; [lia|].
    apply Z.le_trans with (2 ^ 24); [apply Z.lt_le_incl, Hm24|].
    apply Z.pow_le_mono_r; lia.
Qed.

Lemma mul_in_unit (x y : float) :
  F32.valid x = true -> F32.valid y = true ->
  F32.in_unit x = true -> F32.in_unit y = true ->
  F32.in_unit (F32.mul x y) = true.
Proof.
  intros. apply small_in_unit, mul_small; apply valid_unit_small; assumption.
Qed.

(** ** Truth-value algebra *)







(** C1 fails as stated: OR-combining (0.5, 0.5, 1) with itself gives
    strength 0.75. *)
Lemma tv_or_idempotent_fails :
  tv_in_range tv_half = true
  /\ strength (ggml_opencog_tv_or tv_half tv_half) = F32.lit 3 4
  /\ F32.eqb (strength (ggml_opencog_tv_or tv_half tv_half)) (strength tv_half) = false
  /\ ggml_opencog_tv_or tv_half tv_half <> tv_half.
Proof.
  repeat split; try (vm_compute; reflexivity).
  intros H. apply (f_equal strength) in H. vm_compute in H. discriminate H.
Qed.

Lemma in_range_fields (t : ggml_opencog_truth_value) :
  tv_in_range t = true ->
  F32.in_unit (strength t) = true /\ F32.in_unit (confidence t) = true
  /\ F32.nonneg (count t) = true.
Proof.
  unfold tv_in_range. rewrite !andb_true_iff. tauto.
Qed.

Lemma eqb_zero_inv (x : float) :
  F32.eqb x F32.zero = true -> exists s, x = S754_zero s.
Proof.
  unfold F32.eqb, SFeqb. destruct (SFcompare x F32.zero) as [[]|] eqn:H; try discriminate.
  intros _. apply SFcompare_Eq in H as [->|(s & s' & -> & _)]; eauto.
Qed.

Lemma eqb_one_inv (x : float) : F32.eqb x F32.one = true -> x = F32.one.
Proof.
  unfold F32.eqb, SFeqb. destruct (SFcompare x F32.one) as [[]|] eqn:H; try discriminate.
  intros _. apply SFcompare_Eq in H as [->|(s & s' & -> & H)]; [reflexivity|discriminate].
Qed.

(** C1, as amended.  OR-combining an in-range truth value with itself
    keeps its confidence and its count (up to [==]) and replaces the
    strength [s] by [s + s - s * s] clamped to [0, 1]; the strength is
    unchanged when it is 0 or 1. *)
Theorem tv_or_self (t : ggml_opencog_truth_value) :
  tv_in_range t = true ->
  let r := ggml_opencog_tv_or t t in
  let s := strength t in
  strength r
    = F32.fmaxf F32.zero (F32.fminf F32.one (F32.sub (F32.add s s) (F32.mul s s)))
  /\ F32.eqb (confidence r) (confidence t) = true
  /\ F32.eqb (count r) (count t) = true
  /\ (F32.eqb s F32.zero = true \/ F32.eqb s F32.one = true ->
      F32.eqb (strength r) s = true).
Proof.
  intros H r s. apply in_range_fields in H as (Hs & Hc & Hn).
  repeat split.
  - unfold r, ggml_opencog_tv_or, ggml_opencog_tv_create; simpl.
    rewrite fminf_diag. apply clamp_unit_id, Hc.
  - unfold r, ggml_opencog_tv_or, ggml_opencog_tv_create; simpl.
    rewrite fmaxf_diag. apply clamp_nonneg_id, Hn.
  - unfold r, ggml_opencog_tv_or, ggml_opencog_tv_create; simpl. fold s.
    intros [Hz|Ho].
    + apply eqb_zero_inv in Hz as [[] ->]; vm_compute; reflexivity.
    + apply eqb_one_inv in Ho as ->. vm_compute; reflexivity.
Qed.

(** C1 (amended) applied to (0.5, 0.5, 1). *)
Lemma tv_or_self_witness :
  tv_in_range tv_half = true
  /\ F32.eqb (confidence (ggml_opencog_tv_or tv_half tv_half)) (confidence tv_half) = true.
Proof.
  split; [vm_compute; reflexivity|].
  apply (tv_or_self tv_half). vm_compute; reflexivity.
Defined.

(** ** Capacity *)

Lemma append_atom_spec (s : ggml_opencog_atomspace) (p : atom_ptr) :
  0 <= n_atoms s < Z.of_nat (length (atoms s)) ->
  append_atom s p =
    Some {| atoms := <[Z.to_nat (n_atoms s) := p]> (atoms s);
            n_atoms := n_atoms s + 1;
            capacity := capacity s; embedding_dim := embedding_dim s |}.
Proof.
  intros H. unfold append_atom, write.
  replace (0 <=? n_atoms s) with true by (symmetry; apply Z.leb_le; lia).
  replace (n_atoms s <? Z.of_nat (length (atoms s))) with true
    by (symmetry; apply Z.ltb_lt; lia).
  reflexivity.
Qed.

Lemma append_atom_inv (s s' : ggml_opencog_atomspace) (p : atom_ptr) :
  append_atom s p = Some s' ->
  n_atoms s' = n_atoms s + 1 /\ capacity s' = capacity s
  /\ length (atoms s') = length (atoms s)
  /\ 0 <= n_atoms s < Z.of_nat (length (atoms s))
  /\ atoms s' = <[Z.to_nat (n_atoms s) := p]> (atoms s).
Proof.
  unfold append_atom, write.
  destruct ((0 <=? n_atoms s) && (n_atoms s <? Z.of_nat (length (atoms s)))) eqn:Hb;
    simpl; [|discriminate].
  intros [= <-]. simpl. rewrite length_insert.
  apply andb_prop in Hb as [H0 H1]. apply Z.leb_le in H0. apply Z.ltb_lt in H1.
  repeat split; lia.
Qed.

Lemma create_full (m : memory) (c : creation) :
  n_atoms (space m) >= capacity (space m) -> create m c = Some (NULL, m).
Proof.
  intros H. destruct c; simpl;
    unfold ggml_opencog_atom_create, ggml_opencog_link_create;
    replace (n_atoms (space m) >=? capacity (space m)) with true
      by (symmetry; apply Z.geb_le; lia); reflexivity.
Qed.

Lemma create_inv (m m' : memory) (c : creation) (p : atom_ptr) :
  create m c = Some (p, m') ->
  (p = NULL /\ m' = m /\ n_atoms (space m) >= capacity (space m))
  \/ (p = Ptr (length (heap m)) /\ n_atoms (space m) < capacity (space m)
      /\ n_atoms (space m') = n_atoms (space m) + 1
      /\ capacity (space m') = capacity (space m)
      /\ length (atoms (space m')) = length (atoms (space m))).
Proof.
  destruct c; simpl;
    unfold ggml_opencog_atom_create, ggml_opencog_link_create;
    destruct (n_atoms (space m) >=? capacity (space m)) eqn:Hc.
  - intros [= <- <-]. left. apply Z.geb_le in Hc. repeat split; lia.
  - destruct (append_atom (space m) (Ptr (length (heap m)))) as [s'|] eqn:Ha;
      simpl; [|discriminate].
    intros [= <- <-]. right. apply append_atom_inv in Ha as (? & ? & ? & ? & ?).
    rewrite Z.geb_leb in Hc. apply Z.leb_gt in Hc. simpl. repeat split; lia.
  - intros [= <- <-]. left. apply Z.geb_le in Hc. repeat split; lia.
  - destruct (copy_outgoing out n_out) as [cp|]; simpl; [|discriminate].
    destruct (append_atom (space m) (Ptr (length (heap m)))) as [s'|] eqn:Ha;
      simpl; [|discriminate].
    intros [= <- <-]. right. apply append_atom_inv in Ha as (? & ? & ? & ? & ?).
    rewrite Z.geb_leb in Hc. apply Z.leb_gt in Hc. simpl. repeat split; lia.
Qed.

Lemma copy_outgoing_ok (out : list atom_ptr) (n : Z) :
  n <= Z.of_nat (length out) -> is_Some (copy_outgoing out n).
Proof.
  intros H. unfold copy_outgoing. destruct (n <=? 0); [eauto|].
  replace (n <=? Z.of_nat (length out)) with true by (symmetry; apply Z.leb_le; lia).
  eauto.
Qed.

Lemma create_ok (m : memory) (c : creation) :
  creation_ok c = true -> space_ok (space m) ->
  exists p m', create m c = Some (p, m') /\ space_ok (space m').
Proof.
  intros Hc [Hn Hlen].
  destruct (Z_ge_dec (n_atoms (space m)) (capacity (space m))) as [Hfull|Hfree].
  - exists NULL, m. split; [apply create_full; exact Hfull|split; assumption].
  - assert (Ha := append_atom_spec (space m) (Ptr (length (heap m))) ltac:(lia)).
    assert (Hg : (n_atoms (space m) >=? capacity (space m)) = false)
      by (rewrite Z.geb_leb; apply Z.leb_gt; lia).
    destruct c as [ty nm t|ty out n_out t]; simpl in *.
    + unfold ggml_opencog_atom_create. rewrite Hg, Ha. simpl.
      eexists _, _. split; [reflexivity|]. split; simpl; [lia|].
      rewrite length_insert. exact Hlen.
    + unfold ggml_opencog_link_create. rewrite Hg.
      apply Z.leb_le in Hc. destruct (copy_outgoing_ok out n_out Hc) as [cp ->].
      simpl. rewrite Ha. simpl.
      eexists _, _. split; [reflexivity|]. split; simpl; [lia|].
      rewrite length_insert. exact Hlen.
Qed.

Lemma create_count (m m' : memory) (c : creation) (p : atom_ptr) :
  space_ok (space m) -> create m c = Some (p, m') ->
  n_atoms (space m') = Z.min (n_atoms (space m) + 1) (capacity (space m))
  /\ capacity (space m') = capacity (space m).
Proof.
  intros [Hn _] H. apply create_inv in H as [(-> & -> & H)|(-> & ? & ? & ? & ?)]; lia.
Qed.

Lemma create_all_count (cs : list creation) :
  forall m : memory,
    space_ok (space m) -> Forall (fun c => creation_ok c = true) cs ->
    exists m', create_all m cs = Some m'
      /\ space_ok (space m')
      /\ capacity (space m') = capacity (space m)
      /\ n_atoms (space m') =
           Z.min (n_atoms (space m) + Z.of_nat (length cs)) (capacity (space m)).
Proof.
  induction cs as [|c cs IH]; intros m Hm Hcs.
  - exists m. simpl. destruct Hm as [? ?]. repeat split; try assumption; lia.
  - inversion Hcs as [|? ? Hc Hcs']; subst.
    destruct (create_ok m c Hc Hm) as (p & m1 & Hcr & Hm1).
    destruct (create_count m m1 c p Hm Hcr) as [Hn1 Hcap1].
    destruct (IH m1 Hm1 Hcs') as (m' & Hall & Hm' & Hcap & Hn).
    exists m'. simpl create_all. rewrite Hcr. simpl. split; [exact Hall|].
    split; [exact Hm'|]. split; [congruence|].
    rewrite Hn, Hn1, Hcap1. destruct Hm as [? ?].
    rewrite Nat2Z.inj_succ. lia.
Qed.

Lemma fresh_memory_ok (h : list ggml_opencog_atom) (cap dim : Z) :
  0 <= cap -> space_ok (space (fresh_memory h cap dim)).
Proof.
  intros H. split; simpl; [lia|]. rewrite length_replicate. lia.
Qed.

(** C10.  The atom count never exceeds the capacity: on a space with
    [n_atoms >= capacity] both creation functions return null and leave
    the memory as it is; every call that returns an atom increments
    [n_atoms] by exactly one and keeps it within the capacity; and after
    any sequence of creations on a fresh space of [N] slots the count is
    the smaller of [N] and the number of requests, so that once [N] atoms
    were created every further request is refused and [n_atoms] stays
    [N]. *)
Theorem n_atoms_bounded_by_capacity :
  (forall m c, n_atoms (space m) >= capacity (space m) ->
     create m c = Some (NULL, m))
  /\ (forall m c p m', create m c = Some (p, m') -> p <> NULL ->
        n_atoms (space m') = n_atoms (space m) + 1
        /\ capacity (space m') = capacity (space m)
        /\ n_atoms (space m') <= capacity (space m'))
  /\ (forall h N dim cs, 0 <= N ->
        Forall (fun c => creation_ok c = true) cs ->
        exists m', create_all (fresh_memory h N dim) cs = Some m'
          /\ n_atoms (space m') = Z.min (Z.of_nat (length cs)) N
          /\ n_atoms (space m') <= capacity (space m')
          /\ (Z.of_nat (length cs) >= N ->
              n_atoms (space m') = N
              /\ forall c, create m' c = Some (NULL, m'))).
Proof.
  split; [exact create_full|]. split.
  - intros m c p m' H Hp.
    apply create_inv in H as [(-> & _)|(_ & ? & ? & ? & _)]; [congruence|].
    repeat split; lia.
  - intros h N dim cs HN Hcs.
    destruct (create_all_count cs (fresh_memory h N dim) (fresh_memory_ok h N dim HN) Hcs)
      as (m' & Hall & Hok & Hcap & Hn).
    simpl in Hcap, Hn. exists m'. split; [exact Hall|].
    split; [lia|]. split; [lia|]. intros Hlen. split; [lia|].
    intros c. apply create_full. lia.
Qed.

(** ** The two rules *)

Lemma modus_ponens_precondition_true (m : memory) (premises : list atom_ptr) (n : Z) :
  ggml_opencog_rule_modus_ponens_precondition m premises n = Some true ->
  n = 2 /\ exists p implication imp,
    read premises 0 = Some p /\ read premises 1 = Some implication
    /\ deref (heap m) implication = Some imp
    /\ type imp = OPENCOG_ATOM_IMPLICATION_LINK /\ n_outgoing imp = 2
    /\ read (outgoing imp) 0 = Some p.
Proof.
  unfold ggml_opencog_rule_modus_ponens_precondition.
  destruct (n =? 2) eqn:Hn; simpl; [|discriminate]. apply Z.eqb_eq in Hn.
  destruct (read premises 0) as [p|] eqn:E1; simpl; [|discriminate].
  destruct (read premises 1) as [implication|] eqn:E2; simpl; [|discriminate].
  destruct (deref (heap m) implication) as [imp|] eqn:E3; simpl; [|discriminate].
  case_bool_decide as Hty; simpl; [|discriminate].
  destruct (n_outgoing imp =? 2) eqn:Hout; simpl; [|discriminate]. apply Z.eqb_eq in Hout.
  destruct (read (outgoing imp) 0) as [o|] eqn:E4; simpl; [|discriminate].
  case_bool_decide as Ho; [|discriminate]. subst o. intros _.
  split; [exact Hn|]. exists p, implication, imp. repeat split; try reflexivity; try assumption.
Qed.

Lemma modus_ponens_conclusion_spec (m : memory) (premises : list atom_ptr) (n : Z)
    (p implication q : atom_ptr) (pa imp qa : ggml_opencog_atom) (a : nat) :
  ggml_opencog_rule_modus_ponens_precondition m premises n = Some true ->
  read premises 0 = Some p -> read premises 1 = Some implication ->
  deref (heap m) p = Some pa -> deref (heap m) implication = Some imp ->
  read (outgoing imp) 1 = Some q -> q = Ptr a -> deref (heap m) q = Some qa ->
  ggml_opencog_rule_modus_ponens_conclusion m premises n =
    Some (q, {| heap := <[a := set_tv qa (ggml_opencog_tv_or (tv qa)
                                  (modus_ponens_tv (tv pa) (tv imp)))]> (heap m);
                space := space m |}).
Proof.
  intros Hpre H0 H1 Hp Himp Hq -> Hqa.
  unfold ggml_opencog_rule_modus_ponens_conclusion.
  rewrite Hpre. simpl. rewrite H0, H1. simpl. rewrite Himp. simpl.
  rewrite Hq. simpl. rewrite Hp. simpl. simpl in Hqa. rewrite Hqa. simpl.
  rewrite bool_decide_eq_true_2 by (eapply lookup_lt_Some; exact Hqa).
  reflexivity.
Qed.

Lemma inheritance_precondition_true (m : memory) (premises : list atom_ptr) (n : Z) :
  ggml_opencog_rule_inheritance_precondition m premises n = Some true ->
  n = 2 /\ exists inh1 inh2 l1 l2 b,
    read premises 0 = Some inh1 /\ read premises 1 = Some inh2
    /\ deref (heap m) inh1 = Some l1 /\ deref (heap m) inh2 = Some l2
    /\ type l1 = OPENCOG_ATOM_INHERITANCE_LINK
    /\ type l2 = OPENCOG_ATOM_INHERITANCE_LINK
    /\ n_outgoing l1 = 2 /\ n_outgoing l2 = 2
    /\ read (outgoing l1) 1 = Some b /\ read (outgoing l2) 0 = Some b.
Proof.
  unfold ggml_opencog_rule_inheritance_precondition.
  destruct (n =? 2) eqn:Hn; simpl; [|discriminate]. apply Z.eqb_eq in Hn.
  destruct (read premises 0) as [inh1|] eqn:E5; simpl; [|discriminate].
  destruct (read premises 1) as [inh2|] eqn:E6; simpl; [|discriminate].
  destruct (deref (heap m) inh1) as [l1|] eqn:E7; simpl; [|discriminate].
  case_bool_decide as Hty1; simpl; [|discriminate].
  destruct (deref (heap m) inh2) as [l2|] eqn:E8; simpl; [|discriminate].
  case_bool_decide as Hty2; simpl; [|discriminate].
  destruct (n_outgoing l1 =? 2) eqn:Ho1; simpl; [|discriminate]. apply Z.eqb_eq in Ho1.
  destruct (n_outgoing l2 =? 2) eqn:Ho2; simpl; [|discriminate]. apply Z.eqb_eq in Ho2.
  destruct (read (outgoing l1) 1) as [b|] eqn:E9; simpl; [|discriminate].
  destruct (read (outgoing l2) 0) as [b'|] eqn:E10; simpl; [|discriminate].
  case_bool_decide as Hb; [|discriminate]. subst b'. intros _.
  split; [exact Hn|]. exists inh1, inh2, l1, l2, b. repeat split; try reflexivity; assumption.
Qed.

Lemma inheritance_conclusion_spec (m : memory) (premises : list atom_ptr) (n : Z)
    (inh1 inh2 a c : atom_ptr) (l1 l2 : ggml_opencog_atom) :
  ggml_opencog_rule_inheritance_precondition m premises n = Some true ->
  read premises 0 = Some inh1 -> read premises 1 = Some inh2 ->
  deref (heap m) inh1 = Some l1 -> deref (heap m) inh2 = Some l2 ->
  read (outgoing l1) 0 = Some a -> read (outgoing l2) 1 = Some c ->
  ggml_opencog_rule_inheritance_conclusion m premises n =
    ggml_opencog_link_create m OPENCOG_ATOM_INHERITANCE_LINK [a; c] 2
                             (inheritance_tv (tv l1) (tv l2)).
Proof.
  intros Hpre H0 H1 Hl1 Hl2 Ha Hc.
  unfold ggml_opencog_rule_inheritance_conclusion.
  rewrite Hpre. simpl. rewrite H0, H1. simpl. rewrite Hl1, Hl2. simpl.
  rewrite Ha, Hc. reflexivity.
Qed.

Lemma link_create_free (m : memory) (ty : ggml_opencog_atom_type)
    (a c : atom_ptr) (t : ggml_opencog_truth_value) :
  n_atoms (space m) < capacity (space m) ->
  0 <= n_atoms (space m) < Z.of_nat (length (atoms (space m))) ->
  ggml_opencog_link_create m ty [a; c] 2 t =
    Some (Ptr (length (heap m)),
          {| heap := heap m ++ [{| type := ty; name := None; tv := t;
                                   outgoing := [a; c]; n_outgoing := 2 |}];
             space := {| atoms := <[Z.to_nat (n_atoms (space m)) :=
                                      Ptr (length (heap m))]> (atoms (space m));
                         n_atoms := n_atoms (space m) + 1;
                         capacity := capacity (space m);
                         embedding_dim := embedding_dim (space m) |} |}).
Proof.
  intros Hfree Hslot. unfold ggml_opencog_link_create.
  replace (n_atoms (space m) >=? capacity (space m)) with false
    by (symmetry; rewrite Z.geb_leb; apply Z.leb_gt; lia).
  simpl. rewrite (append_atom_spec _ _ Hslot). reflexivity.
Qed.

Lemma link_create_full (m : memory) (ty : ggml_opencog_atom_type)
    (out : list atom_ptr) (k : Z) (t : ggml_opencog_truth_value) :
  n_atoms (space m) >= capacity (space m) ->
  ggml_opencog_link_create m ty out k t = Some (NULL, m).
Proof. intros H. apply (create_full m (Create_link ty out k t) H). Qed.

(** ** Derived truth values of in-range premises *)

Lemma in_range_valid (t : ggml_opencog_truth_value) :
  tv_in_range t = true ->
  F32.valid (strength t) = true /\ F32.valid (confidence t) = true.
Proof. unfold tv_in_range. rewrite !andb_true_iff. tauto. Qed.

Lemma clamp_mul_id (x y : float) :
  small x -> small y ->
  F32.eqb (F32.fmaxf F32.zero (F32.fminf F32.one (F32.mul x y))) (F32.mul x y) = true.
Proof. intros Hx Hy. apply clamp_unit_id, small_in_unit, mul_small; assumption. Qed.

Lemma fminf_nonneg (x y : float) :
  F32.nonneg x = true -> F32.nonneg y = true -> F32.nonneg (F32.fminf x y) = true.
Proof.
  intros Hx Hy. unfold F32.fminf.
  destruct (SFcompare x y) as [[]|]; try assumption.
  destruct (F32.is_nan y); assumption.
Qed.

Lemma modus_ponens_tv_fields (tp ti : ggml_opencog_truth_value) :
  tv_in_range tp = true -> tv_in_range ti = true ->
  let d := modus_ponens_tv tp ti in
  F32.eqb (strength d) (F32.mul (strength tp) (strength ti)) = true
  /\ F32.eqb (confidence d) (F32.mul (confidence tp) (confidence ti)) = true
  /\ F32.eqb (count d) (F32.fminf (count tp) (count ti)) = true.
Proof.
  intros Hp Hi d.
  destruct (in_range_fields tp Hp) as (Hs1 & Hc1 & Hn1).
  destruct (in_range_fields ti Hi) as (Hs2 & Hc2 & Hn2).
  destruct (in_range_valid tp Hp) as (Vs1 & Vc1).
  destruct (in_range_valid ti Hi) as (Vs2 & Vc2).
  unfold d, modus_ponens_tv, ggml_opencog_tv_create; simpl. repeat split.
  - apply clamp_mul_id; apply valid_unit_small; assumption.
  - apply clamp_mul_id; apply valid_unit_small; assumption.
  - apply clamp_nonneg_id, fminf_nonneg; assumption.
Qed.

Lemma decay_small : small decay.
Proof. apply valid_unit_small; vm_compute; reflexivity. Qed.

Lemma inheritance_tv_fields (t1 t2 : ggml_opencog_truth_value) :
  tv_in_range t1 = true -> tv_in_range t2 = true ->
  let d := inheritance_tv t1 t2 in
  F32.eqb (strength d) (F32.mul (strength t1) (strength t2)) = true
  /\ F32.eqb (confidence d)
       (F32.mul (F32.mul (confidence t1) (confidence t2)) decay) = true
  /\ F32.eqb (count d) (F32.fminf (count t1) (count t2)) = true.
Proof.
  intros H1 H2 d.
  destruct (in_range_fields t1 H1) as (Hs1 & Hc1 & Hn1).
  destruct (in_range_fields t2 H2) as (Hs2 & Hc2 & Hn2).
  destruct (in_range_valid t1 H1) as (Vs1 & Vc1).
  destruct (in_range_valid t2 H2) as (Vs2 & Vc2).
  unfold d, inheritance_tv, ggml_opencog_tv_create; simpl. repeat split.
  - apply clamp_mul_id; apply valid_unit_small; assumption.
  - apply clamp_mul_id; [|exact decay_small].
    apply mul_small; apply valid_unit_small; assumption.
  - apply clamp_nonneg_id, fminf_nonneg; assumption.
Qed.

(** ** The inference counter *)

Lemma int_wrap_range (z : Z) : INT_MIN <= int_wrap z <= INT_MAX.
Proof.
  unfold int_wrap, INT_MIN, INT_MAX.
  pose proof (Z.mod_pos_bound (z - -2147483648) 4294967296 ltac:(lia)). lia.
Qed.

Lemma int_wrap_small (z : Z) : INT_MIN <= z <= INT_MAX -> int_wrap z = z.
Proof.
  unfold int_wrap, INT_MIN, INT_MAX. intros H.
  rewrite Z.mod_small by lia. lia.
Qed.

Lemma int_succ_range (n : Z) : INT_MIN <= int_succ n <= INT_MAX.
Proof. apply int_wrap_range. Qed.

Lemma int_succ_small (n : Z) : INT_MIN <= n < INT_MAX -> int_succ n = n + 1.
Proof. intros H. apply int_wrap_small. unfold INT_MIN, INT_MAX in *. lia. Qed.


Lemma counted_weaken (lo hi lo' hi' n : Z) :
  counted lo hi n -> lo' <= lo -> hi <= hi' -> counted lo' hi' n.
Proof. intros [Hr Hb] Hlo Hhi. split; [exact Hr|]. intros H. lia. Qed.

Lemma counted_same (n : Z) : INT_MIN <= n <= INT_MAX -> counted n n n.
Proof. intros H. split; [exact H|]. intros _. lia. Qed.

Lemma counted_succ (n : Z) :
  INT_MIN <= n <= INT_MAX -> counted n (n + 1) (int_succ n).
Proof.
  intros H. split; [apply int_succ_range|]. intros Hhi.
  rewrite int_succ_small by lia. lia.
Qed.

(** ** One step of the pair scan *)

Section try_pair.
Variables (ure : ggml_opencog_ure) (rule : ggml_opencog_inference_rule).
Variables (target : atom_ptr) (i j : Z) (st : chain_state) (pi pj : atom_ptr).
Hypothesis Hi : read (atoms (space (mem st))) i = Some pi.
Hypothesis Hj : read (atoms (space (mem st))) j = Some pj.

Lemma try_pair_unmet :
  precondition rule (mem st) [pi; pj] 2 = Some false ->
  ure_try_pair ure rule target i j st = Next st.
Proof.
  intros Hpre. unfold ure_try_pair. rewrite Hi, Hj. simpl. rewrite Hpre. reflexivity.
Qed.

Lemma try_pair_null (m' : memory) :
  precondition rule (mem st) [pi; pj] 2 = Some true ->
  conclusion rule (mem st) [pi; pj] 2 = Some (NULL, m') ->
  ure_try_pair ure rule target i j st =
    Next {| mem := m'; made_inference := made_inference st;
            inferences_made := inferences_made st |}.
Proof.
  intros Hpre Hc. unfold ure_try_pair. rewrite Hi, Hj. simpl. rewrite Hpre. simpl.
  rewrite Hc. reflexivity.
Qed.

Variables (c : atom_ptr) (m' : memory) (ca : ggml_opencog_atom).
Hypothesis Hpre : precondition rule (mem st) [pi; pj] 2 = Some true.
Hypothesis Hconcl : conclusion rule (mem st) [pi; pj] 2 = Some (c, m').
Hypothesis Hca : deref (heap m') c = Some ca.

Lemma deref_not_null : c <> NULL.
Proof. intros ->. discriminate Hca. Qed.

Lemma try_pair_rejected :
  F32.geb (confidence (tv ca)) (min_confidence ure) = false ->
  ure_try_pair ure rule target i j st =
    Next {| mem := m'; made_inference := made_inference st;
            inferences_made := inferences_made st |}.
Proof.
  intros Hlow. unfold ure_try_pair. rewrite Hi, Hj. simpl. rewrite Hpre. simpl.
  rewrite Hconcl. simpl. rewrite bool_decide_eq_false_2 by exact deref_not_null.
  rewrite Hca. simpl. rewrite Hlow. reflexivity.
Qed.

Lemma try_pair_accepted :
  F32.geb (confidence (tv ca)) (min_confidence ure) = true -> c <> target ->
  ure_try_pair ure rule target i j st =
    Next {| mem := m'; made_inference := true;
            inferences_made := int_succ (inferences_made st) |}.
Proof.
  intros Hhigh Hne. unfold ure_try_pair. rewrite Hi, Hj. simpl. rewrite Hpre. simpl.
  rewrite Hconcl. simpl. rewrite bool_decide_eq_false_2 by exact deref_not_null.
  rewrite Hca. simpl. rewrite Hhigh. simpl.
  rewrite bool_decide_eq_false_2 by exact Hne. reflexivity.
Qed.

Lemma try_pair_target :
  F32.geb (confidence (tv ca)) (min_confidence ure) = true -> c = target ->
  ure_try_pair ure rule target i j st = Stop (int_succ (inferences_made st)) m'.
Proof.
  intros Hhigh Heq. unfold ure_try_pair. rewrite Hi, Hj. simpl. rewrite Hpre. simpl.
  rewrite Hconcl. simpl. rewrite bool_decide_eq_false_2 by exact deref_not_null.
  rewrite Hca. simpl. rewrite Hhigh. simpl.
  rewrite bool_decide_eq_true_2 by exact Heq. reflexivity.
Qed.
End try_pair.

(** C9.  When the precondition of modus ponens or of inheritance
    transitivity fails on a premise list, the conclusion function of that
    rule returns null and leaves the whole memory (the AtomSpace and every
    atom's truth value) unchanged. *)
Theorem conclusion_rechecks_precondition
    (rule : ggml_opencog_inference_rule) (m : memory)
    (premises : list atom_ptr) (n_premises : Z) :
  rule = modus_ponens_rule \/ rule = inheritance_rule ->
  precondition rule m premises n_premises = Some false ->
  conclusion rule m premises n_premises = Some (NULL, m).
Proof.
  intros [-> | ->] Hpre; simpl in *.
  - unfold ggml_opencog_rule_modus_ponens_conclusion. rewrite Hpre. reflexivity.
  - unfold ggml_opencog_rule_inheritance_conclusion. rewrite Hpre. reflexivity.
Qed.

(** C9 applied to the premises P, Q, of which Q is no implication. *)
Lemma conclusion_rechecks_precondition_witness :
  precondition modus_ponens_rule (implication_memory tv_high) [Ptr 0; Ptr 1] 2
    = Some false
  /\ conclusion modus_ponens_rule (implication_memory tv_high) [Ptr 0; Ptr 1] 2
       = Some (NULL, implication_memory tv_high).
Proof.
  split; [vm_compute; reflexivity|].
  apply conclusion_rechecks_precondition; [left; reflexivity|vm_compute; reflexivity].
Defined.

Lemma deref_insert_ne (h : list ggml_opencog_atom) (a : nat)
    (x : ggml_opencog_atom) (r : atom_ptr) :
  r <> Ptr a -> deref (<[a := x]> h) r = deref h r.
Proof.
  destruct r as [|b]; [reflexivity|]. intros Hne. simpl.
  apply list_lookup_insert_ne. congruence.
Qed.

(** C4, as amended.  On premises [P, P->Q] that satisfy the precondition,
    the modus-ponens conclusion derives the truth value
    [tv_create (s_P * s_imp) (c_P * c_imp) (fminf n_P n_imp)]: the two
    products clamped to [0, 1] and the minimum clamped to be at least 0,
    which for premises whose truth values are in range are the products
    and the minimum themselves (up to [==]).  It overwrites the truth
    value of Q with the OR-combination of Q's former truth value and the
    derived one, written out field by field below, leaves Q's type, name
    and outgoing set, every other atom and the space as they are, and
    returns Q. *)
Theorem modus_ponens_conclusion_merges
    (m : memory) (premises : list atom_ptr) (n_premises : Z)
    (p implication : atom_ptr) (pa imp qa : ggml_opencog_atom) (a : nat) :
  ggml_opencog_rule_modus_ponens_precondition m premises n_premises = Some true ->
  read premises 0 = Some p -> read premises 1 = Some implication ->
  deref (heap m) p = Some pa -> deref (heap m) implication = Some imp ->
  read (outgoing imp) 1 = Some (Ptr a) -> heap m !! a = Some qa ->
  let unit := fun x : float => F32.fmaxf F32.zero (F32.fminf F32.one x) in
  let sd := unit (F32.mul (strength (tv pa)) (strength (tv imp))) in
  let cd := unit (F32.mul (confidence (tv pa)) (confidence (tv imp))) in
  let nd := F32.fmaxf F32.zero (F32.fminf (count (tv pa)) (count (tv imp))) in
  let merged :=
    {| strength := unit (F32.sub (F32.add (strength (tv qa)) sd)
                                 (F32.mul (strength (tv qa)) sd));
       confidence := unit (F32.fminf (confidence (tv qa)) cd);
       count := F32.fmaxf F32.zero (F32.fmaxf (count (tv qa)) nd) |} in
  ggml_opencog_rule_modus_ponens_conclusion m premises n_premises
    = Some (Ptr a,
            {| heap := <[a := {| type := type qa; name := name qa; tv := merged;
                                 outgoing := outgoing qa;
                                 n_outgoing := n_outgoing qa |}]> (heap m);
               space := space m |})
  /\ (tv_in_range (tv pa) = true -> tv_in_range (tv imp) = true ->
       F32.eqb sd (F32.mul (strength (tv pa)) (strength (tv imp))) = true
       /\ F32.eqb cd (F32.mul (confidence (tv pa)) (confidence (tv imp))) = true
       /\ F32.eqb nd (F32.fminf (count (tv pa)) (count (tv imp))) = true).
Proof.
  intros Hpre H0 H1 Hp Himp Hq Hqa unit sd cd nd merged. split.
  - rewrite (modus_ponens_conclusion_spec m premises n_premises p implication
               (Ptr a) pa imp qa a Hpre H0 H1 Hp Himp Hq eq_refl Hqa).
    reflexivity.
  - intros Rp Ri. exact (modus_ponens_tv_fields (tv pa) (tv imp) Rp Ri).
Qed.

Lemma modus_ponens_conclusion_inv (m m' : memory) (premises : list atom_ptr)
    (n : Z) (c : atom_ptr) :
  ggml_opencog_rule_modus_ponens_precondition m premises n = Some true ->
  ggml_opencog_rule_modus_ponens_conclusion m premises n = Some (c, m') ->
  exists p implication pa imp qa,
    read premises 0 = Some p /\ read premises 1 = Some implication
    /\ deref (heap m) p = Some pa /\ deref (heap m) implication = Some imp
    /\ read (outgoing imp) 1 = Some c /\ deref (heap m) c = Some qa
    /\ deref (heap m') c =
         Some (set_tv qa (ggml_opencog_tv_or (tv qa) (modus_ponens_tv (tv pa) (tv imp))))
    /\ space m' = space m.
Proof.
  intros Hpre. unfold ggml_opencog_rule_modus_ponens_conclusion. rewrite Hpre. simpl.
  destruct (read premises 0) as [p|] eqn:E0; simpl; [|discriminate].
  destruct (read premises 1) as [implication|] eqn:E1; simpl; [|discriminate].
  destruct (deref (heap m) implication) as [imp|] eqn:E2; simpl; [|discriminate].
  destruct (read (outgoing imp) 1) as [q|] eqn:E3; simpl; [|discriminate].
  destruct (deref (heap m) p) as [pa|] eqn:E4; simpl; [|discriminate].
  destruct (deref (heap m) q) as [qa|] eqn:E5; simpl; [|discriminate].
  destruct q as [|a]; [discriminate E5|]. simpl.
  case_bool_decide as Ha; simpl; [|discriminate].
  intros [= <- <-]. exists p, implication, pa, imp, qa. simpl.
  repeat split; try assumption; try reflexivity.
  apply list_lookup_insert_eq. exact Ha.
Qed.

Lemma link_create_inv (m m' : memory) (ty : ggml_opencog_atom_type)
    (a b c : atom_ptr) (t : ggml_opencog_truth_value) :
  ggml_opencog_link_create m ty [a; b] 2 t = Some (c, m') -> c <> NULL ->
  c = Ptr (length (heap m))
  /\ heap m' = heap m ++ [{| type := ty; name := None; tv := t;
                             outgoing := [a; b]; n_outgoing := 2 |}]
  /\ n_atoms (space m') = n_atoms (space m) + 1
  /\ capacity (space m') = capacity (space m)
  /\ read (atoms (space m')) (n_atoms (space m)) = Some c.
Proof.
  unfold ggml_opencog_link_create.
  destruct (n_atoms (space m) >=? capacity (space m)); [intros [= <- <-]; congruence|].
  simpl. destruct (append_atom (space m) (Ptr (length (heap m)))) as [s'|] eqn:Ha;
    simpl; [|discriminate].
  intros [= <- <-] _. apply append_atom_inv in Ha as (Hn & Hcap & Hlen & Hslot & Harr).
  simpl. repeat split; try assumption.
  unfold read. replace (n_atoms (space m) <? 0) with false by (symmetry; apply Z.ltb_ge; lia).
  rewrite Harr. apply list_lookup_insert_eq. lia.
Qed.

Lemma inheritance_conclusion_inv (m m' : memory) (premises : list atom_ptr)
    (n : Z) (c : atom_ptr) :
  ggml_opencog_rule_inheritance_precondition m premises n = Some true ->
  ggml_opencog_rule_inheritance_conclusion m premises n = Some (c, m') ->
  c <> NULL ->
  exists inh1 inh2 l1 l2 a b,
    read premises 0 = Some inh1 /\ read premises 1 = Some inh2
    /\ deref (heap m) inh1 = Some l1 /\ deref (heap m) inh2 = Some l2
    /\ read (outgoing l1) 0 = Some a /\ read (outgoing l2) 1 = Some b
    /\ c = Ptr (length (heap m))
    /\ heap m' = heap m ++ [derived_link l1 l2 a b]
    /\ n_atoms (space m') = n_atoms (space m) + 1
    /\ capacity (space m') = capacity (space m)
    /\ read (atoms (space m')) (n_atoms (space m)) = Some c.
Proof.
  intros Hpre. unfold ggml_opencog_rule_inheritance_conclusion. rewrite Hpre. simpl.
  destruct (read premises 0) as [inh1|] eqn:E0; simpl; [|discriminate].
  destruct (read premises 1) as [inh2|] eqn:E1; simpl; [|discriminate].
  destruct (deref (heap m) inh1) as [l1|] eqn:E2; simpl; [|discriminate].
  destruct (deref (heap m) inh2) as [l2|] eqn:E3; simpl; [|discriminate].
  destruct (read (outgoing l1) 0) as [a|] eqn:E4; simpl; [|discriminate].
  destruct (read (outgoing l2) 1) as [b|] eqn:E5; simpl; [|discriminate].
  intros Hlink Hc. apply link_create_inv in Hlink as (? & ? & ? & ? & ?); [|exact Hc].
  exists inh1, inh2, l1, l2, a, b. repeat split; assumption.
Qed.

Lemma deref_app_new (h : list ggml_opencog_atom) (x : ggml_opencog_atom) :
  deref (h ++ [x]) (Ptr (length h)) = Some x.
Proof. simpl. rewrite lookup_app_r by lia. rewrite Nat.sub_diag. reflexivity. Qed.

(** C3.  When a pair satisfies a rule's precondition and the conclusion's
    confidence is below [min_confidence], the step neither counts an
    inference nor marks the iteration productive, but continues with the
    memory that the conclusion call left.  For modus ponens that memory
    has the truth value of Q overwritten with the OR-combination of its
    former value and the derived one; for inheritance transitivity, when
    a slot is free, it has the new link A->C appended to the heap and to
    the atom array, with the count incremented. *)
Theorem rejected_conclusion_still_mutates
    (ure : ggml_opencog_ure) (target : atom_ptr) (i j : Z) (st : chain_state)
    (pi pj : atom_ptr) :
  read (atoms (space (mem st))) i = Some pi ->
  read (atoms (space (mem st))) j = Some pj ->
  (forall (rule : ggml_opencog_inference_rule) (c : atom_ptr) (m' : memory)
          (ca : ggml_opencog_atom),
      precondition rule (mem st) [pi; pj] 2 = Some true ->
      conclusion rule (mem st) [pi; pj] 2 = Some (c, m') ->
      deref (heap m') c = Some ca ->
      F32.ltb (confidence (tv ca)) (min_confidence ure) = true ->
      ure_try_pair ure rule target i j st =
        Next {| mem := m'; made_inference := made_inference st;
                inferences_made := inferences_made st |})
  /\ (forall (pa imp qa : ggml_opencog_atom) (a : nat),
        ggml_opencog_rule_modus_ponens_precondition (mem st) [pi; pj] 2 = Some true ->
        deref (heap (mem st)) pi = Some pa -> deref (heap (mem st)) pj = Some imp ->
        read (outgoing imp) 1 = Some (Ptr a) -> heap (mem st) !! a = Some qa ->
        let merged := ggml_opencog_tv_or (tv qa) (modus_ponens_tv (tv pa) (tv imp)) in
        F32.ltb (confidence merged) (min_confidence ure) = true ->
        ure_try_pair ure modus_ponens_rule target i j st =
          Next {| mem := {| heap := <[a := {| type := type qa; name := name qa;
                                              tv := merged;
                                              outgoing := outgoing qa;
                                              n_outgoing := n_outgoing qa |}]>
                                      (heap (mem st));
                            space := space (mem st) |};
                  made_inference := made_inference st;
                  inferences_made := inferences_made st |})
  /\ (forall (l1 l2 : ggml_opencog_atom) (a b : atom_ptr),
        ggml_opencog_rule_inheritance_precondition (mem st) [pi; pj] 2 = Some true ->
        deref (heap (mem st)) pi = Some l1 -> deref (heap (mem st)) pj = Some l2 ->
        read (outgoing l1) 0 = Some a -> read (outgoing l2) 1 = Some b ->
        n_atoms (space (mem st)) < capacity (space (mem st)) ->
        0 <= n_atoms (space (mem st))
          < Z.of_nat (length (atoms (space (mem st)))) ->
        let derived := inheritance_tv (tv l1) (tv l2) in
        F32.ltb (confidence derived) (min_confidence ure) = true ->
        ure_try_pair ure inheritance_rule target i j st =
          Next {| mem :=
                    {| heap := heap (mem st)
                               ++ [{| type := OPENCOG_ATOM_INHERITANCE_LINK;
                                      name := None; tv := derived;
                                      outgoing := [a; b]; n_outgoing := 2 |}];
                       space :=
                         {| atoms := <[Z.to_nat (n_atoms (space (mem st))) :=
                                         Ptr (length (heap (mem st)))]>
                                       (atoms (space (mem st)));
                            n_atoms := n_atoms (space (mem st)) + 1;
                            capacity := capacity (space (mem st));
                            embedding_dim := embedding_dim (space (mem st)) |} |};
                  made_inference := made_inference st;
                  inferences_made := inferences_made st |}).
Proof.
  intros Hi Hj. split; [|split].
  - intros rule c m' ca Hpre Hconcl Hca Hlow.
    eapply try_pair_rejected; eauto. apply leb_swap_lt. exact Hlow.
  - intros pa imp qa a Hpre Hpa Himp Hq Hqa merged Hlow.
    eapply (try_pair_rejected ure modus_ponens_rule target i j st pi pj Hi Hj
              (Ptr a) _ _ Hpre).
    + simpl.
      rewrite (modus_ponens_conclusion_spec (mem st) [pi; pj] 2 pi pj (Ptr a)
                 pa imp qa a Hpre eq_refl eq_refl Hpa Himp Hq eq_refl Hqa).
      reflexivity.
    + simpl. apply list_lookup_insert_eq. eapply lookup_lt_Some. exact Hqa.
    + apply leb_swap_lt. exact Hlow.
  - intros l1 l2 a b Hpre Hl1 Hl2 Ha Hb Hfree Hslot derived Hlow.
    eapply (try_pair_rejected ure inheritance_rule target i j st pi pj Hi Hj
              (Ptr (length (heap (mem st)))) _ _ Hpre).
    + simpl.
      rewrite (inheritance_conclusion_spec (mem st) [pi; pj] 2 pi pj a b l1 l2
                 Hpre eq_refl eq_refl Hl1 Hl2 Ha Hb).
      rewrite link_create_free by assumption. reflexivity.
    + apply (deref_app_new (heap (mem st))).
    + apply leb_swap_lt. exact Hlow.
Qed.

(** A [return] in the loop body ends every loop around it. *)
Lemma pair_visits_stop (ure : ggml_opencog_ure) (rule : ggml_opencog_inference_rule)
    (target : atom_ptr) (i : Z) (fuel : nat) (j : Z) (st : chain_state)
    (j' : Z) (st' : chain_state) (n : Z) (m' : memory) :
  pair_visits ure rule target i fuel j st j' st' ->
  ure_try_pair ure rule target i j' st' = Stop n m' ->
  ure_pair_loop fuel ure rule target i j st = Stop n m'.
Proof.
  induction 1 as [fuel j st Hj|fuel j st st1 j' st' Hj Hstep _ IH]; intros Hstop;
    cbn [ure_pair_loop];
    replace (j <? n_atoms (space (mem st))) with true
      by (symmetry; apply Z.ltb_lt; exact Hj).
  - rewrite Hstop. reflexivity.
  - rewrite Hstep. exact (IH Hstop).
Qed.

Lemma atom_visits_stop (ure : ggml_opencog_ure) (rule : ggml_opencog_inference_rule)
    (target : atom_ptr) (scan fuel : nat) (i : Z) (st : chain_state)
    (i' j' : Z) (st' : chain_state) (n : Z) (m' : memory) :
  atom_visits ure rule target scan fuel i st i' j' st' ->
  ure_try_pair ure rule target i' j' st' = Stop n m' ->
  ure_atom_loop scan fuel ure rule target i st = Stop n m'.
Proof.
  induction 1 as [fuel i st j' st' Hi Hrow|fuel i st st1 i' j' st' Hi Hrow _ IH];
    intros Hstop; cbn [ure_atom_loop];
    replace (i <? n_atoms (space (mem st))) with true
      by (symmetry; apply Z.ltb_lt; exact Hi).
  - rewrite (pair_visits_stop _ _ _ _ _ _ _ _ _ _ _ Hrow Hstop). reflexivity.
  - rewrite Hrow. exact (IH Hstop).
Qed.

Lemma rule_visits_stop (ure : ggml_opencog_ure) (target : atom_ptr) (scan : nat)
    (todo : list ggml_opencog_inference_rule) (st : chain_state)
    (rule : ggml_opencog_inference_rule) (i j : Z) (st' : chain_state)
    (n : Z) (m' : memory) :
  rule_visits ure target scan todo st rule i j st' ->
  ure_try_pair ure rule target i j st' = Stop n m' ->
  ure_rule_loop scan ure target todo st = Stop n m'.
Proof.
  induction 1 as [rule todo st i j st' Hrows|rule todo st st1 rule' i j st' Hrows _ IH];
    intros Hstop; cbn [ure_rule_loop].
  - rewrite (atom_visits_stop _ _ _ _ _ _ _ _ _ _ _ _ Hrows Hstop). reflexivity.
  - rewrite Hrows. exact (IH Hstop).
Qed.

Lemma iter_visits_stop (ure : ggml_opencog_ure) (target : atom_ptr)
    (scan passes : nat) (iter : Z) (m : memory) (made : Z)
    (rule : ggml_opencog_inference_rule) (i j : Z) (st' : chain_state)
    (n : Z) (m' : memory) :
  iter_visits ure target scan passes iter m made rule i j st' ->
  ure_try_pair ure rule target i j st' = Stop n m' ->
  ure_iter_loop passes scan ure target iter m made = Stop n m'.
Proof.
  induction 1 as [passes iter m made rule i j st' Hit Hpass
                 |passes iter m made st1 rule i j st' Hit Hpass Hmade _ IH];
    intros Hstop; cbn [ure_iter_loop];
    replace (iter <? max_iterations ure) with true
      by (symmetry; apply Z.ltb_lt; exact Hit).
  - rewrite (rule_visits_stop _ _ _ _ _ _ _ _ _ _ _ Hpass Hstop). reflexivity.
  - rewrite Hpass. cbn [mbind flow_bind]. rewrite Hmade. exact (IH Hstop).
Qed.

(** C2, as amended.  When, in a run of [ggml_opencog_ure_forward_chain],
    a rule's conclusion call produces the non-null target and the
    target's confidence is at least [min_confidence], the function
    returns at once with the count of accepted inferences including this
    one (the counter incremented once more), and with the memory as the
    conclusion call left it; nothing of the rest of the scan is run.
    When the confidence is below the threshold the target is not
    recognised: the body falls through and the scan continues. *)
Theorem accepted_target_stops_chain
    (passes scan : nat) (ure : ggml_opencog_ure) (target : atom_ptr) (m : memory)
    (rule : ggml_opencog_inference_rule) (i j : Z) (st : chain_state)
    (pi pj : atom_ptr) (m' : memory) (ca : ggml_opencog_atom) :
  target <> NULL ->
  chain_visits passes scan ure target m rule i j st ->
  read (atoms (space (mem st))) i = Some pi ->
  read (atoms (space (mem st))) j = Some pj ->
  precondition rule (mem st) [pi; pj] 2 = Some true ->
  conclusion rule (mem st) [pi; pj] 2 = Some (target, m') ->
  deref (heap m') target = Some ca ->
  (F32.geb (confidence (tv ca)) (min_confidence ure) = true ->
     ggml_opencog_ure_forward_chain passes scan ure target m
       = Next (int_succ (inferences_made st), m')
     /\ ggml_opencog_ure_backward_chain passes scan ure target m
        = Next (int_succ (inferences_made st), m')
     /\ (INT_MIN <= inferences_made st < INT_MAX ->
         ggml_opencog_ure_forward_chain passes scan ure target m
           = Next (inferences_made st + 1, m')))
  /\ (F32.geb (confidence (tv ca)) (min_confidence ure) = false ->
        ure_try_pair ure rule target i j st =
          Next {| mem := m'; made_inference := made_inference st;
                  inferences_made := inferences_made st |}).
Proof.
  intros Hnn Hvisit Hi Hj Hpre Hconcl Hca. split.
  - intros Hhigh.
    assert (Hstep : ure_try_pair ure rule target i j st
                    = Stop (int_succ (inferences_made st)) m')
      by (eapply try_pair_target; eauto).
    assert (Hrun : ggml_opencog_ure_forward_chain passes scan ure target m
                   = Next (int_succ (inferences_made st), m')).
    { unfold ggml_opencog_ure_forward_chain.
      rewrite (iter_visits_stop _ _ _ _ _ _ _ _ _ _ _ _ _ Hvisit Hstep).
      reflexivity. }
    split; [exact Hrun|]. split; [exact Hrun|].
    intros Hsmall. rewrite Hrun, int_succ_small by exact Hsmall. reflexivity.
  - intros Hlow. eapply try_pair_rejected; eauto.
Qed.

(** ** More fuel never changes an outcome *)

Lemma pair_loop_more_fuel (ure : ggml_opencog_ure)
    (rule : ggml_opencog_inference_rule) (target : atom_ptr) (i : Z)
    (fuel : nat) :
  forall (fuel' : nat) (j : Z) (st : chain_state),
    (fuel <= fuel')%nat ->
    ure_pair_loop fuel ure rule target i j st <> Starve ->
    ure_pair_loop fuel' ure rule target i j st
      = ure_pair_loop fuel ure rule target i j st.
Proof.
  induction fuel as [|fuel IH]; intros fuel' j st Hle Hne;
    [exfalso; apply Hne; reflexivity|].
  destruct fuel' as [|fuel']; [lia|]. simpl in *.
  destruct (j <? n_atoms (space (mem st))); [|reflexivity].
  destruct (ure_try_pair ure rule target i j st) as [st'| | |]; simpl in *;
    try reflexivity.
  apply IH; [lia|exact Hne].
Qed.

Lemma atom_loop_more_fuel (ure : ggml_opencog_ure)
    (rule : ggml_opencog_inference_rule) (target : atom_ptr)
    (scan scan' : nat) (fuel : nat) :
  (scan <= scan')%nat ->
  forall (fuel' : nat) (i : Z) (st : chain_state),
    (fuel <= fuel')%nat ->
    ure_atom_loop scan fuel ure rule target i st <> Starve ->
    ure_atom_loop scan' fuel' ure rule target i st
      = ure_atom_loop scan fuel ure rule target i st.
Proof.
  intros Hscan. induction fuel as [|fuel IH]; intros fuel' i st Hle Hne;
    [exfalso; apply Hne; reflexivity|].
  destruct fuel' as [|fuel']; [lia|]. simpl in *.
  destruct (i <? n_atoms (space (mem st))); [|reflexivity].
  assert (Hin : ure_pair_loop scan ure rule target i (i + 1) st <> Starve).
  { intros E. rewrite E in Hne. apply Hne. reflexivity. }
  rewrite (pair_loop_more_fuel _ _ _ _ _ _ _ _ Hscan Hin).
  destruct (ure_pair_loop scan ure rule target i (i + 1) st) as [st'| | |];
    simpl in *; try reflexivity.
  apply IH; [lia|exact Hne].
Qed.

Lemma rule_loop_more_fuel (ure : ggml_opencog_ure) (target : atom_ptr)
    (scan scan' : nat) (todo : list ggml_opencog_inference_rule) :
  (scan <= scan')%nat ->
  forall st : chain_state,
    ure_rule_loop scan ure target todo st <> Starve ->
    ure_rule_loop scan' ure target todo st = ure_rule_loop scan ure target todo st.
Proof.
  intros Hscan. induction todo as [|rule todo IH]; intros st Hne; [reflexivity|].
  simpl in *.
  assert (Hin : ure_atom_loop scan scan ure rule target 0 st <> Starve).
  { intros E. rewrite E in Hne. apply Hne. reflexivity. }
  rewrite (atom_loop_more_fuel _ _ _ _ _ _ Hscan _ _ _ Hscan Hin).
  destruct (ure_atom_loop scan scan ure rule target 0 st) as [st'| | |];
    simpl in *; try reflexivity.
  apply IH. exact Hne.
Qed.

Lemma iter_loop_more_fuel (ure : ggml_opencog_ure) (target : atom_ptr)
    (scan scan' : nat) (passes : nat) :
  (scan <= scan')%nat ->
  forall (passes' : nat) (iter : Z) (m : memory) (made : Z),
    (passes <= passes')%nat ->
    ure_iter_loop passes scan ure target iter m made <> Starve ->
    ure_iter_loop passes' scan' ure target iter m made
      = ure_iter_loop passes scan ure target iter m made.
Proof.
  intros Hscan. induction passes as [|passes IH]; intros passes' iter m made Hle Hne;
    [exfalso; apply Hne; reflexivity|].
  destruct passes' as [|passes']; [lia|]. simpl in *.
  destruct (iter <? max_iterations ure); [|reflexivity].
  set (st0 := {| mem := m; made_inference := false; inferences_made := made |}) in *.
  assert (Hin : ure_rule_loop scan ure target (rules ure) st0 <> Starve).
  { intros E. rewrite E in Hne. apply Hne. reflexivity. }
  rewrite (rule_loop_more_fuel _ _ _ _ _ Hscan _ Hin).
  destruct (ure_rule_loop scan ure target (rules ure) st0) as [st'| | |];
    simpl in *; try reflexivity.
  destruct (made_inference st'); simpl in *; [|reflexivity].
  apply IH; [lia|exact Hne].
Qed.

(** ** Termination of forward chaining *)

Lemma settled_weaken (good : memory -> Prop) (lo hi lo' hi' : Z)
    (r : flow chain_state) :
  settled good lo hi r -> lo' <= lo -> hi <= hi' -> settled good lo' hi' r.
Proof.
  destruct r as [st|n m| |]; simpl; try tauto; intros [Hg Hn] Hlo Hhi;
    (split; [exact Hg|exact (counted_weaken _ _ _ _ _ Hn Hlo Hhi)]).
Qed.

Lemma settled_bind (good : memory -> Prop) (lo mid hi : Z)
    (r : flow chain_state) (k : chain_state -> flow chain_state) :
  settled good lo mid r -> mid <= hi ->
  (forall st, good (mem st) -> counted lo mid (inferences_made st) ->
              settled good (inferences_made st) hi (k st)) ->
  settled good lo hi (r ≫= k).
Proof.
  destruct r as [st|n m| |]; simpl; try tauto.
  - intros [Hg Hn] Hhi Hk. specialize (Hk st Hg Hn).
    destruct (k st) as [st'|n' m'| |]; simpl in Hk |- *; try tauto;
      destruct Hk as [Hg' [Hr' Hn']]; (split; [exact Hg'|]);
      (split; [exact Hr'|]); intros Hmax; destruct Hn as [_ Hn];
      specialize (Hn ltac:(lia)); specialize (Hn' Hmax); lia.
  - intros [Hg Hn] Hhi _. split; [exact Hg|].
    apply (counted_weaken _ _ _ _ _ Hn); lia.
Qed.

Section forward_chain_terminates.
Variable ure : ggml_opencog_ure.

(** The memories the rules of [ure] are run on: a predicate that the
    conclusions preserve, under which at most [bound] atoms are in the
    space, every filled slot can be read, and the rules are defined. *)
Variable good : memory -> Prop.
Variable bound : nat.

Hypothesis good_bound : forall m, good m -> n_atoms (space m) <= Z.of_nat bound.

Hypothesis good_read : forall m i,
  good m -> 0 <= i < n_atoms (space m) -> is_Some (read (atoms (space m)) i).

Hypothesis good_precondition : forall rule m i j pi pj,
  rule ∈ rules ure -> good m -> 0 <= i < j -> j < n_atoms (space m) ->
  read (atoms (space m)) i = Some pi -> read (atoms (space m)) j = Some pj ->
  is_Some (precondition rule m [pi; pj] 2).

Hypothesis good_conclusion : forall rule m i j pi pj,
  rule ∈ rules ure -> good m -> 0 <= i < j -> j < n_atoms (space m) ->
  read (atoms (space m)) i = Some pi -> read (atoms (space m)) j = Some pj ->
  precondition rule m [pi; pj] 2 = Some true ->
  exists c m', conclusion rule m [pi; pj] 2 = Some (c, m') /\ good m'
               /\ (c = NULL \/ is_Some (deref (heap m') c)).

Lemma try_pair_settled (rule : ggml_opencog_inference_rule) (target : atom_ptr)
    (i j : Z) (st : chain_state) :
  rule ∈ rules ure -> good (mem st) ->
  INT_MIN <= inferences_made st <= INT_MAX -> 0 <= i < j ->
  j < n_atoms (space (mem st)) ->
  settled good (inferences_made st) (inferences_made st + 1)
          (ure_try_pair ure rule target i j st).
Proof.
  intros Hr Hg Hint Hij Hj.
  assert (Hsame : counted (inferences_made st) (inferences_made st + 1)
                          (inferences_made st))
    by (apply (counted_weaken _ _ _ _ _ (counted_same _ Hint)); lia).
  destruct (good_read (mem st) i Hg ltac:(lia)) as [pi Hpi].
  destruct (good_read (mem st) j Hg ltac:(lia)) as [pj Hpj].
  destruct (good_precondition rule (mem st) i j pi pj Hr Hg Hij Hj Hpi Hpj)
    as [[] Hpre].
  - destruct (good_conclusion rule (mem st) i j pi pj Hr Hg Hij Hj Hpi Hpj Hpre)
      as (c & m' & Hc & Hg' & Hderef).
    destruct Hderef as [-> | [ca Hca]].
    + erewrite try_pair_null by eauto. simpl. split; assumption.
    + destruct (F32.geb (confidence (tv ca)) (min_confidence ure)) eqn:Hconf.
      * destruct (decide (c = target)) as [Heq|Hne].
        { erewrite try_pair_target by eauto. simpl.
          split; [exact Hg'|apply counted_succ; exact Hint]. }
        { erewrite try_pair_accepted by eauto. simpl.
          split; [exact Hg'|apply counted_succ; exact Hint]. }
      * erewrite try_pair_rejected by eauto. simpl. split; assumption.
  - erewrite try_pair_unmet by eauto. simpl. split; assumption.
Qed.

Lemma pair_loop_settled (rule : ggml_opencog_inference_rule) (target : atom_ptr)
    (i : Z) (fuel : nat) :
  rule ∈ rules ure ->
  forall (j : Z) (st : chain_state),
    good (mem st) -> INT_MIN <= inferences_made st <= INT_MAX -> 0 <= i < j ->
    (0 < fuel)%nat -> Z.of_nat bound - j < Z.of_nat fuel ->
    settled good (inferences_made st)
            (inferences_made st + Z.max 0 (Z.of_nat bound - j))
            (ure_pair_loop fuel ure rule target i j st).
Proof.
  intros Hr. induction fuel as [|fuel IH]; intros j st Hg Hint Hij Hpos Hfuel; [lia|].
  pose proof (good_bound _ Hg) as Hb.
  simpl. destruct (j <? n_atoms (space (mem st))) eqn:Hj.
  - apply Z.ltb_lt in Hj.
    apply (settled_bind good _ (inferences_made st + 1));
      [apply try_pair_settled; assumption|lia|].
    intros st1 Hg1 [Hint1 Hn1].
    apply (settled_weaken _ _ _ _ _ _
             (IH (j + 1) st1 Hg1 Hint1 ltac:(lia) ltac:(lia) ltac:(lia))); lia.
  - simpl. split; [exact Hg|].
    apply (counted_weaken _ _ _ _ _ (counted_same _ Hint)); lia.
Qed.

Lemma atom_loop_settled (rule : ggml_opencog_inference_rule) (target : atom_ptr)
    (scan fuel : nat) :
  rule ∈ rules ure -> (bound < scan)%nat ->
  forall (i : Z) (st : chain_state),
    good (mem st) -> INT_MIN <= inferences_made st <= INT_MAX -> 0 <= i ->
    (0 < fuel)%nat -> Z.of_nat bound - i < Z.of_nat fuel ->
    settled good (inferences_made st)
            (inferences_made st + Z.max 0 (Z.of_nat bound - i) * Z.of_nat bound)
            (ure_atom_loop scan fuel ure rule target i st).
Proof.
  intros Hr Hscan. induction fuel as [|fuel IH]; intros i st Hg Hint Hi Hpos Hfuel;
    [lia|].
  pose proof (good_bound _ Hg) as Hb.
  simpl. destruct (i <? n_atoms (space (mem st))) eqn:Hlt.
  - apply Z.ltb_lt in Hlt.
    apply (settled_bind good _
             (inferences_made st + Z.max 0 (Z.of_nat bound - (i + 1))));
      [apply pair_loop_settled; (assumption || lia)|nia|].
    intros st1 Hg1 [Hint1 Hn1].
    apply (settled_weaken _ _ _ _ _ _
             (IH (i + 1) st1 Hg1 Hint1 ltac:(lia) ltac:(lia) ltac:(lia))); nia.
  - simpl. split; [exact Hg|].
    apply (counted_weaken _ _ _ _ _ (counted_same _ Hint)); nia.
Qed.

Lemma rule_loop_settled (target : atom_ptr) (scan : nat)
    (todo : list ggml_opencog_inference_rule) :
  (bound < scan)%nat -> (forall rule, rule ∈ todo -> rule ∈ rules ure) ->
  forall st : chain_state,
    good (mem st) -> INT_MIN <= inferences_made st <= INT_MAX ->
    settled good (inferences_made st)
            (inferences_made st
             + Z.of_nat (length todo) * (Z.of_nat bound * Z.of_nat bound))
            (ure_rule_loop scan ure target todo st).
Proof.
  intros Hscan. induction todo as [|rule todo IH]; intros Hsub st Hg Hint.
  - simpl. split; [exact Hg|].
    apply (counted_weaken _ _ _ _ _ (counted_same _ Hint)); lia.
  - cbn [ure_rule_loop].
    apply (settled_bind good _
             (inferences_made st + Z.of_nat bound * Z.of_nat bound)).
    + apply (settled_weaken _ _ _ _ _ _
               (atom_loop_settled rule target scan scan (Hsub rule ltac:(left)) Hscan
                  0 st Hg Hint ltac:(lia) ltac:(lia) ltac:(lia))); nia.
    + rewrite length_cons, Nat2Z.inj_succ. nia.
    + intros st1 Hg1 [Hint1 Hn1].
      apply (settled_weaken _ _ _ _ _ _
               (IH (fun r Hr => Hsub r ltac:(right; exact Hr)) st1 Hg1 Hint1)); [lia|].
      rewrite length_cons, Nat2Z.inj_succ. nia.
Qed.

Lemma iter_loop_settled (target : atom_ptr) (scan passes : nat) :
  (bound < scan)%nat ->
  forall (iter : Z) (m : memory) (made : Z),
    good m -> INT_MIN <= made <= INT_MAX -> (0 < passes)%nat ->
    max_iterations ure - iter < Z.of_nat passes ->
    settled_run good made
      (made + Z.max 0 (max_iterations ure - iter)
              * (Z.of_nat (length (rules ure)) * (Z.of_nat bound * Z.of_nat bound)))
      (ure_iter_loop passes scan ure target iter m made).
Proof.
  intros Hscan. induction passes as [|passes IH];
    intros iter m made Hg Hint Hpos Hfuel; [lia|].
  simpl. destruct (iter <? max_iterations ure) eqn:Hlt.
  - apply Z.ltb_lt in Hlt.
    pose proof (rule_loop_settled target scan (rules ure) Hscan (fun r Hr => Hr)
                  {| mem := m; made_inference := false; inferences_made := made |}
                  Hg Hint) as Hrun.
    destruct (ure_rule_loop scan ure target (rules ure) _) as [st'|n m'| |];
      simpl in Hrun |- *; try tauto.
    + destruct Hrun as [Hg' [Hint' Hn']]. destruct (made_inference st'); simpl.
      * specialize (IH (iter + 1) (mem st') (inferences_made st') Hg' Hint'
                       ltac:(lia) ltac:(lia)).
        destruct (ure_iter_loop passes scan ure target (iter + 1) (mem st')
                    (inferences_made st')) as [[n m']|n m'| |];
          simpl in IH |- *; try tauto; destruct IH as [Hg2 [Hint2 Hn2]];
          (split; [exact Hg2|]); (split; [exact Hint2|]); intros Hmax;
          specialize (Hn' ltac:(nia)); specialize (Hn2 ltac:(nia)); nia.
      * split; [exact Hg'|]. split; [exact Hint'|]. intros Hmax.
        specialize (Hn' ltac:(nia)). nia.
    + destruct Hrun as [Hg' [Hint' Hn']].
      split; [exact Hg'|]. split; [exact Hint'|]. intros Hmax.
      specialize (Hn' ltac:(nia)). nia.
  - simpl. split; [exact Hg|]. split; [exact Hint|]. intros _. nia.
Qed.

Lemma forward_chain_settled (target : atom_ptr) (m : memory) :
  good m ->
  exists (n : Z) (m' : memory),
    (forall passes scan : nat,
        Z.max 0 (max_iterations ure) < Z.of_nat passes -> (bound < scan)%nat ->
        ggml_opencog_ure_forward_chain passes scan ure target m = Next (n, m'))
    /\ good m'
    /\ counted 0 (most_inferences ure bound) n.
Proof.
  intros Hg.
  set (passes0 := S (Z.to_nat (max_iterations ure))).
  set (scan0 := S bound).
  pose proof (iter_loop_settled target scan0 passes0 ltac:(unfold scan0; lia) 0 m 0 Hg
                ltac:(unfold INT_MIN, INT_MAX; lia)
                ltac:(unfold passes0; lia) ltac:(unfold passes0; lia)) as Hrun.
  rewrite Z.sub_0_r in Hrun. fold (most_inferences ure bound) in Hrun.
  rewrite Z.add_0_l in Hrun.
  assert (Hfuel : forall passes scan : nat,
             Z.max 0 (max_iterations ure) < Z.of_nat passes -> (bound < scan)%nat ->
             ure_iter_loop passes scan ure target 0 m 0
             = ure_iter_loop passes0 scan0 ure target 0 m 0).
  { intros passes scan Hp Hs.
    apply (iter_loop_more_fuel ure target scan0 scan passes0);
      [unfold scan0; lia|unfold passes0; lia|].
    intros Hst. rewrite Hst in Hrun. exact Hrun. }
  destruct (ure_iter_loop passes0 scan0 ure target 0 m 0) as [[n m']|n m'| |] eqn:Hr;
    simpl in Hrun; try tauto; destruct Hrun as [Hg' Hn];
    exists n, m'; (split; [|split; [exact Hg'|exact Hn]]);
    intros passes scan Hp Hs; unfold ggml_opencog_ure_forward_chain;
    rewrite (Hfuel passes scan Hp Hs); reflexivity.
Qed.







(** X12.  For an engine whose rules are defined on the memories they are
    run on and keep at most [bound] atoms in the space, forward chaining
    towards any target, and backward chaining for any query, return:
    [max_iterations + 1] tests of the outer loop condition suffice, more
    fuel gives the same result, the two functions agree and the memory
    left satisfies the rules' contract again.  The count is an [int], and
    it is between 0 and [most_inferences] when [most_inferences] is at
    most [INT_MAX], so that no increment overflows. *)
Theorem chaining_with_target_returns (target : atom_ptr) (m : memory) :
  good m ->
  exists (n : Z) (m' : memory),
    (forall passes scan : nat,
        Z.max 0 (max_iterations ure) < Z.of_nat passes -> (bound < scan)%nat ->
        ggml_opencog_ure_forward_chain passes scan ure target m = Next (n, m')
        /\ ggml_opencog_ure_backward_chain passes scan ure target m = Next (n, m'))
    /\ good m'
    /\ INT_MIN <= n <= INT_MAX
    /\ (most_inferences ure bound <= INT_MAX ->
        0 <= n <= most_inferences ure bound).
Proof.
  intros Hg.
  destruct (forward_chain_settled target m Hg) as (n & m' & Hrun & Hg' & Hint & Hn).
  exists n, m'. split; [|split; [exact Hg'|split; [exact Hint|exact Hn]]].
  intros passes scan Hp Hs. unfold ggml_opencog_ure_backward_chain.
  split; apply Hrun; assumption.
Qed.
End forward_chain_terminates.

(** ** The two rules keep memories well formed *)

Lemma Forall_impl_alt {A : Type} (P Q : A -> Prop) (l : list A) :
  Forall P l -> (forall x, P x -> Q x) -> Forall Q l.
Proof. intros H HPQ. induction H; constructor; auto. Qed.

Lemma ptr_ok_lt (h : list ggml_opencog_atom) (p : atom_ptr) :
  ptr_ok h p <-> exists a, p = Ptr a /\ (a < length h)%nat.
Proof.
  unfold ptr_ok. destruct p as [|a]; simpl.
  - split; [intros [x Hx]; discriminate Hx|intros (a & Ha & _); discriminate Ha].
  - rewrite lookup_lt_is_Some. split; [eauto|].
    intros (b & [= <-] & Hb). exact Hb.
Qed.

Lemma ptr_ok_length (h h' : list ggml_opencog_atom) (p : atom_ptr) :
  (length h <= length h')%nat -> ptr_ok h p -> ptr_ok h' p.
Proof.
  intros Hle. rewrite !ptr_ok_lt. intros (a & -> & Ha). exists a. split; [reflexivity|lia].
Qed.

Lemma atom_ok_length (h h' : list ggml_opencog_atom) (x : ggml_opencog_atom) :
  (length h <= length h')%nat -> atom_ok h x -> atom_ok h' x.
Proof.
  intros Hle [Hn Hout]. split; [exact Hn|].
  apply (Forall_impl_alt _ _ _ Hout). intros p. apply ptr_ok_length. exact Hle.
Qed.

Lemma read_lookup {A : Type} (arr : list A) (i : Z) :
  0 <= i -> read arr i = arr !! Z.to_nat i.
Proof.
  intros Hi. unfold read.
  replace (i <? 0) with false by (symmetry; apply Z.ltb_ge; lia). reflexivity.
Qed.

Lemma read_is_Some {A : Type} (arr : list A) (i : Z) :
  0 <= i < Z.of_nat (length arr) -> is_Some (read arr i).
Proof.
  intros Hi. rewrite read_lookup by lia. apply lookup_lt_is_Some. lia.
Qed.

Lemma mem_wf_read (m : memory) (i : Z) :
  mem_wf m -> 0 <= i < n_atoms (space m) ->
  exists p, read (atoms (space m)) i = Some p /\ ptr_ok (heap m) p.
Proof.
  intros (Hn & _ & Hat & _) Hi.
  destruct (read_is_Some (atoms (space m)) i ltac:(lia)) as [p Hp].
  exists p. split; [exact Hp|].
  rewrite read_lookup in Hp by lia.
  rewrite Forall_lookup in Hat. apply (Hat (Z.to_nat i)).
  rewrite lookup_take_lt by lia. exact Hp.
Qed.

Lemma atom_ok_read (h : list ggml_opencog_atom) (x : ggml_opencog_atom) (k : Z) :
  atom_ok h x -> 0 <= k < n_outgoing x ->
  exists p, read (outgoing x) k = Some p /\ ptr_ok h p.
Proof.
  intros [Hn Hout] Hk.
  destruct (read_is_Some (outgoing x) k ltac:(lia)) as [p Hp].
  exists p. split; [exact Hp|].
  rewrite read_lookup in Hp by lia.
  rewrite Forall_lookup in Hout. exact (Hout _ _ Hp).
Qed.

Lemma mem_wf_deref (m : memory) (p : atom_ptr) (x : ggml_opencog_atom) :
  mem_wf m -> deref (heap m) p = Some x -> atom_ok (heap m) x.
Proof.
  intros (_ & _ & _ & Hheap) Hx. destruct p as [|a]; [discriminate Hx|].
  rewrite Forall_lookup in Hheap. exact (Hheap _ _ Hx).
Qed.

Lemma modus_ponens_precondition_total (m : memory) (pi pj : atom_ptr) :
  mem_wf m -> ptr_ok (heap m) pj ->
  is_Some (ggml_opencog_rule_modus_ponens_precondition m [pi; pj] 2).
Proof.
  intros Hwf [imp Himp].
  unfold ggml_opencog_rule_modus_ponens_precondition. simpl. rewrite Himp. simpl.
  case_bool_decide; simpl; [|eauto].
  destruct (n_outgoing imp =? 2) eqn:Hn; simpl; [|eauto]. apply Z.eqb_eq in Hn.
  destruct (atom_ok_read _ imp 0 (mem_wf_deref _ _ _ Hwf Himp) ltac:(lia)) as (o & -> & _).
  simpl. eauto.
Qed.

Lemma inheritance_precondition_total (m : memory) (pi pj : atom_ptr) :
  mem_wf m -> ptr_ok (heap m) pi -> ptr_ok (heap m) pj ->
  is_Some (ggml_opencog_rule_inheritance_precondition m [pi; pj] 2).
Proof.
  intros Hwf [l1 Hl1] [l2 Hl2].
  unfold ggml_opencog_rule_inheritance_precondition. simpl. rewrite Hl1. simpl.
  case_bool_decide; simpl; [|eauto]. rewrite Hl2. simpl.
  case_bool_decide; simpl; [|eauto].
  destruct (n_outgoing l1 =? 2) eqn:Hn1; simpl; [|eauto]. apply Z.eqb_eq in Hn1.
  destruct (n_outgoing l2 =? 2) eqn:Hn2; simpl; [|eauto]. apply Z.eqb_eq in Hn2.
  destruct (atom_ok_read _ l1 1 (mem_wf_deref _ _ _ Hwf Hl1) ltac:(lia)) as (b & -> & _).
  destruct (atom_ok_read _ l2 0 (mem_wf_deref _ _ _ Hwf Hl2) ltac:(lia)) as (b' & -> & _).
  simpl. eauto.
Qed.

Lemma mem_wf_set_tv (m : memory) (a : nat) (qa : ggml_opencog_atom)
    (t : ggml_opencog_truth_value) :
  mem_wf m -> heap m !! a = Some qa ->
  mem_wf {| heap := <[a := set_tv qa t]> (heap m); space := space m |}.
Proof.
  intros (Hn & Hcap & Hat & Hheap) Hqa. unfold mem_wf. simpl.
  split; [exact Hn|]. split; [exact Hcap|]. split.
  - apply (Forall_impl_alt _ _ _ Hat). intros p. apply ptr_ok_length.
    rewrite length_insert. lia.
  - apply Forall_insert.
    + apply (Forall_impl_alt _ _ _ Hheap). intros x. apply atom_ok_length.
      rewrite length_insert. lia.
    + rewrite Forall_lookup in Hheap. specialize (Hheap _ _ Hqa).
      apply (atom_ok_length (heap m)); [rewrite length_insert; lia|]. exact Hheap.
Qed.

Lemma modus_ponens_conclusion_total (m : memory) (pi pj : atom_ptr) :
  mem_wf m -> ptr_ok (heap m) pi ->
  ggml_opencog_rule_modus_ponens_precondition m [pi; pj] 2 = Some true ->
  exists c m', ggml_opencog_rule_modus_ponens_conclusion m [pi; pj] 2 = Some (c, m')
    /\ mem_wf m' /\ length (atoms (space m')) = length (atoms (space m))
    /\ (c = NULL \/ ptr_ok (heap m') c).
Proof.
  intros Hwf [pa Hpa] Hpre.
  destruct (modus_ponens_precondition_true _ _ _ Hpre)
    as (_ & p & implication & imp & H0 & H1 & Himp & _ & Hn & _).
  injection H0 as <-. injection H1 as <-.
  destruct (atom_ok_read _ imp 1 (mem_wf_deref _ _ _ Hwf Himp) ltac:(lia))
    as (q & Hq & Hqok).
  pose proof Hqok as [qa Hqa]. destruct q as [|a]; [discriminate Hqa|].
  eexists _, _. split.
  { eapply modus_ponens_conclusion_spec; eauto; reflexivity. }
  split; [apply mem_wf_set_tv; assumption|]. split; [reflexivity|].
  right. eapply ptr_ok_length; [|exact Hqok]. simpl. rewrite length_insert. lia.
Qed.

Lemma mem_wf_new_link (m : memory) (x : ggml_opencog_atom) :
  mem_wf m -> atom_ok (heap m) x -> n_atoms (space m) < capacity (space m) ->
  mem_wf {| heap := heap m ++ [x];
            space := {| atoms := <[Z.to_nat (n_atoms (space m)) :=
                                     Ptr (length (heap m))]> (atoms (space m));
                        n_atoms := n_atoms (space m) + 1;
                        capacity := capacity (space m);
                        embedding_dim := embedding_dim (space m) |} |}.
Proof.
  intros (Hn & Hcap & Hat & Hheap) Hx Hfree. unfold mem_wf. simpl.
  rewrite length_insert.
  assert (Hlen : (length (heap m) <= length (heap m ++ [x]))%nat)
    by (rewrite length_app; lia).
  split; [lia|]. split; [exact Hcap|]. split.
  - rewrite Forall_lookup. intros i p Hp.
    destruct (decide (i = Z.to_nat (n_atoms (space m)))) as [->|Hne].
    + rewrite lookup_take_lt in Hp by lia.
      rewrite list_lookup_insert_eq in Hp by lia. injection Hp as <-.
      apply ptr_ok_lt. exists (length (heap m)). split; [reflexivity|].
      rewrite length_app. simpl. lia.
    + assert (Hi : (i < Z.to_nat (n_atoms (space m) + 1))%nat).
      { destruct (decide (i < Z.to_nat (n_atoms (space m) + 1))%nat) as [|Hge];
          [assumption|].
        rewrite lookup_take_ge in Hp by lia. discriminate Hp. }
      rewrite lookup_take_lt in Hp by lia.
      rewrite list_lookup_insert_ne in Hp by congruence.
      apply (ptr_ok_length (heap m)); [exact Hlen|].
      rewrite Forall_lookup in Hat. apply (Hat i).
      rewrite lookup_take_lt by lia. exact Hp.
  - apply Forall_app. split.
    + apply (Forall_impl_alt _ _ _ Hheap). intros y. apply atom_ok_length. exact Hlen.
    + apply Forall_singleton. apply (atom_ok_length (heap m)); assumption.
Qed.

Lemma inheritance_conclusion_total (m : memory) (pi pj : atom_ptr) :
  mem_wf m ->
  ggml_opencog_rule_inheritance_precondition m [pi; pj] 2 = Some true ->
  exists c m', ggml_opencog_rule_inheritance_conclusion m [pi; pj] 2 = Some (c, m')
    /\ mem_wf m' /\ length (atoms (space m')) = length (atoms (space m))
    /\ (c = NULL \/ ptr_ok (heap m') c).
Proof.
  intros Hwf Hpre.
  destruct (inheritance_precondition_true _ _ _ Hpre)
    as (_ & inh1 & inh2 & l1 & l2 & b & H0 & H1 & Hl1 & Hl2 & _ & _ & Hn1 & Hn2 & _).
  destruct (atom_ok_read _ l1 0 (mem_wf_deref _ _ _ Hwf Hl1) ltac:(lia))
    as (a & Ha & Haok).
  destruct (atom_ok_read _ l2 1 (mem_wf_deref _ _ _ Hwf Hl2) ltac:(lia))
    as (c & Hc & Hcok).
  rewrite (inheritance_conclusion_spec m _ _ _ _ _ _ _ _ Hpre H0 H1 Hl1 Hl2 Ha Hc).
  destruct (Z_ge_dec (n_atoms (space m)) (capacity (space m))) as [Hfull|Hfree].
  - rewrite link_create_full by exact Hfull.
    exists NULL, m. split; [reflexivity|]. split; [exact Hwf|]. split; [reflexivity|].
    left. reflexivity.
  - pose proof Hwf as (Hn & Hcap & _).
    rewrite link_create_free by lia.
    eexists _, _. split; [reflexivity|]. split.
    { apply mem_wf_new_link; [exact Hwf| |lia].
      split; simpl; [lia|]. repeat constructor; assumption. }
    split; [simpl; apply length_insert|].
    right. apply ptr_ok_lt. eexists. split; [reflexivity|]. simpl.
    rewrite length_app. simpl. lia.
Qed.

(** The contract of the termination theorem, for engines whose rules are
    the two of the source. *)
Section builtin_rules.
Variables (ure : ggml_opencog_ure) (bound : nat).
Hypothesis only_builtin :
  forall rule, rule ∈ rules ure ->
               rule = modus_ponens_rule \/ rule = inheritance_rule.

Lemma builtin_bound (m : memory) :
  well_formed_within bound m -> n_atoms (space m) <= Z.of_nat bound.
Proof. intros [(Hn & _) <-]. lia. Qed.

Lemma builtin_read (m : memory) (i : Z) :
  well_formed_within bound m -> 0 <= i < n_atoms (space m) ->
  is_Some (read (atoms (space m)) i).
Proof. intros [Hwf _] Hi. destruct (mem_wf_read m i Hwf Hi) as (p & -> & _). eauto. Qed.

Lemma builtin_ptr (m : memory) (i : Z) (p : atom_ptr) :
  mem_wf m -> 0 <= i < n_atoms (space m) ->
  read (atoms (space m)) i = Some p -> ptr_ok (heap m) p.
Proof.
  intros Hwf Hi Hp. destruct (mem_wf_read m i Hwf Hi) as (p' & Hp' & Hok). congruence.
Qed.

Lemma builtin_precondition (rule : ggml_opencog_inference_rule) (m : memory)
    (i j : Z) (pi pj : atom_ptr) :
  rule ∈ rules ure -> well_formed_within bound m -> 0 <= i < j ->
  j < n_atoms (space m) ->
  read (atoms (space m)) i = Some pi -> read (atoms (space m)) j = Some pj ->
  is_Some (precondition rule m [pi; pj] 2).
Proof.
  intros Hr [Hwf _] Hij Hj Hpi Hpj.
  pose proof (builtin_ptr m i pi Hwf ltac:(lia) Hpi).
  pose proof (builtin_ptr m j pj Hwf ltac:(lia) Hpj).
  destruct (only_builtin rule Hr) as [-> | ->]; simpl.
  - apply modus_ponens_precondition_total; assumption.
  - apply inheritance_precondition_total; assumption.
Qed.

Lemma builtin_conclusion (rule : ggml_opencog_inference_rule) (m : memory)
    (i j : Z) (pi pj : atom_ptr) :
  rule ∈ rules ure -> well_formed_within bound m -> 0 <= i < j ->
  j < n_atoms (space m) ->
  read (atoms (space m)) i = Some pi -> read (atoms (space m)) j = Some pj ->
  precondition rule m [pi; pj] 2 = Some true ->
  exists c m', conclusion rule m [pi; pj] 2 = Some (c, m')
               /\ well_formed_within bound m'
               /\ (c = NULL \/ is_Some (deref (heap m') c)).
Proof.
  intros Hr [Hwf Hlen] Hij Hj Hpi Hpj Hpre.
  pose proof (builtin_ptr m i pi Hwf ltac:(lia) Hpi).
  destruct (only_builtin rule Hr) as [-> | ->]; simpl in *.
  - destruct (modus_ponens_conclusion_total m pi pj Hwf H Hpre)
      as (c & m' & Hc & Hwf' & Hlen' & Hok).
    exists c, m'. split; [exact Hc|]. split; [split; [exact Hwf'|congruence]|exact Hok].
  - destruct (inheritance_conclusion_total m pi pj Hwf Hpre)
      as (c & m' & Hc & Hwf' & Hlen' & Hok).
    exists c, m'. split; [exact Hc|]. split; [split; [exact Hwf'|congruence]|exact Hok].
Qed.
End builtin_rules.

(** C5 fails as stated: in a full space the premises A->B, B->C satisfy
    the precondition, yet the conclusion returns null and creates nothing;
    and from (0.9, 0.8) premises the derived strength and confidence are
    not the binary32 values of 0.81 and 0.576. *)
Lemma inheritance_conclusion_full_space :
  let m := inheritance_memory 5 tv_high in
  ggml_opencog_rule_inheritance_precondition m [Ptr 3; Ptr 4] 2 = Some true
  /\ ggml_opencog_rule_inheritance_conclusion m [Ptr 3; Ptr 4] 2 = Some (NULL, m)
  /\ F32.eqb (strength (inheritance_tv tv_high tv_high)) (F32.lit 81 100) = false
  /\ F32.eqb (confidence (inheritance_tv tv_high tv_high)) (F32.lit 576 1000) = false.
Proof. repeat split; vm_compute; reflexivity. Qed.

(** C5, as amended.  On premises [A->B, B->C] that satisfy the
    precondition the derived truth value has strength [s1 * s2],
    confidence [c1 * c2 * 0.9f] and count [fminf n1 n2] (for in-range
    premises, up to [==]).  When the space is full the conclusion returns
    null and changes nothing; when a slot is free it appends the new
    InheritanceLink A->C with that truth value and returns it.  From
    (0.9, 0.8, _) premises the strength is [0.9f * 0.9f] and the
    confidence [0.8f * 0.8f * 0.9f], within 1e-7 of 0.81 and 0.576. *)
Theorem inheritance_conclusion_derives
    (m : memory) (premises : list atom_ptr) (n_premises : Z)
    (inh1 inh2 a c : atom_ptr) (l1 l2 : ggml_opencog_atom) :
  ggml_opencog_rule_inheritance_precondition m premises n_premises = Some true ->
  read premises 0 = Some inh1 -> read premises 1 = Some inh2 ->
  deref (heap m) inh1 = Some l1 -> deref (heap m) inh2 = Some l2 ->
  read (outgoing l1) 0 = Some a -> read (outgoing l2) 1 = Some c ->
  let derived := inheritance_tv (tv l1) (tv l2) in
  (tv_in_range (tv l1) = true -> tv_in_range (tv l2) = true ->
     F32.eqb (strength derived) (F32.mul (strength (tv l1)) (strength (tv l2))) = true
     /\ F32.eqb (confidence derived)
          (F32.mul (F32.mul (confidence (tv l1)) (confidence (tv l2))) decay) = true
     /\ F32.eqb (count derived) (F32.fminf (count (tv l1)) (count (tv l2))) = true)
  /\ (n_atoms (space m) >= capacity (space m) ->
        ggml_opencog_rule_inheritance_conclusion m premises n_premises
          = Some (NULL, m))
  /\ (n_atoms (space m) < capacity (space m) ->
      0 <= n_atoms (space m) < Z.of_nat (length (atoms (space m))) ->
      exists m',
        ggml_opencog_rule_inheritance_conclusion m premises n_premises
          = Some (Ptr (length (heap m)), m')
        /\ heap m' = heap m ++ [derived_link l1 l2 a c]
        /\ n_atoms (space m') = n_atoms (space m) + 1
        /\ read (atoms (space m')) (n_atoms (space m)) = Some (Ptr (length (heap m))))
  /\ (forall n1 n2,
        let d := inheritance_tv (mk_tv (F32.lit 9 10) (F32.lit 8 10) n1)
                                (mk_tv (F32.lit 9 10) (F32.lit 8 10) n2) in
        strength d = F32.mul (F32.lit 9 10) (F32.lit 9 10)
        /\ F32.within (strength d) (81 # 100) tolerance = true
        /\ confidence d = F32.mul (F32.mul (F32.lit 8 10) (F32.lit 8 10)) (F32.lit 9 10)
        /\ F32.within (confidence d) (576 # 1000) tolerance = true).
Proof.
  intros Hpre H0 H1 Hl1 Hl2 Ha Hc derived.
  pose proof (inheritance_conclusion_spec m _ _ _ _ _ _ _ _ Hpre H0 H1 Hl1 Hl2 Ha Hc)
    as Hspec.
  split; [|split; [|split]].
  - intros R1 R2. apply inheritance_tv_fields; assumption.
  - intros Hfull. rewrite Hspec. apply link_create_full. exact Hfull.
  - intros Hfree Hslot. rewrite Hspec, link_create_free by assumption.
    eexists. split; [reflexivity|]. simpl. split; [reflexivity|]. split; [reflexivity|].
    rewrite read_lookup by lia. apply list_lookup_insert_eq. lia.
  - intros n1 n2. repeat split; vm_compute; reflexivity.
Qed.

(** C5 (amended) applied to A->B, B->C in a space with free slots. *)
Lemma inheritance_conclusion_derives_witness :
  let m := inheritance_memory 8 tv_high in
  ggml_opencog_rule_inheritance_precondition m [Ptr 3; Ptr 4] 2 = Some true
  /\ exists m',
       ggml_opencog_rule_inheritance_conclusion m [Ptr 3; Ptr 4] 2 = Some (Ptr 5, m')
       /\ n_atoms (space m') = 6.
Proof.
  split; [vm_compute; reflexivity|].
  destruct (inheritance_conclusion_derives (inheritance_memory 8 tv_high)
              [Ptr 3; Ptr 4] 2 (Ptr 3) (Ptr 4) (Ptr 0) (Ptr 2)
              (mk_atom OPENCOG_ATOM_INHERITANCE_LINK None tv_high [Ptr 0; Ptr 1] 2)
              (mk_atom OPENCOG_ATOM_INHERITANCE_LINK None tv_high [Ptr 1; Ptr 2] 2))
    as (_ & _ & Hfree & _); try (vm_compute; reflexivity).
  destruct Hfree as (m' & Hc & _ & Hn & _);
    [vm_compute; reflexivity|vm_compute; split; [discriminate|reflexivity]|].
  exists m'. split; [exact Hc|exact Hn].
Defined.

(** C6 fails as stated: the count of not((0.8, 0.9, x)) is not [x] for
    every count [x]; for x = -1 it is 0, because every operation builds
    its result with [ggml_opencog_tv_create], which stores
    [fmaxf(0, count)]. *)
Lemma tv_not_clamps_count :
  let t := mk_tv (F32.lit 8 10) (F32.lit 9 10) (F32.of_Z (-1)) in
  count (ggml_opencog_tv_not t) = F32.zero
  /\ F32.eqb (count (ggml_opencog_tv_not t)) (count t) = false.
Proof. split; vm_compute; reflexivity. Qed.

(** C6, as amended.  On the instances of the specification the
    operations return the binary32 values of their defining expressions:
    and gives (0.8f * 0.6f, 0.9f * 0.7f, 8), with strength within 1e-7 of
    0.48 and confidence exactly 0.63f; or has strength
    0.8f + 0.6f - 0.8f * 0.6f, within 1e-7 of 0.92, and confidence 0.7f;
    not((0.8, 0.9, x)) has strength 1 - 0.8f, within 1e-7 of 0.2,
    confidence 0.9f and, for every count [x >= 0], count [== x]. *)
Theorem tv_algebra_instances :
  ggml_opencog_tv_and tv_a tv_b
    = mk_tv (F32.mul (F32.lit 8 10) (F32.lit 6 10))
            (F32.mul (F32.lit 9 10) (F32.lit 7 10)) (F32.of_Z 8)
  /\ F32.within (strength (ggml_opencog_tv_and tv_a tv_b)) (48 # 100) tolerance = true
  /\ confidence (ggml_opencog_tv_and tv_a tv_b) = F32.lit 63 100
  /\ strength (ggml_opencog_tv_or tv_a tv_b)
       = F32.sub (F32.add (F32.lit 8 10) (F32.lit 6 10))
                 (F32.mul (F32.lit 8 10) (F32.lit 6 10))
  /\ F32.within (strength (ggml_opencog_tv_or tv_a tv_b)) (92 # 100) tolerance = true
  /\ confidence (ggml_opencog_tv_or tv_a tv_b) = F32.lit 7 10
  /\ (forall x : float,
        F32.nonneg x = true ->
        let r := ggml_opencog_tv_not (mk_tv (F32.lit 8 10) (F32.lit 9 10) x) in
        strength r = F32.sub F32.one (F32.lit 8 10)
        /\ F32.within (strength r) (2 # 10) tolerance = true
        /\ confidence r = F32.lit 9 10
        /\ F32.eqb (count r) x = true).
Proof.
  repeat split; try (vm_compute; reflexivity).
  unfold ggml_opencog_tv_not, ggml_opencog_tv_create. simpl.
  apply clamp_nonneg_id. assumption.
Qed.

(** C6 (amended) applied to the count 5. *)
Lemma tv_algebra_instances_witness :
  F32.nonneg (F32.of_Z 5) = true
  /\ F32.eqb (count (ggml_opencog_tv_not tv_a)) (F32.of_Z 5) = true.
Proof.
  split; [vm_compute; reflexivity|].
  destruct tv_algebra_instances as (_ & _ & _ & _ & _ & _ & Hnot).
  apply (Hnot (F32.of_Z 5)). vm_compute; reflexivity.
Defined.

(** C4 fails as stated: P and Q were created with strength 2 (creation
    stores a truth value as it is given) and P->Q with (1, 1, 1).  The
    premises satisfy the precondition and the product of the strengths
    is 2, but the derived strength is 1, and the conclusion leaves Q with
    strength 1, where the OR-combination with a derived strength of 2
    would give 0. *)
Lemma modus_ponens_derived_is_clamped :
  let m := unclamped_memory in
  let m' := memory_after modus_ponens_rule m [Ptr 0; Ptr 2] in
  deref (heap m) (Ptr 0)
    = Some (mk_atom OPENCOG_ATOM_CONCEPT_NODE (Some "P"%string) tv_raw [] 0)
  /\ deref (heap m) (Ptr 1)
     = Some (mk_atom OPENCOG_ATOM_CONCEPT_NODE (Some "Q"%string) tv_raw [] 0)
  /\ deref (heap m) (Ptr 2)
     = Some (mk_atom OPENCOG_ATOM_IMPLICATION_LINK None tv_sure [Ptr 0; Ptr 1] 2)
  /\ ggml_opencog_rule_modus_ponens_precondition m [Ptr 0; Ptr 2] 2 = Some true
  /\ F32.mul (strength tv_raw) (strength tv_sure) = F32.of_Z 2
  /\ strength (modus_ponens_tv tv_raw tv_sure) = F32.one
  /\ F32.eqb (strength (modus_ponens_tv tv_raw tv_sure))
             (F32.mul (strength tv_raw) (strength tv_sure)) = false
  /\ concluded modus_ponens_rule m [Ptr 0; Ptr 2] = Ptr 1
  /\ tv <$> deref (heap m') (Ptr 1) = Some (mk_tv F32.one F32.one F32.one)
  /\ ggml_opencog_tv_or tv_raw
       (mk_tv (F32.mul (strength tv_raw) (strength tv_sure))
              (F32.mul (confidence tv_raw) (confidence tv_sure))
              (F32.fminf (count tv_raw) (count tv_sure)))
     = mk_tv F32.zero F32.one F32.one.
Proof. repeat split; vm_compute; reflexivity. Qed.

(** C4 (amended) applied to P, P->Q of the sample knowledge base, all of
    truth value (0.9, 0.8, 10): Q is left with strength
    0.9f + 0.81f - 0.9f * 0.81f, confidence 0.8f * 0.8f and count 10. *)
Lemma modus_ponens_conclusion_merges_witness :
  let m := implication_memory tv_high in
  ggml_opencog_rule_modus_ponens_precondition m [Ptr 0; Ptr 2] 2 = Some true
  /\ exists m',
       ggml_opencog_rule_modus_ponens_conclusion m [Ptr 0; Ptr 2] 2 = Some (Ptr 1, m')
       /\ deref (heap m) (Ptr 1)
          = Some (mk_atom OPENCOG_ATOM_CONCEPT_NODE (Some "Q"%string)
                    (mk_tv (S754_finite false 15099494 (-24))
                           (S754_finite false 13421773 (-24))
                           (S754_finite false 10485760 (-20))) [] 0)
       /\ deref (heap m') (Ptr 1)
          = Some (mk_atom OPENCOG_ATOM_CONCEPT_NODE (Some "Q"%string)
                    (mk_tv (S754_finite false 16458449 (-24))
                           (S754_finite false 10737419 (-24))
                           (S754_finite false 10485760 (-20))) [] 0)
       /\ (forall r, r <> Ptr 1 -> deref (heap m') r = deref (heap m) r)
       /\ space m' = space m.
Proof.
  split; [vm_compute; reflexivity|].
  destruct (modus_ponens_conclusion_merges (implication_memory tv_high)
              [Ptr 0; Ptr 2] 2 (Ptr 0) (Ptr 2)
              (mk_atom OPENCOG_ATOM_CONCEPT_NODE (Some "P"%string) tv_high [] 0)
              (mk_atom OPENCOG_ATOM_IMPLICATION_LINK None tv_high [Ptr 0; Ptr 1] 2)
              (mk_atom OPENCOG_ATOM_CONCEPT_NODE (Some "Q"%string) tv_high [] 0)
              1%nat)
    as (Hc & _); try (vm_compute; reflexivity).
  eexists. split; [exact Hc|].
  split; [vm_compute; reflexivity|]. split; [vm_compute; reflexivity|].
  split; [|reflexivity].
  intros r Hr. apply deref_insert_ne. exact Hr.
Defined.

(** C10 applied to three requests on a space of two slots. *)
Lemma n_atoms_bounded_by_capacity_witness :
  exists m', create_all (fresh_memory [] 2 32)
               [Create_atom OPENCOG_ATOM_CONCEPT_NODE "A" tv_high;
                Create_atom OPENCOG_ATOM_CONCEPT_NODE "B" tv_high;
                Create_atom OPENCOG_ATOM_CONCEPT_NODE "C" tv_high] = Some m'
             /\ n_atoms (space m') = 2.
Proof.
  destruct n_atoms_bounded_by_capacity as (_ & _ & Hfill).
  destruct (Hfill [] 2 32
              [Create_atom OPENCOG_ATOM_CONCEPT_NODE "A" tv_high;
               Create_atom OPENCOG_ATOM_CONCEPT_NODE "B" tv_high;
               Create_atom OPENCOG_ATOM_CONCEPT_NODE "C" tv_high])
    as (m' & Hall & Hn & _); [lia|repeat constructor|].
  exists m'. split; [exact Hall|exact Hn].
Defined.

(** C2 fails as stated: with P of confidence 0.1 the first conclusion
    call returns the target Q, whose confidence is then below the
    threshold; the step falls through, and the run goes on to count three
    inferences on S. *)
Lemma rejected_target_does_not_stop :
  let m := implication_memory tv_weak in
  let target := Ptr 1 in
  fst <$> conclusion modus_ponens_rule m [Ptr 0; Ptr 2] 2 = Some target
  /\ match ure_try_pair modus_ponens_engine modus_ponens_rule target 0 2
             {| mem := m; made_inference := false; inferences_made := 0 |} with
     | Next st => made_inference st = false /\ inferences_made st = 0
     | _ => False
     end
  /\ match ggml_opencog_ure_forward_chain 4 7 modus_ponens_engine target m with
     | Next (n, m') =>
         n = 3 /\ tv <$> deref (heap m') (Ptr 4) <> tv <$> deref (heap m) (Ptr 4)
     | _ => False
     end.
Proof.
  vm_compute. repeat split. discriminate.
Qed.

Lemma both_rules_builtin (rule : ggml_opencog_inference_rule) :
  rule ∈ rules both_rules_engine ->
  rule = modus_ponens_rule \/ rule = inheritance_rule.
Proof.
  change (rules both_rules_engine) with [modus_ponens_rule; inheritance_rule].
  intros H. apply elem_of_cons in H as [->|H]; [left; reflexivity|].
  apply elem_of_cons in H as [->|H]; [right; reflexivity|].
  inversion H.
Qed.






(** X12 applied to both rules of the source with S as the target. *)
Lemma chaining_with_target_returns_witness :
  let m := implication_memory tv_high in
  well_formed_within 8 m
  /\ exists n m',
       (forall passes scan : nat,
           Z.max 0 (max_iterations both_rules_engine) < Z.of_nat passes ->
           (8 < scan)%nat ->
           ggml_opencog_ure_forward_chain passes scan both_rules_engine (Ptr 4) m
             = Next (n, m')
           /\ ggml_opencog_ure_backward_chain passes scan both_rules_engine (Ptr 4) m
              = Next (n, m'))
       /\ well_formed_within 8 m'
       /\ INT_MIN <= n <= INT_MAX
       /\ (most_inferences both_rules_engine 8 <= INT_MAX ->
           0 <= n <= most_inferences both_rules_engine 8).
Proof.
  assert (Hgood : well_formed_within 8 (implication_memory tv_high)).
  { split; [apply (bool_decide_unpack _); vm_compute; exact I|reflexivity]. }
  split; [exact Hgood|].
  exact (chaining_with_target_returns both_rules_engine (well_formed_within 8) 8
           (builtin_bound 8) (builtin_read 8)
           (builtin_precondition both_rules_engine 8 both_rules_builtin)
           (builtin_conclusion both_rules_engine 8 both_rules_builtin)
           (Ptr 4) (implication_memory tv_high) Hgood).
Defined.

(** C3 applied to P of confidence 0.1 with P->Q, and to A->B, B->C of
    confidence 0.1: the body leaves the flag and the count as they were;
    Q's confidence has dropped from 0.8 to 0.08, and a link A->C of
    confidence 0.009 is in slot 5.  A whole run on the second memory
    returns 0 and leaves six atoms where there were five. *)
Lemma rejected_conclusion_still_mutates_witness :
  let st1 := {| mem := implication_memory tv_weak; made_inference := false;
                inferences_made := 0 |} in
  let st2 := {| mem := inheritance_memory 8 tv_weak; made_inference := false;
                inferences_made := 0 |} in
  (exists m',
      ure_try_pair modus_ponens_engine modus_ponens_rule NULL 0 2 st1
        = Next {| mem := m'; made_inference := false; inferences_made := 0 |}
      /\ tv <$> deref (heap (mem st1)) (Ptr 1)
         = Some (mk_tv (S754_finite false 15099494 (-24))
                       (S754_finite false 13421773 (-24))
                       (S754_finite false 10485760 (-20)))
      /\ tv <$> deref (heap m') (Ptr 1)
         = Some (mk_tv (S754_finite false 16458449 (-24))
                       (S754_finite false 10737419 (-27))
                       (S754_finite false 10485760 (-20))))
  /\ (exists m',
        ure_try_pair both_rules_engine inheritance_rule NULL 3 4 st2
          = Next {| mem := m'; made_inference := false; inferences_made := 0 |}
        /\ n_atoms (space (mem st2)) = 5 /\ n_atoms (space m') = 6
        /\ read (atoms (space m')) 5 = Some (Ptr 5)
        /\ deref (heap (mem st2)) (Ptr 5) = None
        /\ deref (heap m') (Ptr 5)
           = Some (mk_atom OPENCOG_ATOM_INHERITANCE_LINK None
                     (mk_tv (S754_finite false 13589544 (-24))
                            (S754_finite false 9663677 (-30))
                            (S754_finite false 8388608 (-23)))
                     [Ptr 0; Ptr 2] 2)
        /\ ggml_opencog_ure_forward_chain 6 9 both_rules_engine NULL (mem st2)
           = Next (0, m')).
Proof.
  split.
  - destruct (rejected_conclusion_still_mutates modus_ponens_engine NULL 0 2
                {| mem := implication_memory tv_weak; made_inference := false;
                   inferences_made := 0 |} (Ptr 0) (Ptr 2))
      as (_ & Hmp & _); try (vm_compute; reflexivity).
    eexists. split.
    + apply (Hmp (mk_atom OPENCOG_ATOM_CONCEPT_NODE (Some "P"%string) tv_weak [] 0)
                 (mk_atom OPENCOG_ATOM_IMPLICATION_LINK None tv_high [Ptr 0; Ptr 1] 2)
                 (mk_atom OPENCOG_ATOM_CONCEPT_NODE (Some "Q"%string) tv_high [] 0)
                 1%nat); vm_compute; reflexivity.
    + split; vm_compute; reflexivity.
  - destruct (rejected_conclusion_still_mutates both_rules_engine NULL 3 4
                {| mem := inheritance_memory 8 tv_weak; made_inference := false;
                   inferences_made := 0 |} (Ptr 3) (Ptr 4))
      as (_ & _ & Hinh); try (vm_compute; reflexivity).
    eexists. split.
    + apply (Hinh (mk_atom OPENCOG_ATOM_INHERITANCE_LINK None tv_weak [Ptr 0; Ptr 1] 2)
                  (mk_atom OPENCOG_ATOM_INHERITANCE_LINK None tv_weak [Ptr 1; Ptr 2] 2)
                  (Ptr 0) (Ptr 2)); try (vm_compute; reflexivity).
      vm_compute. split; [discriminate|reflexivity].
    + repeat split; vm_compute; reflexivity.
Defined.

(** C2 (amended) applied to P, P->Q, R, R->S with the target Q: the run
    calls modus ponens for the pair (P, P->Q) in its initial state, after
    the pair (P, Q) fell through, and returns 1; with a null target the
    same run counts 6 inferences. *)
Lemma accepted_target_stops_chain_witness :
  let m := implication_memory tv_high in
  let m' := memory_after modus_ponens_rule m [Ptr 0; Ptr 2] in
  let st := {| mem := m; made_inference := false; inferences_made := 0 |} in
  chain_visits 4 9 modus_ponens_engine (Ptr 1) m modus_ponens_rule 0 2 st
  /\ precondition modus_ponens_rule m [Ptr 0; Ptr 2] 2 = Some true
  /\ concluded modus_ponens_rule m [Ptr 0; Ptr 2] = Ptr 1
  /\ F32.geb (confidence (tv (atom_at m' (Ptr 1)))) (min_confidence modus_ponens_engine)
      = true
  /\ ggml_opencog_ure_forward_chain 4 9 modus_ponens_engine (Ptr 1) m = Next (1, m')
  /\ fst <$> (match ggml_opencog_ure_forward_chain 4 9 modus_ponens_engine NULL m with
              | Next r => Some r
              | _ => None
              end) = Some 6.
Proof.
  assert (Hvisit : chain_visits 4 9 modus_ponens_engine (Ptr 1)
                     (implication_memory tv_high) modus_ponens_rule 0 2
                     {| mem := implication_memory tv_high; made_inference := false;
                        inferences_made := 0 |}).
  { unfold chain_visits. apply iter_visits_pass; [reflexivity|].
    change (rules modus_ponens_engine) with [modus_ponens_rule].
    apply rule_visits_first. apply atom_visits_row; [reflexivity|].
    apply (pair_visits_later _ _ _ _ 8 1 _
             {| mem := implication_memory tv_high; made_inference := false;
                inferences_made := 0 |}); [reflexivity|vm_compute; reflexivity|].
    apply (pair_visits_here _ _ _ _ 7 2). reflexivity. }
  split; [exact Hvisit|].
  split; [vm_compute; reflexivity|]. split; [vm_compute; reflexivity|].
  split; [vm_compute; reflexivity|].
  split; [|vm_compute; reflexivity].
  refine (proj1 (proj1 (accepted_target_stops_chain 4 9 modus_ponens_engine (Ptr 1)
           (implication_memory tv_high) modus_ponens_rule 0 2
           {| mem := implication_memory tv_high; made_inference := false;
              inferences_made := 0 |}
           (Ptr 0) (Ptr 2)
           (memory_after modus_ponens_rule (implication_memory tv_high)
                         [Ptr 0; Ptr 2])
           (atom_at (memory_after modus_ponens_rule (implication_memory tv_high)
                                  [Ptr 0; Ptr 2]) (Ptr 1))
           ltac:(discriminate) Hvisit _ _ _ _ _) _));
    vm_compute; reflexivity.
Defined.

(** * Further properties of the AtomSpace, the algebra and the engine *)

(** ** Creation leaves what exists alone *)

Lemma create_new (m m' : memory) (c : creation) (p : atom_ptr) :
  create m c = Some (p, m') -> p <> NULL ->
  exists x,
    requested c x
    /\ p = Ptr (length (heap m))
    /\ heap m' = heap m ++ [x]
    /\ atoms (space m') = <[Z.to_nat (n_atoms (space m)) := p]> (atoms (space m))
    /\ n_atoms (space m') = n_atoms (space m) + 1
    /\ capacity (space m') = capacity (space m)
    /\ 0 <= n_atoms (space m) < Z.of_nat (length (atoms (space m)))
    /\ n_atoms (space m) < capacity (space m).
Proof.
  destruct c as [ty nm t|ty out k t]; simpl;
    unfold ggml_opencog_atom_create, ggml_opencog_link_create;
    destruct (n_atoms (space m) >=? capacity (space m)) eqn:Hfull;
    try (intros [= <- <-]; congruence);
    rewrite Z.geb_leb in Hfull; apply Z.leb_gt in Hfull.
  - destruct (append_atom (space m) (Ptr (length (heap m)))) as [s'|] eqn:Ha;
      simpl; [|discriminate].
    intros [= <- <-] _. apply append_atom_inv in Ha as (? & ? & ? & ? & ?).
    eexists. simpl. repeat split; try eassumption; try reflexivity; lia.
  - destruct (copy_outgoing out k) as [cp|] eqn:Hcp; simpl; [|discriminate].
    destruct (append_atom (space m) (Ptr (length (heap m)))) as [s'|] eqn:Ha;
      simpl; [|discriminate].
    intros [= <- <-] _. apply append_atom_inv in Ha as (? & ? & ? & ? & ?).
    eexists. simpl. repeat split; try eassumption; try reflexivity; lia.
Qed.

Lemma create_refused (m m' : memory) (c : creation) :
  create m c = Some (NULL, m') -> m' = m.
Proof.
  intros H. apply create_inv in H as [(_ & -> & _)|(Hp & _)]; [reflexivity|discriminate].
Qed.

Lemma deref_app_old (h : list ggml_opencog_atom) (x : ggml_opencog_atom)
    (q : atom_ptr) :
  ptr_ok h q -> deref (h ++ [x]) q = deref h q.
Proof.
  intros Hq. apply ptr_ok_lt in Hq as (a & -> & Ha). simpl.
  apply lookup_app_l. exact Ha.
Qed.

Lemma read_insert_ne {A : Type} (arr : list A) (k : nat) (x : A) (i : Z) :
  0 <= i -> Z.to_nat i <> k -> read (<[k := x]> arr) i = read arr i.
Proof.
  intros Hi Hne. rewrite !read_lookup by lia. apply list_lookup_insert_ne. congruence.
Qed.

Lemma create_frame (m m' : memory) (c : creation) (p : atom_ptr) :
  create m c = Some (p, m') ->
  (forall q, ptr_ok (heap m) q -> deref (heap m') q = deref (heap m) q)
  /\ (forall i, 0 <= i < n_atoms (space m) ->
        read (atoms (space m')) i = read (atoms (space m)) i).
Proof.
  intros H. destruct p as [|a].
  - apply create_refused in H. subst m'. split; reflexivity.
  - apply create_new in H as (x & _ & _ & Hh & Ha & _); [|discriminate].
    rewrite Hh, Ha. split.
    + intros q. apply deref_app_old.
    + intros i Hi. apply read_insert_ne; lia.
Qed.

(** ** Lookup by name *)

Lemma name_is_true (nm : string) (a : ggml_opencog_atom) :
  name_is nm a = true <-> name a = Some nm.
Proof.
  unfold name_is. destruct (name a) as [s|].
  - rewrite String.eqb_eq. split; congruence.
  - split; discriminate.
Qed.

Lemma name_is_false (nm : string) (a : ggml_opencog_atom) :
  name_is nm a = false <-> name a <> Some nm.
Proof.
  rewrite <- name_is_true. destruct (name_is nm a); split; congruence.
Qed.

Lemma mem_wf_slot (m : memory) (i : Z) :
  mem_wf m -> 0 <= i < n_atoms (space m) ->
  exists p a, read (atoms (space m)) i = Some p /\ deref (heap m) p = Some a.
Proof.
  intros Hwf Hi. destruct (mem_wf_read m i Hwf Hi) as (p & Hp & [a Ha]). eauto.
Qed.

(** What the scan of [todo] slots from [i] on returns. *)
Lemma atom_get_from_spec (m : memory) (nm : string) (todo : nat) :
  mem_wf m ->
  forall i : Z,
    0 <= i -> i + Z.of_nat todo <= n_atoms (space m) ->
    exists p,
      atom_get_from m nm i todo = Some p
      /\ ((p = NULL
           /\ forall k a, i <= k < i + Z.of_nat todo -> slot m k = Some a ->
                          name a <> Some nm)
          \/ exists k a,
               i <= k < i + Z.of_nat todo
               /\ read (atoms (space m)) k = Some p /\ deref (heap m) p = Some a
               /\ name a = Some nm
               /\ forall k' b, i <= k' < k -> slot m k' = Some b ->
                               name b <> Some nm).
Proof.
  intros Hwf. induction todo as [|todo IH]; intros i Hi Hle.
  - exists NULL. split; [reflexivity|]. left. split; [reflexivity|]. intros; lia.
  - destruct (mem_wf_slot m i Hwf ltac:(lia)) as (p & a & Hp & Ha).
    simpl. rewrite Hp. simpl. rewrite Ha. simpl.
    destruct (name_is nm a) eqn:Hnm.
    + exists p. split; [reflexivity|]. right. exists i, a.
      apply name_is_true in Hnm. repeat split; try assumption; try lia.
    + apply name_is_false in Hnm.
      assert (Hsl : forall b, slot m i = Some b -> name b <> Some nm).
      { intros b. unfold slot. rewrite Hp. simpl. rewrite Ha. intros [= <-]. exact Hnm. }
      destruct (IH (i + 1) ltac:(lia) ltac:(lia)) as (q & Hq & Hcase).
      exists q. split; [exact Hq|].
      destruct Hcase as [[-> Hall]|(k & b & Hk & Hrk & Hdk & Hnk & Hbefore)].
      * left. split; [reflexivity|]. intros k b Hk Hb.
        destruct (Z.eq_dec k i) as [->|]; [exact (Hsl b Hb)|].
        apply (Hall k b); [lia|exact Hb].
      * right. exists k, b. repeat split; try assumption; try lia.
        intros k' b' Hk' Hb'.
        destruct (Z.eq_dec k' i) as [->|]; [exact (Hsl b' Hb')|].
        apply (Hbefore k' b'); [lia|exact Hb'].
Qed.

(** Scanning [a + b] slots is scanning [a] and, if nothing was found, the
    next [b]. *)
Lemma atom_get_from_app (m : memory) (nm : string) (a b : nat) :
  forall i : Z,
    atom_get_from m nm i (a + b) =
      p ← atom_get_from m nm i a;
      if bool_decide (p = NULL) then atom_get_from m nm (i + Z.of_nat a) b
      else Some p.
Proof.
  induction a as [|a IH]; intros i.
  - simpl. rewrite Z.add_0_r. reflexivity.
  - simpl. destruct (read (atoms (space m)) i) as [p|]; simpl; [|reflexivity].
    destruct (deref (heap m) p) as [x|] eqn:Hx; simpl; [|reflexivity].
    destruct (name_is nm x).
    + simpl. rewrite bool_decide_eq_false_2; [reflexivity|].
      intros ->. discriminate Hx.
    + rewrite IH. replace (i + 1 + Z.of_nat a) with (i + Z.of_nat (S a)) by lia.
      reflexivity.
Qed.

(** The scan only looks at the scanned slots and at the names in them. *)
Lemma atom_get_from_ext (m m' : memory) (nm : string) (todo : nat) :
  forall i : Z,
    0 <= i ->
    (forall k, i <= k < i + Z.of_nat todo ->
       read (atoms (space m')) k = read (atoms (space m)) k) ->
    (forall k p, i <= k < i + Z.of_nat todo -> read (atoms (space m)) k = Some p ->
       name_is nm <$> deref (heap m') p = name_is nm <$> deref (heap m) p) ->
    atom_get_from m' nm i todo = atom_get_from m nm i todo.
Proof.
  induction todo as [|todo IH]; intros i Hi Hread Hname; [reflexivity|].
  simpl. rewrite (Hread i) by lia.
  destruct (read (atoms (space m)) i) as [p|] eqn:Hp; simpl; [|reflexivity].
  pose proof (Hname i p ltac:(lia) Hp) as Hn.
  destruct (deref (heap m') p) as [x'|], (deref (heap m) p) as [x|];
    simpl in Hn |- *; try discriminate Hn; [|reflexivity].
  injection Hn as ->. destruct (name_is nm x); [reflexivity|].
  apply IH; [lia| |].
  - intros k Hk. apply Hread. lia.
  - intros k q Hk Hq. apply (Hname k q); [lia|exact Hq].
Qed.

(** X1.  On a well-formed memory [ggml_opencog_atom_get] returns the atom
    of the first slot, in creation order, whose atom carries the name; it
    returns null exactly when no filled slot carries it. *)
Theorem atom_get_first_match (m : memory) (nm : string) :
  mem_wf m ->
  exists p,
    ggml_opencog_atom_get m nm = Some p
    /\ ((p = NULL
         /\ forall k a, 0 <= k < n_atoms (space m) -> slot m k = Some a ->
                        name a <> Some nm)
        \/ exists k a,
             0 <= k < n_atoms (space m)
             /\ read (atoms (space m)) k = Some p /\ deref (heap m) p = Some a
             /\ name a = Some nm
             /\ forall k' b, 0 <= k' < k -> slot m k' = Some b ->
                             name b <> Some nm).
Proof.
  intros Hwf. pose proof Hwf as ((Hn & _) & _).
  destruct (atom_get_from_spec m nm (Z.to_nat (n_atoms (space m))) Hwf 0
              ltac:(lia) ltac:(lia)) as (p & Hp & Hcase).
  exists p. split; [exact Hp|].
  rewrite Z2Nat.id in Hcase by lia. exact Hcase.
Qed.

(** X1 applied to the lookup of Q among P, Q, R, S. *)
Lemma atom_get_first_match_witness :
  mem_wf (implication_memory tv_high)
  /\ exists p, ggml_opencog_atom_get (implication_memory tv_high) "Q" = Some p.
Proof.
  assert (Hwf : mem_wf (implication_memory tv_high))
    by (apply (bool_decide_unpack _); vm_compute; exact I).
  split; [exact Hwf|].
  destruct (atom_get_first_match (implication_memory tv_high) "Q" Hwf) as (p & Hp & _).
  exists p. exact Hp.
Defined.

(** X2.  Lookup after a creation: a name that was found is still found at
    the same atom (the earliest atom wins among duplicates); a name that
    was missing is found at the new atom exactly when the call created a
    node of that name; links and refused calls change no lookup. *)
Theorem atom_get_after_create (m m' : memory) (c : creation) (p : atom_ptr)
    (nm : string) :
  mem_wf m -> create m c = Some (p, m') ->
  exists q,
    ggml_opencog_atom_get m nm = Some q
    /\ ggml_opencog_atom_get m' nm
       = Some (if bool_decide (q = NULL) && names c nm then p else q).
Proof.
  intros Hwf Hc. pose proof Hwf as ((Hn & _) & _).
  destruct (atom_get_from_spec m nm (Z.to_nat (n_atoms (space m))) Hwf 0
              ltac:(lia) ltac:(lia)) as (q & Hq & _).
  fold (ggml_opencog_atom_get m nm) in Hq.
  exists q. split; [exact Hq|].
  destruct p as [|a].
  - apply create_refused in Hc. subst m'. rewrite Hq.
    destruct (bool_decide (q = NULL)) eqn:E; simpl; [|reflexivity].
    apply bool_decide_eq_true_1 in E. subst q. destruct (names c nm); reflexivity.
  - pose proof (create_frame _ _ _ _ Hc) as [Hderef Hread].
    apply create_new in Hc as (x & Hx & Hp & Hh & Ha & Hn' & _ & Hslot & _);
      [|discriminate].
    unfold ggml_opencog_atom_get in *. rewrite Hn'.
    replace (Z.to_nat (n_atoms (space m) + 1))
      with (Z.to_nat (n_atoms (space m)) + 1)%nat by lia.
    rewrite atom_get_from_app.
    rewrite (atom_get_from_ext m m' nm (Z.to_nat (n_atoms (space m))) 0); [|lia| |].
    + rewrite Hq. simpl. case_bool_decide as Hnull; simpl; [|reflexivity].
      rewrite Z.add_0_l, Z2Nat.id by lia.
      rewrite Ha, read_lookup, list_lookup_insert_eq by lia. simpl.
      injection Hp as ->. change (heap m' !! length (heap m)) with (deref (heap m') (Ptr (length (heap m)))).
      rewrite Hh, deref_app_new. simpl.
      assert (Hnm : name_is nm x = names c nm).
      { destruct c as [ty s t|ty out k t]; simpl in Hx |- *.
        - subst x. reflexivity.
        - destruct Hx as (_ & Hname & _). unfold name_is. rewrite Hname. reflexivity. }
      rewrite Hnm. destruct (names c nm); [reflexivity|]. congruence.
    + intros k Hk. apply Hread. lia.
    + intros k r Hk Hr. rewrite Hderef; [reflexivity|].
      destruct (mem_wf_read m k Hwf ltac:(lia)) as (r' & Hr' & Hok). congruence.
Qed.

(** X2 applied to the creation of a concept Z next to P, Q, R, S. *)
Lemma atom_get_after_create_witness :
  let m := implication_memory tv_high in
  let c := Create_atom OPENCOG_ATOM_CONCEPT_NODE "Z" tv_high in
  mem_wf m
  /\ exists q,
       ggml_opencog_atom_get m "Z" = Some q
       /\ ggml_opencog_atom_get (memory_created m c) "Z"
          = Some (if bool_decide (q = NULL) && names c "Z" then created m c else q).
Proof.
  assert (Hwf : mem_wf (implication_memory tv_high))
    by (apply (bool_decide_unpack _); vm_compute; exact I).
  split; [exact Hwf|].
  apply (atom_get_after_create (implication_memory tv_high) _ _ _ "Z" Hwf).
  vm_compute. reflexivity.
Defined.

Lemma requested_atom_ok (h : list ggml_opencog_atom) (c : creation)
    (x : ggml_opencog_atom) :
  request_ok h c -> requested c x -> atom_ok h x.
Proof.
  destruct c as [ty nm t|ty out k t]; simpl.
  - intros _ ->. split; simpl; [lia|constructor].
  - intros [Hk Hout] (_ & _ & _ & Hn & Hcp). unfold copy_outgoing in Hcp.
    unfold atom_ok. rewrite Hn.
    destruct (k <=? 0) eqn:H0.
    + injection Hcp as <-. apply Z.leb_le in H0. split; simpl; [lia|constructor].
    + apply Z.leb_gt in H0.
      replace (k <=? Z.of_nat (length out)) with true in Hcp
        by (symmetry; apply Z.leb_le; lia).
      injection Hcp as <-. split; [|exact Hout].
      rewrite length_take. lia.
Qed.

Lemma mem_wf_grow (m m' : memory) (x : ggml_opencog_atom) :
  mem_wf m -> atom_ok (heap m) x -> n_atoms (space m) < capacity (space m) ->
  heap m' = heap m ++ [x] ->
  atoms (space m')
  = <[Z.to_nat (n_atoms (space m)) := Ptr (length (heap m))]> (atoms (space m)) ->
  n_atoms (space m') = n_atoms (space m) + 1 ->
  capacity (space m') = capacity (space m) ->
  mem_wf m'.
Proof.
  intros Hwf Hx Hfree Hh Ha Hn Hcap.
  pose proof (mem_wf_new_link m x Hwf Hx Hfree) as Hnew.
  unfold mem_wf in *. simpl in Hnew. rewrite Hh, Ha, Hn, Hcap. exact Hnew.
Qed.

Lemma create_returns (m : memory) (c : creation) :
  mem_wf m -> request_ok (heap m) c -> is_Some (create m c).
Proof.
  intros (Hn & Hcap & _) Hreq.
  destruct (Z_ge_dec (n_atoms (space m)) (capacity (space m))) as [Hfull|Hfree].
  - rewrite (create_full m c Hfull). eauto.
  - assert (Ha := append_atom_spec (space m) (Ptr (length (heap m))) ltac:(lia)).
    assert (Hg : (n_atoms (space m) >=? capacity (space m)) = false)
      by (rewrite Z.geb_leb; apply Z.leb_gt; lia).
    destruct c as [ty nm t|ty out k t]; simpl in *.
    + unfold ggml_opencog_atom_create. rewrite Hg, Ha. simpl. eauto.
    + unfold ggml_opencog_link_create. rewrite Hg.
      destruct Hreq as [Hk _].
      destruct (copy_outgoing_ok out k Hk) as [cp ->]. simpl. rewrite Ha. simpl. eauto.
Qed.

(** X3.  Creation keeps the memory well formed and never faults when the
    outgoing pointers that a link request copies are live: the call
    returns null exactly when the space is full, and otherwise the
    returned pointer refers to the requested atom, which fills the first
    free slot. *)
Theorem create_keeps_well_formed (m : memory) (c : creation) :
  mem_wf m -> request_ok (heap m) c ->
  exists p m',
    create m c = Some (p, m')
    /\ mem_wf m'
    /\ (p = NULL <-> capacity (space m) <= n_atoms (space m))
    /\ (p <> NULL ->
        exists x, requested c x /\ slot m' (n_atoms (space m)) = Some x
                  /\ deref (heap m') p = Some x).
Proof.
  intros Hwf Hreq. destruct (create_returns m c Hwf Hreq) as [[p m'] Hc].
  exists p, m'. split; [exact Hc|].
  destruct p as [|a].
  - pose proof Hc as Hc'. apply create_refused in Hc'. subst m'.
    split; [exact Hwf|]. split; [|congruence].
    apply create_inv in Hc as [(_ & _ & Hfull)|(Hp & _)]; [|discriminate].
    split; intros; [lia|reflexivity].
  - pose proof Hwf as (Hn & _).
    apply create_new in Hc as (x & Hx & Hp & Hh & Ha & Hn' & Hcap & Hslot & Hfree);
      [|discriminate].
    split.
    + assert (Hok : atom_ok (heap m) x)
        by (apply (requested_atom_ok _ c); assumption).
      rewrite Hp in Ha. exact (mem_wf_grow m m' x Hwf Hok Hfree Hh Ha Hn' Hcap).
    + split; [split; [discriminate|lia]|]. intros _. exists x.
      split; [exact Hx|]. unfold slot.
      rewrite Ha, read_lookup, list_lookup_insert_eq by lia.
      cbn [mbind option_bind]. rewrite Hp, Hh, deref_app_new. split; reflexivity.
Qed.

(** X3 applied to a similarity link between P and R. *)
Lemma create_keeps_well_formed_witness :
  let m := implication_memory tv_high in
  let c := Create_link OPENCOG_ATOM_SIMILARITY_LINK [Ptr 0; Ptr 3] 2 tv_weak in
  mem_wf m /\ request_ok (heap m) c
  /\ exists p m', create m c = Some (p, m') /\ mem_wf m' /\ p <> NULL.
Proof.
  assert (Hwf : mem_wf (implication_memory tv_high))
    by (apply (bool_decide_unpack _); vm_compute; exact I).
  assert (Hreq : request_ok (heap (implication_memory tv_high))
                   (Create_link OPENCOG_ATOM_SIMILARITY_LINK [Ptr 0; Ptr 3] 2 tv_weak))
    by (apply (bool_decide_unpack _); vm_compute; exact I).
  split; [exact Hwf|]. split; [exact Hreq|].
  destruct (create_keeps_well_formed _ _ Hwf Hreq) as (p & m' & Hc & Hwf' & Hnull & _).
  exists p, m'. split; [exact Hc|]. split; [exact Hwf'|].
  intros Hp. apply Hnull in Hp. vm_compute in Hp. apply Hp. reflexivity.
Defined.

(** X4.  [ggml_opencog_atom_add_link] between two live atoms of a
    well-formed memory never faults and keeps the memory well formed.  It
    returns false exactly when the space is full, and then changes
    nothing; otherwise it returns true, the count grows by one and the
    first free slot holds a nameless link of the given type and truth
    value whose outgoing set is [from; to]. *)
Theorem atom_add_link_spec (m : memory) (from to : atom_ptr)
    (link_type : ggml_opencog_atom_type) (t : ggml_opencog_truth_value) :
  mem_wf m -> ptr_ok (heap m) from -> ptr_ok (heap m) to ->
  exists (ok : bool) (m' : memory),
    ggml_opencog_atom_add_link m from to link_type t = Some (ok, m')
    /\ mem_wf m'
    /\ (ok = false <-> capacity (space m) <= n_atoms (space m))
    /\ (ok = false -> m' = m)
    /\ (ok = true ->
        n_atoms (space m') = n_atoms (space m) + 1
        /\ slot m' (n_atoms (space m))
           = Some {| type := link_type; name := None; tv := t;
                     outgoing := [from; to]; n_outgoing := 2 |}).
Proof.
  intros Hwf Hfrom Hto. pose proof Hwf as (Hn & Hcap & _).
  unfold ggml_opencog_atom_add_link.
  destruct (Z_ge_dec (n_atoms (space m)) (capacity (space m))) as [Hfull|Hfree].
  - rewrite link_create_full by exact Hfull. simpl.
    exists false, m. split; [reflexivity|]. split; [exact Hwf|].
    split; [split; intros; [lia|reflexivity]|]. split; [reflexivity|discriminate].
  - rewrite link_create_free by lia. cbn [mbind option_bind].
    eexists true, _. split; [reflexivity|]. split.
    { apply mem_wf_new_link; [exact Hwf| |lia].
      split; simpl; [lia|]. repeat constructor; assumption. }
    split; [split; [discriminate|lia]|]. split; [discriminate|].
    intros _. split; [reflexivity|]. unfold slot. simpl.
    rewrite read_lookup, list_lookup_insert_eq by lia. cbn [mbind option_bind].
    apply (deref_app_new (heap m)).
Qed.

(** X4 applied to a similarity link from Q to R. *)
Lemma atom_add_link_spec_witness :
  let m := implication_memory tv_high in
  mem_wf m
  /\ exists ok m',
       ggml_opencog_atom_add_link m (Ptr 1) (Ptr 3) OPENCOG_ATOM_SIMILARITY_LINK tv_weak
         = Some (ok, m')
       /\ mem_wf m'.
Proof.
  assert (Hwf : mem_wf (implication_memory tv_high))
    by (apply (bool_decide_unpack _); vm_compute; exact I).
  split; [exact Hwf|].
  destruct (atom_add_link_spec (implication_memory tv_high) (Ptr 1) (Ptr 3)
              OPENCOG_ATOM_SIMILARITY_LINK tv_weak Hwf)
    as (ok & m' & Hrun & Hwf' & _).
  - apply (bool_decide_unpack _); vm_compute; exact I.
  - apply (bool_decide_unpack _); vm_compute; exact I.
  - exists ok, m'. split; assumption.
Defined.

Lemma fold_add_rule (rs : list ggml_opencog_inference_rule) :
  forall ure : ggml_opencog_ure,
    rules (fold_left ggml_opencog_ure_add_rule rs ure) = rules ure ++ rs
    /\ max_iterations (fold_left ggml_opencog_ure_add_rule rs ure) = max_iterations ure
    /\ min_confidence (fold_left ggml_opencog_ure_add_rule rs ure) = min_confidence ure.
Proof.
  induction rs as [|r rs IH]; intros ure; simpl.
  - rewrite app_nil_r. repeat split.
  - destruct (IH (ggml_opencog_ure_add_rule ure r)) as (Hr & Hm & Hc).
    rewrite Hr, Hm, Hc. simpl. rewrite <- app_assoc. repeat split.
Qed.

(** X5.  An engine keeps its rules in registration order: after
    [ggml_opencog_ure_init] and any sequence of [ggml_opencog_ure_add_rule]
    the rule array is that sequence, duplicates included, and the
    iteration cap and the confidence threshold are the ones given to
    [init]. *)
Theorem ure_rules_in_registration_order (max_iter : Z) (min_conf : float)
    (rs : list ggml_opencog_inference_rule) :
  let ure := fold_left ggml_opencog_ure_add_rule rs
               (ggml_opencog_ure_init max_iter min_conf) in
  rules ure = rs /\ max_iterations ure = max_iter /\ min_confidence ure = min_conf.
Proof.
  intros ure. destruct (fold_add_rule rs (ggml_opencog_ure_init max_iter min_conf))
    as (Hr & Hm & Hc).
  unfold ure. rewrite Hr, Hm, Hc. repeat split.
Qed.

Lemma atom_loop_few_atoms (ure : ggml_opencog_ure)
    (rule : ggml_opencog_inference_rule) (target : atom_ptr) (scan : nat)
    (st : chain_state) :
  (1 < scan)%nat -> n_atoms (space (mem st)) < 2 ->
  ure_atom_loop scan scan ure rule target 0 st = Next st.
Proof.
  intros Hscan Hfew. destruct scan as [|[|scan]]; try lia.
  cbn [ure_atom_loop]. destruct (0 <? n_atoms (space (mem st))) eqn:H0; [|reflexivity].
  assert (H1 : (1 <? n_atoms (space (mem st))) = false) by (apply Z.ltb_ge; lia).
  cbn [ure_pair_loop]. change (0 + 1) with 1. rewrite H1.
  unfold mbind, flow_bind. rewrite H1. reflexivity.
Qed.

Lemma rule_loop_few_atoms (ure : ggml_opencog_ure) (target : atom_ptr) (scan : nat)
    (todo : list ggml_opencog_inference_rule) (st : chain_state) :
  (1 < scan)%nat -> n_atoms (space (mem st)) < 2 ->
  ure_rule_loop scan ure target todo st = Next st.
Proof.
  intros Hscan Hfew. induction todo as [|rule todo IH]; [reflexivity|].
  cbn [ure_rule_loop]. rewrite atom_loop_few_atoms by assumption. exact IH.
Qed.

(** X6.  Chaining has nothing to do when the iteration cap is not
    positive, when no rule is registered, or when the space holds fewer
    than two atoms: whatever the rules, the target and the memory (well
    formed or not), forward chaining returns 0 and leaves the memory
    untouched, no rule function being called. *)
Theorem chaining_without_work (ure : ggml_opencog_ure) (target : atom_ptr)
    (m : memory) (passes scan : nat) :
  (0 < passes)%nat -> (1 < scan)%nat ->
  max_iterations ure <= 0 \/ rules ure = [] \/ n_atoms (space m) < 2 ->
  ggml_opencog_ure_forward_chain passes scan ure target m = Next (0, m).
Proof.
  intros Hp Hs Hcase. destruct passes as [|passes]; [lia|].
  unfold ggml_opencog_ure_forward_chain. cbn [ure_iter_loop].
  destruct (0 <? max_iterations ure) eqn:Hit; [|reflexivity].
  apply Z.ltb_lt in Hit.
  destruct Hcase as [Hcap|[Hnil|Hfew]]; [lia| |].
  - rewrite Hnil. reflexivity.
  - rewrite rule_loop_few_atoms by assumption. reflexivity.
Qed.

(** X6 applied to both rules on an empty space. *)
Lemma chaining_without_work_witness :
  ggml_opencog_ure_forward_chain 1 2 both_rules_engine (Ptr 0) (fresh_memory [] 8 32)
  = Next (0, fresh_memory [] 8 32).
Proof.
  apply chaining_without_work; [lia|lia|].
  right. right. simpl. lia.
Defined.

Lemma query_from_filter (m : memory) (pat : ggml_opencog_atom) (todo : nat) :
  mem_wf m ->
  forall (i : Z) (acc : list atom_ptr),
    0 <= i -> i + Z.of_nat todo <= n_atoms (space m) ->
    query_from m (Some pat) i todo acc
    = Some (acc ++ List.filter (matches m pat)
                     (take todo (drop (Z.to_nat i) (atoms (space m))))).
Proof.
  intros Hwf. induction todo as [|todo IH]; intros i acc Hi Hn.
  - simpl. rewrite app_nil_r. reflexivity.
  - destruct (mem_wf_read m i Hwf ltac:(lia)) as (p & Hp & [a Ha]).
    cbn [query_from]. rewrite Hp. cbn [mbind option_bind]. rewrite Ha.
    cbn [mbind option_bind]. rewrite IH by lia.
    rewrite read_lookup in Hp by lia.
    rewrite (drop_S _ _ _ Hp). cbn [take List.filter].
    replace (Z.to_nat (i + 1)) with (S (Z.to_nat i)) by lia.
    unfold matches at 2. rewrite Ha. cbn [from_option].
    destruct (query_match pat a); [rewrite <- app_assoc|]; reflexivity.
Qed.

Lemma query_results_filter (m : memory) (pat : ggml_opencog_atom) :
  mem_wf m ->
  query_results m (Some pat) = Some (List.filter (matches m pat) (filled m)).
Proof.
  intros Hwf. pose proof Hwf as (Hn & _).
  unfold query_results. rewrite (query_from_filter m pat _ Hwf) by lia.
  reflexivity.
Qed.

(** X7.  On a well-formed memory a query with a non-null pattern never
    faults.  Its results are the pointers of the filled slots, in slot
    order and with repetitions, whose atom has the pattern's type and a
    confidence of at least 0.5; the count is their number and the array
    is null exactly when there is none. *)
Theorem query_is_filter (m : memory) (pat : ggml_opencog_atom) :
  mem_wf m ->
  ggml_opencog_query m (Some pat)
  = Some (result_array (List.filter (matches m pat) (filled m)),
          Z.of_nat (length (List.filter (matches m pat) (filled m)))).
Proof.
  intros Hwf. unfold ggml_opencog_query.
  rewrite (query_results_filter m pat Hwf). reflexivity.
Qed.

(** X7 applied to a concept pattern when P has confidence 0.1. *)
Lemma query_is_filter_witness :
  mem_wf (implication_memory tv_weak)
  /\ ggml_opencog_query (implication_memory tv_weak)
       (Some (mk_atom OPENCOG_ATOM_CONCEPT_NODE None tv_weak [] 0))
     = Some (Some [Ptr 1%nat; Ptr 3%nat; Ptr 4%nat], 3).
Proof.
  assert (Hwf : mem_wf (implication_memory tv_weak))
    by (apply (bool_decide_unpack _); vm_compute; exact I).
  split; [exact Hwf|].
  rewrite (query_is_filter _ _ Hwf). vm_compute. reflexivity.
Defined.

Lemma query_from_app (m : memory) (pattern : option ggml_opencog_atom) (a b : nat) :
  forall (i : Z) (acc : list atom_ptr),
    query_from m pattern i (a + b) acc =
      rs ← query_from m pattern i a acc;
      query_from m pattern (i + Z.of_nat a) b rs.
Proof.
  induction a as [|a IH]; intros i acc.
  - simpl. rewrite Z.add_0_r. reflexivity.
  - cbn [query_from Nat.add].
    destruct (read (atoms (space m)) i) as [p|]; [|reflexivity].
    cbn [mbind option_bind].
    destruct (deref (heap m) p) as [x|]; [|reflexivity].
    cbn [mbind option_bind].
    destruct pattern as [pat|]; [|reflexivity].
    cbn [mbind option_bind]. rewrite IH.
    replace (i + 1 + Z.of_nat a) with (i + Z.of_nat (S a)) by lia. reflexivity.
Qed.

Lemma query_from_ext (m m' : memory) (pattern : option ggml_opencog_atom)
    (todo : nat) :
  forall (i : Z) (acc : list atom_ptr),
    0 <= i ->
    (forall k, i <= k < i + Z.of_nat todo ->
       read (atoms (space m')) k = read (atoms (space m)) k) ->
    (forall k p, i <= k < i + Z.of_nat todo -> read (atoms (space m)) k = Some p ->
       deref (heap m') p = deref (heap m) p) ->
    query_from m' pattern i todo acc = query_from m pattern i todo acc.
Proof.
  induction todo as [|todo IH]; intros i acc Hi Hread Hderef; [reflexivity|].
  cbn [query_from]. rewrite (Hread i) by lia.
  destruct (read (atoms (space m)) i) as [p|] eqn:Hp; [|reflexivity].
  cbn [mbind option_bind]. rewrite (Hderef i p) by (try lia; exact Hp).
  destruct (deref (heap m) p) as [x|]; [|reflexivity].
  cbn [mbind option_bind].
  destruct pattern as [pat|]; [|reflexivity].
  cbn [mbind option_bind]. apply IH; [lia| |].
  - intros k Hk. apply Hread. lia.
  - intros k q Hk. apply Hderef. lia.
Qed.

(** X8.  A query on the memory that a successful creation leaves returns
    the former results followed, if the new atom matches, by the new
    atom: no earlier result is lost, reordered or changed. *)
Theorem query_after_create (m m' : memory) (c : creation) (p : atom_ptr)
    (pat : ggml_opencog_atom) :
  mem_wf m -> create m c = Some (p, m') -> p <> NULL ->
  exists rs,
    query_results m (Some pat) = Some rs
    /\ query_results m' (Some pat)
       = Some (rs ++ if matches m' pat p then [p] else []).
Proof.
  intros Hwf Hc Hp. pose proof Hwf as (Hn & _).
  exists (List.filter (matches m pat) (filled m)).
  split; [apply query_results_filter; exact Hwf|].
  pose proof (create_frame _ _ _ _ Hc) as [Hderef Hread].
  apply create_new in Hc as (x & _ & Hpx & Hh & Ha & Hn' & _ & Hslot & _);
    [|exact Hp].
  unfold query_results. rewrite Hn'.
  replace (Z.to_nat (n_atoms (space m) + 1))
    with (Z.to_nat (n_atoms (space m)) + 1)%nat by lia.
  rewrite query_from_app.
  rewrite (query_from_ext m m' (Some pat) (Z.to_nat (n_atoms (space m))) 0);
    [|lia| |].
  - fold (query_results m (Some pat)).
    rewrite (query_results_filter m pat Hwf). cbn [mbind option_bind].
    rewrite Z.add_0_l, Z2Nat.id by lia. cbn [query_from].
    rewrite Ha, read_lookup, list_lookup_insert_eq by lia.
    cbn [mbind option_bind]. subst p. unfold matches.
    rewrite Hh, deref_app_new. cbn [mbind option_bind from_option].
    destruct (query_match pat x); [reflexivity|]. rewrite app_nil_r. reflexivity.
  - intros k Hk. apply Hread. lia.
  - intros k r Hk Hr. apply Hderef.
    destruct (mem_wf_read m k Hwf ltac:(lia)) as (r' & Hr' & Hok). congruence.
Qed.

(** X8 applied to the creation of a concept Z. *)
Lemma query_after_create_witness :
  let m := implication_memory tv_high in
  let c := Create_atom OPENCOG_ATOM_CONCEPT_NODE "Z"%string tv_high in
  let pat := mk_atom OPENCOG_ATOM_CONCEPT_NODE None tv_weak [] 0 in
  mem_wf m
  /\ exists rs,
       query_results m (Some pat) = Some rs
       /\ query_results (memory_created m c) (Some pat)
          = Some (rs ++ if matches (memory_created m c) pat (created m c)
                        then [created m c] else []).
Proof.
  assert (Hwf : mem_wf (implication_memory tv_high))
    by (apply (bool_decide_unpack _); vm_compute; exact I).
  split; [exact Hwf|].
  apply (query_after_create (implication_memory tv_high)
           (memory_created (implication_memory tv_high)
              (Create_atom OPENCOG_ATOM_CONCEPT_NODE "Z"%string tv_high))
           (Create_atom OPENCOG_ATOM_CONCEPT_NODE "Z"%string tv_high)
           (created (implication_memory tv_high)
              (Create_atom OPENCOG_ATOM_CONCEPT_NODE "Z"%string tv_high))
           _ Hwf).
  - vm_compute. reflexivity.
  - vm_compute. discriminate.
Defined.

(** ** Symmetry and idempotence in the truth-value algebra *)

Lemma mul_comm (x y : float) : F32.mul x y = F32.mul y x.
Proof.
  unfold F32.mul.
  destruct x as [[]|[]| |sx mx ex], y as [[]|[]| |sy my ey]; try reflexivity;
    unfold SFmul; try (destruct sx; reflexivity); try (destruct sy; reflexivity).
  rewrite (xorb_comm sx sy), (Pos.mul_comm mx my), (Z.add_comm ex ey). reflexivity.
Qed.

Lemma add_comm (x y : float) : F32.add x y = F32.add y x.
Proof.
  unfold F32.add.
  destruct x as [[]|[]| |sx mx ex], y as [[]|[]| |sy my ey]; try reflexivity.
  unfold SFadd. rewrite (Z.min_comm ex ey).
  rewrite (Z.add_comm (cond_Zopp sx _)). reflexivity.
Qed.










Lemma SFcompare_zeros_l (s s' : bool) (z : float) :
  SFcompare (S754_zero s) z = SFcompare (S754_zero s') z.
Proof. destruct z; reflexivity. Qed.

Lemma SFcompare_zeros_r (s s' : bool) (z : float) :
  SFcompare z (S754_zero s) = SFcompare z (S754_zero s').
Proof. destruct z; reflexivity. Qed.

Lemma eqb_compare_l (a b z : float) :
  F32.eqb a b = true -> SFcompare a z = SFcompare b z.
Proof.
  unfold F32.eqb, SFeqb. destruct (SFcompare a b) as [[]|] eqn:Hc; try discriminate.
  intros _. apply SFcompare_Eq in Hc as [->|(s & s' & -> & ->)]; [reflexivity|].
  apply SFcompare_zeros_l.
Qed.

Lemma eqb_compare_r (a b z : float) :
  F32.eqb a b = true -> SFcompare z a = SFcompare z b.
Proof.
  unfold F32.eqb, SFeqb. destruct (SFcompare a b) as [[]|] eqn:Hc; try discriminate.
  intros _. apply SFcompare_Eq in Hc as [->|(s & s' & -> & ->)]; [reflexivity|].
  apply SFcompare_zeros_r.
Qed.

Lemma nonneg_not_nan (x : float) : F32.nonneg x = true -> F32.is_nan x = false.
Proof. destruct x; try reflexivity. discriminate. Qed.

Lemma fminf_le (x y : float) :
  F32.is_nan x = false -> F32.is_nan y = false ->
  F32.leb (F32.fminf x y) x = true /\ F32.leb (F32.fminf x y) y = true.
Proof.
  intros Hx Hy. unfold F32.fminf, F32.leb, SFleb.
  destruct (SFcompare x y) as [[]|] eqn:Hc.
  - rewrite (SFcompare_refl x Hx), Hc. split; reflexivity.
  - rewrite (SFcompare_refl x Hx), Hc. split; reflexivity.
  - rewrite (SFcompare_refl y Hy), (SFcompare_swap x y), Hc. split; reflexivity.
  - destruct x, y; discriminate.
Qed.

Lemma fmaxf_ge (x y : float) :
  F32.is_nan x = false -> F32.is_nan y = false ->
  F32.leb x (F32.fmaxf x y) = true /\ F32.leb y (F32.fmaxf x y) = true.
Proof.
  intros Hx Hy. unfold F32.fmaxf, F32.leb, SFleb.
  destruct (SFcompare x y) as [[]|] eqn:Hc.
  - rewrite (SFcompare_refl x Hx), (SFcompare_swap x y), Hc. split; reflexivity.
  - rewrite (SFcompare_refl y Hy), Hc. split; reflexivity.
  - rewrite (SFcompare_refl x Hx), (SFcompare_swap x y), Hc. split; reflexivity.
  - destruct x, y; discriminate.
Qed.

Lemma fminf_in_unit (x y : float) :
  F32.in_unit x = true -> F32.in_unit y = true -> F32.in_unit (F32.fminf x y) = true.
Proof.
  intros Hx Hy. unfold F32.fminf.
  destruct (SFcompare x y) as [[]|]; try assumption.
  destruct (F32.is_nan y); assumption.
Qed.

Lemma fmaxf_nonneg (x y : float) :
  F32.nonneg x = true -> F32.nonneg y = true -> F32.nonneg (F32.fmaxf x y) = true.
Proof.
  intros Hx Hy. unfold F32.fmaxf.
  destruct (SFcompare x y) as [[]|]; try assumption.
  destruct (F32.is_nan y); assumption.
Qed.

(** X11.  For truth values in range, disjunction is no more confident than
    either operand and reports at least as much evidence as either: its
    confidence is [<=] both confidences and its count is [>=] both
    counts. *)
Theorem tv_or_confidence_and_count (t1 t2 : ggml_opencog_truth_value) :
  tv_in_range t1 = true -> tv_in_range t2 = true ->
  F32.leb (confidence (ggml_opencog_tv_or t1 t2)) (confidence t1) = true
  /\ F32.leb (confidence (ggml_opencog_tv_or t1 t2)) (confidence t2) = true
  /\ F32.geb (count (ggml_opencog_tv_or t1 t2)) (count t1) = true
  /\ F32.geb (count (ggml_opencog_tv_or t1 t2)) (count t2) = true.
Proof.
  intros H1 H2.
  apply in_range_fields in H1 as (_ & Hc1 & Hn1).
  apply in_range_fields in H2 as (_ & Hc2 & Hn2).
  assert (Hnan1 : F32.is_nan (confidence t1) = false).
  { apply nonneg_not_nan. unfold F32.in_unit in Hc1. apply andb_prop in Hc1 as [H _]. exact H. }
  assert (Hnan2 : F32.is_nan (confidence t2) = false).
  { apply nonneg_not_nan. unfold F32.in_unit in Hc2. apply andb_prop in Hc2 as [H _]. exact H. }
  pose proof (clamp_unit_id _ (fminf_in_unit _ _ Hc1 Hc2)) as Hconf.
  pose proof (clamp_nonneg_id _ (fmaxf_nonneg _ _ Hn1 Hn2)) as Hcount.
  destruct (fminf_le _ _ Hnan1 Hnan2) as [Hl1 Hl2].
  destruct (fmaxf_ge _ _ (nonneg_not_nan _ Hn1) (nonneg_not_nan _ Hn2)) as [Hg1 Hg2].
  unfold ggml_opencog_tv_or, ggml_opencog_tv_create. cbn [confidence count].
  unfold F32.geb, F32.leb, SFleb in *.
  rewrite !(eqb_compare_l _ _ _ Hconf), !(eqb_compare_r _ _ _ Hcount).
  repeat split; assumption.
Qed.

(** X11 applied to (0.9, 0.8, 10) and (0.9, 0.1, 1). *)
Lemma tv_or_confidence_and_count_witness :
  F32.leb (confidence (ggml_opencog_tv_or tv_high tv_weak)) (confidence tv_high) = true
  /\ F32.leb (confidence (ggml_opencog_tv_or tv_high tv_weak)) (confidence tv_weak) = true
  /\ F32.geb (count (ggml_opencog_tv_or tv_high tv_weak)) (count tv_high) = true
  /\ F32.geb (count (ggml_opencog_tv_or tv_high tv_weak)) (count tv_weak) = true.
Proof.
  apply (tv_or_confidence_and_count tv_high tv_weak); vm_compute; reflexivity.
Defined.

(** ** What inference leaves of a memory *)

Lemma same_shape_refl (x : ggml_opencog_atom) : same_shape x x.
Proof. repeat split. Qed.

Lemma extends_refl (m : memory) : extends m m.
Proof.
  split; [reflexivity|]. split; [lia|]. split; [reflexivity|]. split.
  - intros p x Hx. exists x. split; [exact Hx|apply same_shape_refl].
  - intros i x _ Hi. lia.
Qed.

Lemma extends_set_tv (m0 m : memory) (a : nat) (qa : ggml_opencog_atom)
    (t : ggml_opencog_truth_value) :
  extends m0 m -> heap m !! a = Some qa ->
  extends m0 {| heap := <[a := set_tv qa t]> (heap m); space := space m |}.
Proof.
  intros (Hcap & Hn & Hread & Hderef & Hnew) Hqa.
  assert (Hlt : (a < length (heap m))%nat) by (eapply lookup_lt_Some; exact Hqa).
  split; [exact Hcap|]. split; [exact Hn|]. split; [exact Hread|]. split.
  - intros p x Hx. destruct (Hderef p x Hx) as (x' & Hx' & Hshape).
    destruct (decide (p = Ptr a)) as [->|Hne].
    + exists (set_tv qa t). simpl. rewrite list_lookup_insert_eq by exact Hlt.
      split; [reflexivity|]. simpl in Hx'. rewrite Hqa in Hx'. injection Hx' as ->.
      exact Hshape.
    + exists x'. simpl. rewrite deref_insert_ne by exact Hne. split; assumption.
  - intros i x Hi0 Hi. unfold slot. simpl.
    destruct (read (atoms (space m)) i) as [p|] eqn:Hp; simpl; [|discriminate].
    destruct (decide (p = Ptr a)) as [->|Hne].
    + simpl. rewrite list_lookup_insert_eq by exact Hlt. intros [= <-].
      apply (Hnew i qa Hi0 Hi). unfold slot. rewrite Hp. exact Hqa.
    + rewrite deref_insert_ne by exact Hne. intros Hx.
      apply (Hnew i x Hi0 Hi). unfold slot. rewrite Hp. exact Hx.
Qed.

Lemma extends_new_link (m0 m m' : memory) (x : ggml_opencog_atom) :
  mem_wf m -> extends m0 m ->
  type x = OPENCOG_ATOM_INHERITANCE_LINK -> name x = None ->
  heap m' = heap m ++ [x] ->
  atoms (space m')
  = <[Z.to_nat (n_atoms (space m)) := Ptr (length (heap m))]> (atoms (space m)) ->
  n_atoms (space m') = n_atoms (space m) + 1 ->
  capacity (space m') = capacity (space m) ->
  n_atoms (space m) < Z.of_nat (length (atoms (space m))) ->
  extends m0 m'.
Proof.
  intros Hwf (Hcap & Hn & Hread & Hderef & Hnew) Hty Hnm Hh Ha Hn' Hcap' Hslot.
  pose proof Hwf as (Hn0 & _).
  split; [congruence|]. split; [lia|]. split; [|split].
  - intros i Hi. rewrite Ha, read_insert_ne by lia. apply Hread. exact Hi.
  - intros p y Hy. destruct (Hderef p y Hy) as (y' & Hy' & Hshape).
    exists y'. split; [|exact Hshape].
    rewrite Hh, deref_app_old; [exact Hy'|]. exists y'. exact Hy'.
  - intros i y Hi0 Hi. unfold slot. rewrite Ha, Hh.
    destruct (decide (i = n_atoms (space m))) as [->|Hne].
    + rewrite read_lookup, list_lookup_insert_eq by lia. cbn [mbind option_bind].
      rewrite deref_app_new. intros [= <-]. split; assumption.
    + rewrite read_insert_ne by lia.
      destruct (mem_wf_read m i Hwf ltac:(lia)) as (p & Hp & Hok).
      rewrite Hp. cbn [mbind option_bind]. rewrite deref_app_old by exact Hok.
      intros Hy. apply (Hnew i y Hi0 ltac:(lia)). unfold slot. rewrite Hp. exact Hy.
Qed.

Lemma modus_ponens_conclusion_extends (m : memory) (pi pj : atom_ptr) :
  mem_wf m -> ptr_ok (heap m) pi ->
  ggml_opencog_rule_modus_ponens_precondition m [pi; pj] 2 = Some true ->
  exists c m', ggml_opencog_rule_modus_ponens_conclusion m [pi; pj] 2 = Some (c, m')
    /\ mem_wf m' /\ length (atoms (space m')) = length (atoms (space m))
    /\ (c = NULL \/ ptr_ok (heap m') c)
    /\ (forall m0, extends m0 m -> extends m0 m').
Proof.
  intros Hwf [pa Hpa] Hpre.
  destruct (modus_ponens_precondition_true _ _ _ Hpre)
    as (_ & p & implication & imp & H0 & H1 & Himp & _ & Hn & _).
  injection H0 as <-. injection H1 as <-.
  destruct (atom_ok_read _ imp 1 (mem_wf_deref _ _ _ Hwf Himp) ltac:(lia))
    as (q & Hq & Hqok).
  pose proof Hqok as [qa Hqa]. destruct q as [|a]; [discriminate Hqa|].
  eexists _, _. split.
  { eapply modus_ponens_conclusion_spec; eauto; reflexivity. }
  split; [apply mem_wf_set_tv; assumption|]. split; [reflexivity|]. split.
  - right. eapply ptr_ok_length; [|exact Hqok]. simpl. rewrite length_insert. lia.
  - intros m0 Hext. apply extends_set_tv; assumption.
Qed.

Lemma inheritance_conclusion_extends (m : memory) (pi pj : atom_ptr) :
  mem_wf m ->
  ggml_opencog_rule_inheritance_precondition m [pi; pj] 2 = Some true ->
  exists c m', ggml_opencog_rule_inheritance_conclusion m [pi; pj] 2 = Some (c, m')
    /\ mem_wf m' /\ length (atoms (space m')) = length (atoms (space m))
    /\ (c = NULL \/ ptr_ok (heap m') c)
    /\ (forall m0, extends m0 m -> extends m0 m').
Proof.
  intros Hwf Hpre.
  destruct (inheritance_precondition_true _ _ _ Hpre)
    as (_ & inh1 & inh2 & l1 & l2 & b & H0 & H1 & Hl1 & Hl2 & _ & _ & Hn1 & Hn2 & _).
  destruct (atom_ok_read _ l1 0 (mem_wf_deref _ _ _ Hwf Hl1) ltac:(lia))
    as (a & Ha & Haok).
  destruct (atom_ok_read _ l2 1 (mem_wf_deref _ _ _ Hwf Hl2) ltac:(lia))
    as (c & Hc & Hcok).
  rewrite (inheritance_conclusion_spec m _ _ _ _ _ _ _ _ Hpre H0 H1 Hl1 Hl2 Ha Hc).
  destruct (Z_ge_dec (n_atoms (space m)) (capacity (space m))) as [Hfull|Hfree].
  - rewrite link_create_full by exact Hfull.
    exists NULL, m. split; [reflexivity|]. split; [exact Hwf|]. split; [reflexivity|].
    split; [left; reflexivity|]. intros m0 Hext. exact Hext.
  - pose proof Hwf as (Hn & Hcap & _).
    rewrite link_create_free by lia.
    eexists _, _. split; [reflexivity|]. split.
    { apply mem_wf_new_link; [exact Hwf| |lia].
      split; simpl; [lia|]. repeat constructor; assumption. }
    split; [simpl; apply length_insert|]. split.
    + right. apply ptr_ok_lt. eexists. split; [reflexivity|]. simpl.
      rewrite length_app. simpl. lia.
    + intros m0 Hext.
      apply (extends_new_link m0 m _
               {| type := OPENCOG_ATOM_INHERITANCE_LINK; name := None;
                  tv := inheritance_tv (tv l1) (tv l2);
                  outgoing := [a; c]; n_outgoing := 2 |} Hwf Hext);
        try reflexivity. lia.
Qed.

(** A scan over nameless atoms finds nothing, and lookups survive
    extension. *)
Lemma atom_get_extends (m m' : memory) (nm : string) :
  mem_wf m -> mem_wf m' -> extends m m' ->
  ggml_opencog_atom_get m' nm = ggml_opencog_atom_get m nm.
Proof.
  intros Hwf Hwf' (Hcap & Hn & Hread & Hderef & Hnew).
  pose proof Hwf as (Hn0 & _).
  unfold ggml_opencog_atom_get.
  replace (Z.to_nat (n_atoms (space m')))
    with (Z.to_nat (n_atoms (space m))
          + Z.to_nat (n_atoms (space m') - n_atoms (space m)))%nat by lia.
  rewrite atom_get_from_app.
  rewrite (atom_get_from_ext m m' nm (Z.to_nat (n_atoms (space m))) 0); [|lia| |].
  - destruct (atom_get_from_spec m nm (Z.to_nat (n_atoms (space m))) Hwf 0
                ltac:(lia) ltac:(lia)) as (q & Hq & _).
    rewrite Hq. cbn [mbind option_bind]. case_bool_decide as Hnull; [|reflexivity].
    subst q.
    destruct (atom_get_from_spec m' nm
                (Z.to_nat (n_atoms (space m') - n_atoms (space m))) Hwf'
                (0 + Z.of_nat (Z.to_nat (n_atoms (space m)))) ltac:(lia) ltac:(lia))
      as (r & Hr & [[-> _]|(k & x & Hk & Hp & Hx & Hname & _)]).
    + exact Hr.
    + exfalso. destruct (Hnew k x ltac:(lia) ltac:(lia)) as [_ Hnone].
      * unfold slot. rewrite Hp. exact Hx.
      * congruence.
  - intros k Hk. apply Hread. lia.
  - intros k p Hk Hp.
    destruct (mem_wf_read m k Hwf ltac:(lia)) as (p' & Hp' & [x Hx]).
    assert (p' = p) by congruence. subst p'.
    destruct (Hderef p x Hx) as (x' & Hx' & _ & Hsame & _).
    rewrite Hx, Hx'. simpl. unfold name_is. rewrite Hsame. reflexivity.
Qed.

Lemma builtin_rule_safe (rule : ggml_opencog_inference_rule) (m : memory)
    (pi pj : atom_ptr) :
  rule = modus_ponens_rule \/ rule = inheritance_rule ->
  mem_wf m -> ptr_ok (heap m) pi -> ptr_ok (heap m) pj ->
  is_Some (precondition rule m [pi; pj] 2)
  /\ exists c m',
       conclusion rule m [pi; pj] 2 = Some (c, m')
       /\ mem_wf m' /\ length (atoms (space m')) = length (atoms (space m))
       /\ (c = NULL \/ ptr_ok (heap m') c)
       /\ (forall m0, extends m0 m -> extends m0 m').
Proof.
  intros Hrule Hwf Hpi Hpj.
  assert (Hpre : is_Some (precondition rule m [pi; pj] 2)).
  { destruct Hrule as [-> | ->]; simpl.
    - apply modus_ponens_precondition_total; assumption.
    - apply inheritance_precondition_total; assumption. }
  split; [exact Hpre|]. destruct Hpre as [[] Hpre].
  - destruct Hrule as [-> | ->]; simpl in *.
    + apply modus_ponens_conclusion_extends; assumption.
    + apply inheritance_conclusion_extends; assumption.
  - exists NULL, m.
    split; [|split; [exact Hwf|split; [reflexivity|split; [left; reflexivity|auto]]]].
    destruct Hrule as [-> | ->]; simpl in *.
    + unfold ggml_opencog_rule_modus_ponens_conclusion. rewrite Hpre. reflexivity.
    + unfold ggml_opencog_rule_inheritance_conclusion. rewrite Hpre. reflexivity.
Qed.

(** X13.  The two rules of the source are memory safe on a well-formed
    memory: applied to live premises, the precondition and the
    conclusion never fault, the conclusion leaves a well-formed memory
    that extends the former one (same capacity, every atom still in its
    slot with its type, name and outgoing set; at most a nameless
    inheritance link added), and the atom it returns is null or live. *)
Theorem builtin_rules_memory_safe (rule : ggml_opencog_inference_rule)
    (m : memory) (pi pj : atom_ptr) :
  rule = modus_ponens_rule \/ rule = inheritance_rule ->
  mem_wf m -> ptr_ok (heap m) pi -> ptr_ok (heap m) pj ->
  is_Some (precondition rule m [pi; pj] 2)
  /\ exists c m',
       conclusion rule m [pi; pj] 2 = Some (c, m')
       /\ mem_wf m' /\ extends m m'
       /\ (c = NULL \/ ptr_ok (heap m') c).
Proof.
  intros Hrule Hwf Hpi Hpj.
  destruct (builtin_rule_safe rule m pi pj Hrule Hwf Hpi Hpj)
    as (Hpre & c & m' & Hc & Hwf' & _ & Hlive & Hext).
  split; [exact Hpre|]. exists c, m'.
  split; [exact Hc|]. split; [exact Hwf'|]. split; [|exact Hlive].
  apply Hext, extends_refl.
Qed.

(** X13 applied to the transitivity rule on A->B, B->C. *)
Lemma builtin_rules_memory_safe_witness :
  let m := inheritance_memory 8 tv_high in
  mem_wf m
  /\ exists c m',
       conclusion inheritance_rule m [Ptr 3; Ptr 4] 2 = Some (c, m')
       /\ mem_wf m' /\ extends m m' /\ (c = NULL \/ ptr_ok (heap m') c).
Proof.
  assert (Hwf : mem_wf (inheritance_memory 8 tv_high))
    by (apply (bool_decide_unpack _); vm_compute; exact I).
  split; [exact Hwf|].
  apply (builtin_rules_memory_safe inheritance_rule (inheritance_memory 8 tv_high)
           (Ptr 3) (Ptr 4) (or_intror eq_refl) Hwf).
  - apply (bool_decide_unpack _); vm_compute; exact I.
  - apply (bool_decide_unpack _); vm_compute; exact I.
Defined.

Section builtin_chain.
Variables (ure : ggml_opencog_ure) (m0 : memory) (target : atom_ptr).
Hypothesis only_builtin :
  forall rule, rule ∈ rules ure ->
               rule = modus_ponens_rule \/ rule = inheritance_rule.

Lemma reached_bound (m : memory) :
  reached m0 m -> n_atoms (space m) <= Z.of_nat (length (atoms (space m0))).
Proof. intros [H _]. apply builtin_bound. exact H. Qed.

Lemma reached_read (m : memory) (i : Z) :
  reached m0 m -> 0 <= i < n_atoms (space m) -> is_Some (read (atoms (space m)) i).
Proof. intros [H _]. apply (builtin_read _ _ _ H). Qed.

Lemma reached_precondition (rule : ggml_opencog_inference_rule) (m : memory)
    (i j : Z) (pi pj : atom_ptr) :
  rule ∈ rules ure -> reached m0 m -> 0 <= i < j -> j < n_atoms (space m) ->
  read (atoms (space m)) i = Some pi -> read (atoms (space m)) j = Some pj ->
  is_Some (precondition rule m [pi; pj] 2).
Proof.
  intros Hr [H _]. apply (builtin_precondition ure _ only_builtin rule m i j pi pj Hr H).
Qed.

Lemma reached_conclusion (rule : ggml_opencog_inference_rule) (m : memory)
    (i j : Z) (pi pj : atom_ptr) :
  rule ∈ rules ure -> reached m0 m -> 0 <= i < j -> j < n_atoms (space m) ->
  read (atoms (space m)) i = Some pi -> read (atoms (space m)) j = Some pj ->
  precondition rule m [pi; pj] 2 = Some true ->
  exists c m', conclusion rule m [pi; pj] 2 = Some (c, m') /\ reached m0 m'
               /\ (c = NULL \/ is_Some (deref (heap m') c)).
Proof.
  intros Hr [[Hwf Hlen] Hext] Hij Hj Hpi Hpj Hpre.
  pose proof (builtin_ptr m i pi Hwf ltac:(lia) Hpi) as Hoki.
  pose proof (builtin_ptr m j pj Hwf ltac:(lia) Hpj) as Hokj.
  destruct (builtin_rule_safe rule m pi pj (only_builtin rule Hr) Hwf Hoki Hokj)
    as (_ & c & m' & Hc & Hwf' & Hlen' & Hlive & Hext').
  exists c, m'. split; [exact Hc|]. split; [|exact Hlive].
  split; [split; [exact Hwf'|congruence]|apply Hext'; exact Hext].
Qed.

Lemma builtin_chain_run :
  mem_wf m0 ->
  exists (n : Z) (m' : memory),
    (forall passes scan : nat,
        Z.max 0 (max_iterations ure) < Z.of_nat passes ->
        (length (atoms (space m0)) < scan)%nat ->
        ggml_opencog_ure_forward_chain passes scan ure target m0 = Next (n, m'))
    /\ reached m0 m'
    /\ counted 0 (most_inferences ure (length (atoms (space m0)))) n.
Proof.
  intros Hwf.
  apply (forward_chain_settled ure (reached m0) (length (atoms (space m0)))
           reached_bound reached_read reached_precondition reached_conclusion
           target m0).
  split; [split; [exact Hwf|reflexivity]|apply extends_refl].
Qed.

(** X14.  With only the two rules of the source, forward chaining from a
    well-formed memory towards any target returns without faulting, and
    the memory it leaves is well formed and extends the initial one: same
    capacity, every atom still in its slot and at its address with its
    type, name and outgoing set (truth values may have changed), and
    every slot filled since holds a nameless inheritance link.  The count
    returned is an [int], and it is between 0 and [most_inferences] when
    [most_inferences] is at most [INT_MAX], so that no increment
    overflows. *)
Theorem builtin_chaining_extends_memory :
  mem_wf m0 ->
  exists (n : Z) (m' : memory),
    (forall passes scan : nat,
        Z.max 0 (max_iterations ure) < Z.of_nat passes ->
        (length (atoms (space m0)) < scan)%nat ->
        ggml_opencog_ure_forward_chain passes scan ure target m0 = Next (n, m'))
    /\ mem_wf m' /\ extends m0 m'
    /\ INT_MIN <= n <= INT_MAX
    /\ (most_inferences ure (length (atoms (space m0))) <= INT_MAX ->
        0 <= n <= most_inferences ure (length (atoms (space m0)))).
Proof.
  intros Hwf.
  destruct (builtin_chain_run Hwf) as (n & m' & Hrun & [[Hwf' _] Hext] & Hint & Hn).
  exists n, m'. split; [exact Hrun|]. split; [exact Hwf'|].
  split; [exact Hext|]. split; [exact Hint|exact Hn].
Qed.

(** X15.  With only the two rules of the source, inference changes no
    lookup: after forward chaining from a well-formed memory,
    [ggml_opencog_atom_get] returns for every name the pointer it
    returned before. *)
Theorem builtin_chaining_keeps_lookups :
  mem_wf m0 ->
  exists (n : Z) (m' : memory),
    (forall passes scan : nat,
        Z.max 0 (max_iterations ure) < Z.of_nat passes ->
        (length (atoms (space m0)) < scan)%nat ->
        ggml_opencog_ure_forward_chain passes scan ure target m0 = Next (n, m'))
    /\ forall nm, ggml_opencog_atom_get m' nm = ggml_opencog_atom_get m0 nm.
Proof.
  intros Hwf.
  destruct (builtin_chain_run Hwf) as (n & m' & Hrun & [[Hwf' _] Hext] & _).
  exists n, m'. split; [exact Hrun|].
  intros nm. apply atom_get_extends; assumption.
Qed.
End builtin_chain.

(** X14 applied to both rules on A->B, B->C. *)
Lemma builtin_chaining_extends_memory_witness :
  let m := inheritance_memory 8 tv_high in
  mem_wf m
  /\ exists n m',
       (forall passes scan : nat,
           Z.max 0 (max_iterations both_rules_engine) < Z.of_nat passes ->
           (length (atoms (space m)) < scan)%nat ->
           ggml_opencog_ure_forward_chain passes scan both_rules_engine (Ptr 5) m
             = Next (n, m'))
       /\ mem_wf m' /\ extends m m'
       /\ 0 <= n <= most_inferences both_rules_engine 8.
Proof.
  assert (Hwf : mem_wf (inheritance_memory 8 tv_high))
    by (apply (bool_decide_unpack _); vm_compute; exact I).
  split; [exact Hwf|].
  destruct (builtin_chaining_extends_memory both_rules_engine
              (inheritance_memory 8 tv_high) (Ptr 5) both_rules_builtin Hwf)
    as (n & m' & Hrun & Hwf' & Hext & _ & Hn).
  exists n, m'. split; [exact Hrun|]. split; [exact Hwf'|]. split; [exact Hext|].
  apply Hn. vm_compute. discriminate.
Defined.

(** X15 applied to both rules on P, P->Q, R, R->S. *)
Lemma builtin_chaining_keeps_lookups_witness :
  let m := implication_memory tv_high in
  mem_wf m
  /\ exists n m',
       (forall passes scan : nat,
           Z.max 0 (max_iterations both_rules_engine) < Z.of_nat passes ->
           (length (atoms (space m)) < scan)%nat ->
           ggml_opencog_ure_forward_chain passes scan both_rules_engine NULL m
             = Next (n, m'))
       /\ forall nm, ggml_opencog_atom_get m' nm = ggml_opencog_atom_get m nm.
Proof.
  assert (Hwf : mem_wf (implication_memory tv_high))
    by (apply (bool_decide_unpack _); vm_compute; exact I).
  split; [exact Hwf|].
  exact (builtin_chaining_keeps_lookups both_rules_engine
           (implication_memory tv_high) NULL both_rules_builtin Hwf).
Defined.

Lemma inheritance_precondition_frame (m m' : memory) (premises : list atom_ptr)
    (n : Z) :
  (forall q x, deref (heap m) q = Some x -> deref (heap m') q = Some x) ->
  ggml_opencog_rule_inheritance_precondition m premises n = Some true ->
  ggml_opencog_rule_inheritance_precondition m' premises n = Some true.
Proof.
  intros Hframe Hpre.
  destruct (inheritance_precondition_true _ _ _ Hpre)
    as (Hn & inh1 & inh2 & l1 & l2 & b & H0 & H1 & Hl1 & Hl2 & Ht1 & Ht2 & Hn1 & Hn2
        & Hb1 & Hb2).
  unfold ggml_opencog_rule_inheritance_precondition.
  rewrite Hn. cbn [Z.eqb Pos.eqb negb]. rewrite H0, H1. cbn [mbind option_bind].
  rewrite (Hframe _ _ Hl1). cbn [mbind option_bind].
  rewrite (bool_decide_eq_true_2 _ Ht1). cbn [negb].
  rewrite (Hframe _ _ Hl2). cbn [mbind option_bind].
  rewrite (bool_decide_eq_true_2 _ Ht2). cbn [negb].
  rewrite Hn1, Hn2. cbn [Z.eqb Pos.eqb negb orb]. rewrite Hb1, Hb2.
  cbn [mbind option_bind]. rewrite bool_decide_eq_true_2 by reflexivity. reflexivity.
Qed.

(** X16.  The transitivity rule does not look for a link it derived
    before: applied twice to the same premises in a well-formed memory
    with two free slots, it appends two distinct links that have the same
    type, truth value and outgoing set, and the count grows by two. *)
Theorem inheritance_conclusion_duplicates (m : memory) (pi pj : atom_ptr) :
  mem_wf m -> n_atoms (space m) + 2 <= capacity (space m) ->
  ggml_opencog_rule_inheritance_precondition m [pi; pj] 2 = Some true ->
  exists c1 m1 c2 m2 x,
    ggml_opencog_rule_inheritance_conclusion m [pi; pj] 2 = Some (c1, m1)
    /\ ggml_opencog_rule_inheritance_conclusion m1 [pi; pj] 2 = Some (c2, m2)
    /\ c1 <> c2
    /\ deref (heap m2) c1 = Some x /\ deref (heap m2) c2 = Some x
    /\ type x = OPENCOG_ATOM_INHERITANCE_LINK
    /\ n_atoms (space m2) = n_atoms (space m) + 2.
Proof.
  intros Hwf Hfree Hpre. pose proof Hwf as (Hn & Hcap & _).
  destruct (inheritance_precondition_true _ _ _ Hpre)
    as (_ & inh1 & inh2 & l1 & l2 & b & H0 & H1 & Hl1 & Hl2 & _ & _ & Hn1 & Hn2 & _).
  destruct (atom_ok_read _ l1 0 (mem_wf_deref _ _ _ Hwf Hl1) ltac:(lia))
    as (a & Ha & Haok).
  destruct (atom_ok_read _ l2 1 (mem_wf_deref _ _ _ Hwf Hl2) ltac:(lia))
    as (c & Hc & Hcok).
  set (x := {| type := OPENCOG_ATOM_INHERITANCE_LINK; name := None;
               tv := inheritance_tv (tv l1) (tv l2);
               outgoing := [a; c]; n_outgoing := 2 |}).
  set (m1 := {| heap := heap m ++ [x];
                space := {| atoms := <[Z.to_nat (n_atoms (space m)) :=
                                         Ptr (length (heap m))]> (atoms (space m));
                            n_atoms := n_atoms (space m) + 1;
                            capacity := capacity (space m);
                            embedding_dim := embedding_dim (space m) |} |}).
  assert (Hframe : forall q y, deref (heap m) q = Some y -> deref (heap m1) q = Some y).
  { intros q y Hy. simpl. rewrite deref_app_old; [exact Hy|]. exists y. exact Hy. }
  assert (Hpre1 : ggml_opencog_rule_inheritance_precondition m1 [pi; pj] 2 = Some true)
    by (apply (inheritance_precondition_frame m m1 _ _ Hframe Hpre)).
  assert (Hrun1 : ggml_opencog_rule_inheritance_conclusion m [pi; pj] 2
                  = Some (Ptr (length (heap m)), m1)).
  { rewrite (inheritance_conclusion_spec m _ _ _ _ _ _ _ _ Hpre H0 H1 Hl1 Hl2 Ha Hc).
    rewrite link_create_free by lia. reflexivity. }
  assert (Hrun2 : ggml_opencog_rule_inheritance_conclusion m1 [pi; pj] 2
                  = Some (Ptr (length (heap m1)),
                          {| heap := heap m1 ++ [x];
                             space := {| atoms := <[Z.to_nat (n_atoms (space m1)) :=
                                                      Ptr (length (heap m1))]>
                                                    (atoms (space m1));
                                         n_atoms := n_atoms (space m1) + 1;
                                         capacity := capacity (space m1);
                                         embedding_dim := embedding_dim (space m1) |} |})).
  { rewrite (inheritance_conclusion_spec m1 _ _ _ _ _ _ _ _ Hpre1 H0 H1
               (Hframe _ _ Hl1) (Hframe _ _ Hl2) Ha Hc).
    rewrite link_create_free; [reflexivity|simpl; lia|].
    simpl. rewrite length_insert. lia. }
  eexists _, _, _, _, x. split; [exact Hrun1|]. split; [exact Hrun2|].
  split; [|split; [|split; [|split]]].
  - simpl. rewrite length_app. simpl. intros [= H]. lia.
  - simpl. rewrite lookup_app_l by (rewrite length_app; simpl; lia).
    apply (deref_app_new (heap m)).
  - apply (deref_app_new (heap m1)).
  - reflexivity.
  - simpl. lia.
Qed.

(** X16 applied to A->B, B->C in a space of 8 slots. *)
Lemma inheritance_conclusion_duplicates_witness :
  let m := inheritance_memory 8 tv_high in
  mem_wf m
  /\ exists c1 m1 c2 m2,
       ggml_opencog_rule_inheritance_conclusion m [Ptr 3; Ptr 4] 2 = Some (c1, m1)
       /\ ggml_opencog_rule_inheritance_conclusion m1 [Ptr 3; Ptr 4] 2 = Some (c2, m2)
       /\ c1 <> c2 /\ deref (heap m2) c1 = deref (heap m2) c2.
Proof.
  assert (Hwf : mem_wf (inheritance_memory 8 tv_high))
    by (apply (bool_decide_unpack _); vm_compute; exact I).
  split; [exact Hwf|].
  destruct (inheritance_conclusion_duplicates (inheritance_memory 8 tv_high)
              (Ptr 3) (Ptr 4) Hwf)
    as (c1 & m1 & c2 & m2 & x & H1 & H2 & Hne & Hx1 & Hx2 & _).
  - vm_compute. discriminate.
  - vm_compute. reflexivity.
  - exists c1, m1, c2, m2. repeat split; try assumption. congruence.
Defined.

